(** * CodeGraphContext: structural parsers and the SCIP indexer

    A shallow embedding of

    - [tools/languages/elixir.py]  ([ElixirTreeSitterParser]),
    - [tools/languages/heex.py]    ([HeexTreeSitterParser]),
    - [tools/scip_indexer.py]      ([ScipIndexer]),

    together with the properties of the specification that concern them.

    Conventions.  A Python [str] is a [string]; each [ascii] stands for the
    code point of the same number.  Python integers are [Z].  A Python
    [dict] with string keys whose order matters is an association list; the
    symbol table of the index is a [gmap].  The graph store is an explicit
    state that every query transforms.  A function that can raise returns
    [Ok] with its value or [Raise] with the exception. *)

From stdpp Require Import base option gmap strings.
From Stdlib Require Import ZArith List String Ascii Bool Lia.
Import ListNotations.

Set Warnings "-register-all".

Local Open Scope string_scope.
Local Open Scope Z_scope.

(** ** Python string primitives *)

Module PyStr.

(** [str.isspace] on one character, for the code points below 256:
TAB..CR, FS..US, SPACE, NEL and NBSP. *)
Definition isspace (c : ascii) : bool :=
let n := nat_of_ascii c in
((9 <=? n) && (n <=? 13))%nat || ((28 <=? n) && (n <=? 32))%nat
|| (n =? 133)%nat || (n =? 160)%nat.

(** Membership of a character in the character set of [strip(chars)]. *)
Fixpoint mem (c : ascii) (chars : string) : bool :=
match chars with
| EmptyString => false
| String d chars' => Ascii.eqb c d || mem c chars'
end.

Fixpoint lstrip_by (p : ascii -> bool) (s : string) : string :=
match s with
| EmptyString => EmptyString
| String c s' => if p c then lstrip_by p s' else s
end.

Fixpoint rstrip_by (p : ascii -> bool) (s : string) : string :=
match s with
| EmptyString => EmptyString
| String c s' =>
  match rstrip_by p s' with
  | EmptyString => if p c then EmptyString else String c EmptyString
  | r => String c r
  end
end.

(** [s.strip()] and [s.strip(chars)]. *)
Definition strip (s : string) : string := rstrip_by isspace (lstrip_by isspace s).
Definition strip_chars (chars s : string) : string :=
rstrip_by (fun c => mem c chars) (lstrip_by (fun c => mem c chars) s).

(** Truth value of a string: non-empty. *)
Definition truthy (s : string) : bool :=
match s with EmptyString => false | String _ _ => true end.

(** [s.startswith(p)], [s.endswith(p)], [p in s]. *)
Definition startswith (s p : string) : bool := String.prefix p s.

Fixpoint contains (s p : string) : bool :=
String.prefix p s ||
match s with
| EmptyString => false
| String _ s' => contains s' p
end.

Fixpoint rev_string (s acc : string) : string :=
match s with
| EmptyString => acc
| String c s' => rev_string s' (String c acc)
end.

Definition endswith (s p : string) : bool :=
String.prefix (rev_string p "") (rev_string s "").

(** [current.append(ch)] followed later by [''.join(current)]. *)
Definition snoc (s : string) (c : ascii) : string := String.append s (String c EmptyString).

(** [s.replace(old, new)]: left to right, occurrences do not overlap.
[skip] counts the characters of a match that are still to be dropped. *)
Fixpoint replace_from (old new s : string) (skip : nat) : string :=
match s with
| EmptyString => EmptyString
| String c s' =>
  match skip with
  | S k => replace_from old new s' k
  | O =>
      if String.prefix old s
      then String.append new (replace_from old new s' (String.length old - 1))
      else String c (replace_from old new s' O)
  end
end.

Fixpoint intersperse (new s : string) : string :=
match s with
| EmptyString => new
| String c s' => String.append new (String c (intersperse new s'))
end.

Definition replace (old new s : string) : string :=
match old with
| EmptyString => intersperse new s
| _ => replace_from old new s O
end.

(** [s.split(sep)] for a separator of one character: empty pieces are kept. *)
Fixpoint split_char (sep : ascii) (s : string) : list string :=
match s with
| EmptyString => [EmptyString]
| String c s' =>
  match split_char sep s' with
  | [] => [EmptyString]
  | piece :: pieces =>
      if Ascii.eqb c sep then EmptyString :: piece :: pieces
      else String c piece :: pieces
  end
end.

End PyStr.

(** ** [ElixirTreeSitterParser._parse_arguments] *)

Definition is_open (ch : ascii) : bool :=
  Ascii.eqb ch "("%char || Ascii.eqb ch "{"%char || Ascii.eqb ch "["%char.

Definition is_close (ch : ascii) : bool :=
  Ascii.eqb ch ")"%char || Ascii.eqb ch "}"%char || Ascii.eqb ch "]"%char.

(** [args.append(arg)] guarded by [if arg:]. *)
Definition append_arg (args : list string) (current : string) : list string :=
  let arg := PyStr.strip current in
  if PyStr.truthy arg then args ++ [arg] else args.

(** The [for ch in args_text] loop with its three local variables, and the
    statements after the loop at the end of the text. *)
Fixpoint parse_arguments_loop (text : string) (depth : Z) (current : string)
    (args : list string) : list string :=
  match text with
  | EmptyString => append_arg args current
  | String ch rest =>
      if is_open ch then
        parse_arguments_loop rest (depth + 1) (PyStr.snoc current ch) args
      else if is_close ch then
        parse_arguments_loop rest (depth - 1) (PyStr.snoc current ch) args
      else if Ascii.eqb ch ","%char && (depth =? 0) then
        parse_arguments_loop rest depth EmptyString (append_arg args current)
      else
        parse_arguments_loop rest depth (PyStr.snoc current ch) args
  end.

Definition _parse_arguments (args_text : string) : list string :=
  let args_text := PyStr.strip_chars "()" args_text in
  if negb (PyStr.truthy (PyStr.strip args_text)) then []
  else parse_arguments_loop args_text 0 EmptyString [].


(** ** The graph store

    The store is the property graph behind [session.run].  A node has labels
    and the properties this code reads or writes; an edge has a type, two end
    points and the [scip_verified] flag.  Queries are assumed to succeed. *)

Module Graph.

Record node := mk_node {
labels : list string;
path : option string;
relative_path : option string;
name : option string;
scip_symbol : option string;
line_number : option Z
}.

Record edge := mk_edge {
src : nat;
rel_type : string;
dst : nat;
scip_verified : option bool
}.

Record graph := mk_graph {
nodes : list (nat * node);
edges : list edge
}.

Definition empty : graph := mk_graph [] [].

(** [n:Label] *)
Definition has_label (l : string) (n : node) : bool :=
existsb (String.eqb l) (labels n).

(** [{prop: $value}]: a missing property matches nothing. *)
Definition prop_is (o : option string) (v : string) : bool :=
match o with Some x => String.eqb x v | None => false end.

Definition prop_isZ (o : option Z) (v : Z) : bool :=
match o with Some x => Z.eqb x v | None => false end.

(** Identifier of the next created node. *)
Definition fresh_id (g : graph) : nat :=
fold_right (fun e m => Nat.max (S (fst e)) m) O (nodes g).

(** [MATCH (x ...)]: the nodes bound by a pattern. *)
Definition match_ids (p : node -> bool) (g : graph) : list nat :=
map fst (filter (fun e => p (snd e)) (nodes g)).

Definition add_node (n : node) (g : graph) : graph :=
mk_graph (nodes g ++ [(fresh_id g, n)]) (edges g).

(** [MERGE (x ...)]: creates the node when the pattern binds none.  After
it the pattern binds at least one node, and a [MERGE] that runs once
per incoming row creates at most one. *)
Definition merge_node (p : node -> bool) (init : node) (g : graph) : graph :=
if existsb (fun e => p (snd e)) (nodes g) then g else add_node init g.

(** [SET x.prop = ...] on every node the pattern binds; the properties
that are set are never part of the pattern that bound the node. *)
Definition set_nodes (p : node -> bool) (f : node -> node) (g : graph) : graph :=
mk_graph (map (fun e => (fst e, if p (snd e) then f (snd e) else snd e)) (nodes g))
       (edges g).

Definition edge_is (s : nat) (t : string) (d : nat) (e : edge) : bool :=
Nat.eqb (src e) s && String.eqb (rel_type e) t && Nat.eqb (dst e) d.

(** [MERGE (a)-[:T]->(b)] for one row. *)
Definition merge_edge (t : string) (sd : nat * nat) (g : graph) : graph :=
if existsb (edge_is (fst sd) t (snd sd)) (edges g) then g
else mk_graph (nodes g) (edges g ++ [mk_edge (fst sd) t (snd sd) None]).

(** The rows [(a, b)] of two bound variables. *)
Definition rows (xs ys : list nat) : list (nat * nat) :=
flat_map (fun x => map (pair x) ys) xs.

(** [MERGE (a)-[:T]->(b)] over all rows. *)
Definition merge_edges (t : string) (rs : list (nat * nat)) (g : graph) : graph :=
fold_left (fun g r => merge_edge t r g) rs g.

Definition edge_in (t : string) (rs : list (nat * nat)) (e : edge) : bool :=
existsb (fun r => edge_is (fst r) t (snd r) e) rs.

(** [SET r.scip_verified = true] on every relationship bound to [r]. *)
Definition verify_edges (t : string) (rs : list (nat * nat)) (g : graph) : graph :=
mk_graph (nodes g)
(map (fun e => if edge_in t rs e
               then mk_edge (src e) (rel_type e) (dst e) (Some true) else e)
     (edges g)).

(** [RETURN count(r)]: the relationships bound to [r]. *)
Definition count_edges (t : string) (rs : list (nat * nat)) (g : graph) : Z :=
Z.of_nat (List.length (filter (edge_in t rs) (edges g))).

(** [MATCH (n) WHERE ... DETACH DELETE n]: the nodes go, and so does every
relationship that starts or ends at one of them. *)
Definition detach_delete (p : node -> bool) (g : graph) : graph :=
let dead := match_ids p g in
mk_graph (filter (fun e => negb (p (snd e))) (nodes g))
       (filter (fun e => negb (existsb (Nat.eqb (src e)) dead)
                         && negb (existsb (Nat.eqb (dst e)) dead))
               (edges g)).

End Graph.

(** ** Paths: [pathlib] and [os.path] on POSIX *)

Module PyPath.

(** [os.path.join(a, b)] *)
Definition join (a b : string) : string :=
if PyStr.startswith b "/" then b
else if negb (PyStr.truthy a) || PyStr.endswith a "/" then String.append a b
else String.append a (String.append "/" b).

(** The root of a POSIX path: exactly two leading slashes are kept,
any other number of leading slashes is one. *)
Definition root (s : string) : list string :=
if PyStr.startswith s "/" then
if PyStr.startswith s "//" && negb (PyStr.startswith s "///") then ["//"] else ["/"]
else [].

(** [Path(s).parts]: the root if any, then the components that are neither
empty nor a single dot. *)
Definition parts (s : string) : list string :=
root s ++ filter (fun c => PyStr.truthy c && negb (String.eqb c "."))
               (PyStr.split_char "/" s).

(** [os.path.basename(p)]: what follows the last slash. *)
Definition basename (p : string) : string :=
List.last (PyStr.split_char "/" p) EmptyString.

End PyPath.

(** ** [scip_indexer.py] *)

Module Scip.
Import Graph.

(** SCIP kind enum values ([Class = 7], [Method = 26], ...). *)
Definition Kind_Class : Z := 7.
Definition Kind_Method : Z := 26.
Definition Kind_Function : Z := 17.
Definition Kind_Variable : Z := 61.
Definition Kind_Interface : Z := 21.
Definition Kind_Constructor : Z := 9.
Definition Kind_Struct : Z := 49.
Definition Kind_Enum : Z := 11.
Definition Kind_Package : Z := 43.
Definition Kind_Module : Z := 38.
Definition Kind_Namespace : Z := 31.

(** [KIND_TO_LABEL.get(kind)] *)
Definition KIND_TO_LABEL (kind : Z) : option string :=
if kind =? 0 then Some "Symbol"
else if kind =? Kind_Class then Some "Class"
else if kind =? Kind_Method then Some "Function"
else if kind =? Kind_Function then Some "Function"
else if kind =? Kind_Variable then Some "Variable"
else if kind =? Kind_Interface then Some "Interface"
else if kind =? Kind_Constructor then Some "Function"
else if kind =? Kind_Struct then Some "Struct"
else if kind =? Kind_Enum then Some "Enum"
else if kind =? Kind_Package then Some "Module"
else if kind =? Kind_Module then Some "Module"
else if kind =? Kind_Namespace then Some "Module"
else None.

Record SymbolInformation := mk_info {
info_symbol : string;
kind : Z;
display_name : string
}.

(** An occurrence.  Its range has three or four integers, all 0-indexed,
of which the code reads the first two. *)
Record Occurrence := mk_occ {
start_line : Z;
start_char : Z;
range_rest : list Z;
symbol : string;
symbol_roles : Z
}.

Record Document := mk_doc {
doc_relative_path : string;
occurrences : list Occurrence;
symbols : list SymbolInformation
}.

Record Index := mk_index {
documents : list Document;
external_symbols : list SymbolInformation
}.

(** [SymbolRole.Definition] *)
Definition SymbolRole_Definition : Z := 1.

(** One function of the structural parse: [name], [line_number], [end_line]. *)
Record Func := mk_func {
func_name : string;
func_line_number : Z;
func_end_line : Z
}.

(** What a run takes from its surroundings: the resolved repository root,
the resolution of [repo_path / relative_path], and the structural parse
of the file at a relative path ([None] when the file does not exist or
cannot be parsed). *)
Record Env := mk_env {
repo_path_str : string;
resolve : string -> string;
ts_parse : string -> option (list Func)
}.

Definition is_local (sym : string) : bool := PyStr.startswith sym "local".

Definition _infer_label_from_symbol (sym : string) : string :=
if PyStr.endswith sym ")." || PyStr.endswith sym "()" then "Function"
else if PyStr.endswith sym "#" then "Class"
else if PyStr.endswith sym "/" then "Module"
else if PyStr.contains sym "package" && PyStr.contains sym "module" then "Module"
else "Symbol".

Definition _extract_name (sym : string) (sym_info : option SymbolInformation) : string :=
match sym_info with
| Some i => if PyStr.truthy (display_name i) then display_name i else
  let clean_symbol := PyStr.replace "()" "" (PyStr.replace "#" "/" (PyStr.replace "." "/" sym)) in
  let parts := filter PyStr.truthy (PyStr.split_char "/" clean_symbol) in
  match parts with [] => sym | _ => List.last parts EmptyString end
| None =>
  let clean_symbol := PyStr.replace "()" "" (PyStr.replace "#" "/" (PyStr.replace "." "/" sym)) in
  let parts := filter PyStr.truthy (PyStr.split_char "/" clean_symbol) in
  match parts with [] => sym | _ => List.last parts EmptyString end
end.

(** The label of a definition node (lines 277-293). *)
Definition definition_label (symbol_map : gmap string SymbolInformation) (sym : string) : string :=
let kind := match symbol_map !! sym with Some i => kind i | None => 0 end in
let label := KIND_TO_LABEL kind in
let label :=
match label with
| Some "Symbol" | None =>
    let inferred := _infer_label_from_symbol sym in
    if negb (String.eqb inferred "Symbol") then Some inferred else label
| _ => label
end in
match label with
| None => "Symbol"
| Some l => if PyStr.truthy l then l else "Symbol"
end.

(** The label of the target of a reference (lines 415-423). *)
Definition target_label (symbol_map : gmap string SymbolInformation) (sym : string) : string :=
let target_kind := match symbol_map !! sym with Some i => kind i | None => 0 end in
let target_label := default "Symbol" (KIND_TO_LABEL target_kind) in
if String.eqb target_label "Symbol" then
let inferred := _infer_label_from_symbol sym in
if negb (String.eqb inferred "Symbol") then inferred else target_label
else target_label.

(** Stable sort by a key, as [list.sort(key=...)]: an element goes before
the elements of the sorted rest whose key is not smaller. *)
Section Sort.
Context {A : Type} (le : A -> A -> bool).

Fixpoint insert_sorted (x : A) (l : list A) : list A :=
match l with
| [] => [x]
| y :: l' => if le x y then x :: y :: l' else y :: insert_sorted x l'
end.

Definition stable_sort (l : list A) : list A := fold_right insert_sorted [] l.
End Sort.

(** [(x.range[0], x.range[1])] compared as tuples. *)
Definition range_le (a b : Occurrence) : bool :=
(start_line a <? start_line b)
|| ((start_line a =? start_line b) && (start_char a <=? start_char b)).

Definition span (f : Func) : Z := func_end_line f - func_line_number f.

Definition span_le (a b : Func) : bool := span a <=? span b.

(** [f['line_number'] <= ref_line <= f['end_line']] *)
Definition contains_line (ref_line : Z) (f : Func) : bool :=
(func_line_number f <=? ref_line) && (ref_line <=? func_end_line f).

(** Lines 400-406: the caller of a reference at [ref_line], if any. *)
Definition find_caller (functions : list Func) (ref_line : Z) : option Func :=
let containing_funcs := filter (contains_line ref_line) functions in
match containing_funcs with
| [] => None
| _ => head (stable_sort span_le containing_funcs)
end.

(** *** Queries *)

Definition is_file (p : string) (n : node) : bool :=
has_label "File" n && prop_is (path n) p.

Definition is_labelled_at (l p : string) (n : node) : bool :=
has_label l n && prop_is (path n) p.

Definition has_symbol (l s : string) (n : node) : bool :=
has_label l n && prop_is (scip_symbol n) s.

Definition is_caller_label (n : node) : bool :=
has_label "Function" n || has_label "Method" n.

Definition caller_by_name (p nm : string) (n : node) : bool :=
prop_is (path n) p && prop_is (name n) nm && is_caller_label n.

Definition caller_by_line (p : string) (ln : Z) (n : node) : bool :=
prop_is (path n) p && prop_isZ (line_number n) ln && is_caller_label n.

Definition blank (l : string) : node := mk_node [l] None None None None None.

(** [MERGE (f:File {path: $path})
 SET f.relative_path = $rel_path, f.name = $name] *)
Definition file_query (p rel nm : string) (g : graph) : graph :=
let g := merge_node (is_file p)
         (mk_node ["File"] (Some p) None None None None) g in
set_nodes (is_file p)
(fun n => mk_node (labels n) (path n) (Some rel) (Some nm)
                  (scip_symbol n) (line_number n)) g.

(** [MATCH (p:parent_label {path: $parent_path})
 MERGE (d:Directory {path: $current_path})
 SET d.name = $part
 MERGE (p)-[:CONTAINS]->(d)]
Without a parent there is no row, and nothing after [MATCH] runs. *)
Definition directory_query (parent_label parent_path current_path part : string)
(g : graph) : graph :=
match match_ids (is_labelled_at parent_label parent_path) g with
| [] => g
| ps =>
  let g := merge_node (is_labelled_at "Directory" current_path)
             (mk_node ["Directory"] (Some current_path) None None None None) g in
  let ds := match_ids (is_labelled_at "Directory" current_path) g in
  let g := set_nodes (is_labelled_at "Directory" current_path)
             (fun n => mk_node (labels n) (path n) (relative_path n) (Some part)
                               (scip_symbol n) (line_number n)) g in
  merge_edges "CONTAINS" (rows ps ds) g
end.

(** [MATCH (p:parent_label {path: $parent_path})
 MATCH (f:File {path: $file_path})
 MERGE (p)-[:CONTAINS]->(f)] *)
Definition link_file_query (parent_label parent_path file_path : string)
(g : graph) : graph :=
merge_edges "CONTAINS"
(rows (match_ids (is_labelled_at parent_label parent_path) g)
      (match_ids (is_file file_path) g)) g.

(** [MATCH (f:File {path: $path})
 MERGE (n:label {scip_symbol: $symbol})
 SET n.name = $name, n.path = $path, n.line_number = $line_number
 MERGE (f)-[:CONTAINS]->(n)] *)
Definition definition_query (label p sym nm : string) (ln : Z) (g : graph) : graph :=
match match_ids (is_file p) g with
| [] => g
| fs =>
  let g := merge_node (has_symbol label sym)
             (mk_node [label] None None None (Some sym) None) g in
  let ns := match_ids (has_symbol label sym) g in
  let g := set_nodes (has_symbol label sym)
             (fun n => mk_node (labels n) (Some p) (relative_path n) (Some nm)
                               (scip_symbol n) (Some ln)) g in
  merge_edges "CONTAINS" (rows fs ns) g
end.

(** [MATCH (caller {...}) WHERE caller:Function OR caller:Method
 MERGE (target:target_label {scip_symbol: $target_symbol})
 ON CREATE SET target.name = $target_name
 MERGE (caller)-[r:CALLS]->(target)
 SET r.scip_verified = true
 RETURN count(r) as created]
with the caller pattern as a parameter.  The result pairs the count
with the new state. *)
Definition calls_query (caller : node -> bool) (tlabel tsym tname : string)
(g : graph) : Z * graph :=
match match_ids caller g with
| [] => (0, g)
| cs =>
  let g := merge_node (has_symbol tlabel tsym)
             (mk_node [tlabel] None None (Some tname) (Some tsym) None) g in
  let rs := rows cs (match_ids (has_symbol tlabel tsym) g) in
  let g := merge_edges "CALLS" rs g in
  let g := verify_edges "CALLS" rs g in
  (count_edges "CALLS" rs g, g)
end.

(** *** [_process_document] *)

(** The loop over [relative_parts[:-1]] with its two loop variables
[parent_path] and [parent_label]; then the link to the file. *)
Fixpoint link_hierarchy (dir_parts : list string) (parent_path parent_label : string)
(file_path_str : string) (g : graph) : graph :=
match dir_parts with
| [] => link_file_query parent_label parent_path file_path_str g
| part :: dir_parts' =>
  let current_abs_path := PyPath.join parent_path part in
  let g := directory_query parent_label parent_path current_abs_path part g in
  link_hierarchy dir_parts' current_abs_path "Directory" file_path_str g
end.

(** Lines 256-266. *)
Definition is_definition (occ : Occurrence) : bool :=
negb (Z.land (symbol_roles occ) SymbolRole_Definition =? 0).

Definition definitions_of (doc : Document) : list Occurrence :=
stable_sort range_le (filter is_definition (occurrences doc)).

Definition references_of (doc : Document) : list Occurrence :=
filter (fun occ => negb (is_definition occ)) (occurrences doc).

(** The body of [for occ in definitions] (lines 272-311). *)
Definition process_definition (symbol_map : gmap string SymbolInformation)
(file_path_str : string) (g : graph) (occ : Occurrence) : graph :=
if is_local (symbol occ) then g
else
let sym_info := symbol_map !! symbol occ in
let label := definition_label symbol_map (symbol occ) in
let name := _extract_name (symbol occ) sym_info in
let line_number := start_line occ + 1 in
definition_query label file_path_str (symbol occ) name line_number g.

(** Lines 430-464: the primary query, and the fallback when it bound no
relationship. *)
Definition upsert_call (symbol_map : gmap string SymbolInformation)
(file_path_str : string) (caller : Func) (target_symbol : string)
(g : graph) : graph :=
let target_info := symbol_map !! target_symbol in
let tlabel := target_label symbol_map target_symbol in
let tname := _extract_name target_symbol target_info in
let '(created, g1) :=
calls_query (caller_by_name file_path_str (func_name caller))
            tlabel target_symbol tname g in
if created =? 0 then
snd (calls_query (caller_by_line file_path_str (func_line_number caller))
                 tlabel target_symbol tname g1)
else g1.

(** The body of [for ref in references] (lines 381-469). *)
Definition process_reference (symbol_map : gmap string SymbolInformation)
(file_path_str : string) (functions : list Func) (g : graph)
(ref : Occurrence) : graph :=
let ref_line := start_line ref + 1 in
if is_local (symbol ref) then g
else
match find_caller functions ref_line with
| None => g
| Some caller => upsert_call symbol_map file_path_str caller (symbol ref) g
end.

(** Lines 355-469. *)
Definition link_references (env : Env) (symbol_map : gmap string SymbolInformation)
(doc : Document) (file_path_str : string) (g : graph) : graph :=
match ts_parse env (doc_relative_path doc) with
| None => g
| Some functions =>
  match functions with
  | [] => g
  | _ =>
      fold_left (process_reference symbol_map file_path_str functions)
                (references_of doc) g
  end
end.

Definition _process_document (env : Env) (symbol_map : gmap string SymbolInformation)
(doc : Document) (g : graph) : graph :=
if PyStr.startswith (doc_relative_path doc) ".." then g
else
let file_path_str := resolve env (doc_relative_path doc) in
let file_name := PyPath.basename file_path_str in
let g := file_query file_path_str (doc_relative_path doc) file_name g in
let dir_parts := removelast (PyPath.parts (doc_relative_path doc)) in
let g := link_hierarchy dir_parts (repo_path_str env) "Repository" file_path_str g in
let g := link_hierarchy dir_parts (repo_path_str env) "Repository" file_path_str g in
let g := fold_left (process_definition symbol_map file_path_str)
                   (definitions_of doc) g in
link_references env symbol_map doc file_path_str g.

(** *** [ingest_index] *)

Definition add_symbols (m : gmap string SymbolInformation)
(l : list SymbolInformation) : gmap string SymbolInformation :=
fold_left (fun m s => <[info_symbol s := s]> m) l m.

Definition symbol_info_map (index : Index) : gmap string SymbolInformation :=
fold_left (fun m doc => add_symbols m (symbols doc)) (documents index)
        (add_symbols ∅ (external_symbols index)).

Definition is_local_node (n : node) : bool :=
match scip_symbol n with Some s => is_local s | None => false end.

(** [MATCH (n) WHERE n.scip_symbol STARTS WITH 'local' DETACH DELETE n] *)
Definition cleanup_query (g : graph) : graph := detach_delete is_local_node g.

Definition process_documents (env : Env) (index : Index) (g : graph) : graph :=
fold_left (fun g doc => _process_document env (symbol_info_map index) doc g)
        (documents index) g.

Definition ingest_index (env : Env) (index : Index) (g : graph) : graph :=
cleanup_query (process_documents env index g).

End Scip.

(** ** Reading a source file

    [open(path, "r", encoding="utf-8", errors=...)] followed by [f.read()]:
    the bytes of the file are decoded as UTF-8 under an error handler, and
    line ends are translated.  The text of a file is a list of code points. *)

Module PyFile.

Inductive error_handler := Strict | Ignore | Replace.

(** The exceptions of this code: [open] raises [OSError] when the file
cannot be opened or read, and [ValueError] when the path holds a null
character; the decoder raises [UnicodeDecodeError]; the interpreter raises
[RecursionError] when calls nest deeper than it allows. *)
Inductive exn :=
| OSError (path : string)
| ValueError
| UnicodeDecodeError
| RecursionError.

Inductive result (A : Type) :=
| Ok (a : A)
| Raise (e : exn).
Arguments Ok {A} a.
Arguments Raise {A} e.

(** An exception that nothing catches ends the statements that follow. *)
Definition bind {A B : Type} (r : result A) (f : A -> result B) : result B :=
match r with
| Ok a => f a
| Raise e => Raise e
end.

Notation "x <- r ;; f" := (bind r (fun x => f))
(at level 20, r at level 99, f at level 200).

(** A loop that appends what [f] returns for each element, up to the first
exception. *)
Fixpoint collect {A B : Type} (f : A -> result (list B)) (l : list A)
: result (list B) :=
match l with
| [] => Ok []
| x :: l' => ys <- f x ;; rest <- collect f l' ;; Ok (app ys rest)
end.

Definition is_continuation (b : N) : bool := ((128 <=? b) && (b <=? 191))%N.

(** What the decoder does with an invalid range of bytes: [Strict]
raises, [Ignore] drops the range, [Replace] puts U+FFFD in its place.
[rest] is the decoding of what follows the range. *)
Definition on_error (h : error_handler) (rest : option (list N)) : option (list N) :=
match h with
| Strict => None
| Ignore => rest
| Replace => option_map (cons 65533%N) rest
end.

Definition emit (c : N) (rest : option (list N)) : option (list N) :=
option_map (cons c) rest.

Definition low6 (b : N) : N := N.land b 63.

(** The second byte of a sequence that starts with [b0]. *)
Definition second_ok (b0 b1 : N) : bool :=
(is_continuation b1
&& negb ((b0 =? 224) && (b1 <? 160)) && negb ((b0 =? 237) && (160 <=? b1))
&& negb ((b0 =? 240) && (b1 <? 144)) && negb ((b0 =? 244) && (144 <=? b1)))%N.

(** The UTF-8 decoder.  An invalid start byte is a range of one byte; a
sequence cut by a byte that cannot continue it is the range before
that byte; a sequence cut by the end of the data is the range up to
the end. *)
Fixpoint utf8_decode (h : error_handler) (bs : list N) : option (list N) :=
match bs with
| [] => Some []
| b0 :: r0 =>
  if (b0 <? 128)%N then emit b0 (utf8_decode h r0)
  else if (b0 <? 194)%N then on_error h (utf8_decode h r0)
  else if (b0 <? 224)%N then
    match r0 with
    | [] => on_error h (Some [])
    | b1 :: r1 =>
        if is_continuation b1
        then emit (N.lor (N.shiftl (N.land b0 31) 6) (low6 b1)) (utf8_decode h r1)
        else on_error h (utf8_decode h r0)
    end
  else if (b0 <? 240)%N then
    match r0 with
    | [] => on_error h (Some [])
    | b1 :: r1 =>
        if negb (second_ok b0 b1) then on_error h (utf8_decode h r0)
        else
          match r1 with
          | [] => on_error h (Some [])
          | b2 :: r2 =>
              if is_continuation b2
              then emit (N.lor (N.shiftl (N.land b0 15) 12)
                           (N.lor (N.shiftl (low6 b1) 6) (low6 b2)))
                        (utf8_decode h r2)
              else on_error h (utf8_decode h r1)
          end
    end
  else if (b0 <? 245)%N then
    match r0 with
    | [] => on_error h (Some [])
    | b1 :: r1 =>
        if negb (second_ok b0 b1) then on_error h (utf8_decode h r0)
        else
          match r1 with
          | [] => on_error h (Some [])
          | b2 :: r2 =>
              if negb (is_continuation b2) then on_error h (utf8_decode h r1)
              else
                match r2 with
                | [] => on_error h (Some [])
                | b3 :: r3 =>
                    if is_continuation b3
                    then emit (N.lor (N.shiftl (N.land b0 7) 18)
                                 (N.lor (N.shiftl (low6 b1) 12)
                                    (N.lor (N.shiftl (low6 b2) 6) (low6 b3))))
                              (utf8_decode h r3)
                    else on_error h (utf8_decode h r2)
                end
          end
    end
  else on_error h (utf8_decode h r0)
end.

(** Line ends of a text file opened for reading: CR LF and a lone CR
become LF. *)
Fixpoint universal_newlines (t : list N) : list N :=
match t with
| [] => []
| c :: t' =>
  if (c =? 13)%N then
    match t' with
    | d :: t'' => if (d =? 10)%N then 10%N :: universal_newlines t''
                  else 10%N :: universal_newlines t'
    | [] => [10%N]
    end
  else c :: universal_newlines t'
end.

(** [bytes(source_code, "utf8")] *)
Definition encode_char (c : N) : list N :=
(if c <? 128 then [c]
else if c <? 2048 then [N.lor 192 (N.shiftr c 6); N.lor 128 (low6 c)]
else if c <? 65536 then
 [N.lor 224 (N.shiftr c 12); N.lor 128 (low6 (N.shiftr c 6)); N.lor 128 (low6 c)]
else
 [N.lor 240 (N.shiftr c 18); N.lor 128 (low6 (N.shiftr c 12));
  N.lor 128 (low6 (N.shiftr c 6)); N.lor 128 (low6 c)])%N.

Definition utf8_encode (t : list N) : list N := flat_map encode_char t.

(** A file system: the bytes of the file at a path, if it can be opened
and read. *)
Definition file_system := string -> option (list Byte.byte).

(** A path with a null character is refused before the file system is
asked. *)
Definition has_null (path : string) : bool := PyStr.mem Ascii.zero path.

(** [with open(path, "r", encoding="utf-8", errors=h) as f: f.read()] *)
Definition read_text (fs : file_system) (h : error_handler) (path : string)
: result (list N) :=
if has_null path then Raise ValueError
else
match fs path with
| None => Raise (OSError path)
| Some bs =>
  match utf8_decode h (map Byte.to_N bs) with
  | None => Raise UnicodeDecodeError
  | Some t => Ok (universal_newlines t)
  end
end.

(** The first statement of both [parse] methods:
[with open(path, "r", encoding="utf-8", errors="ignore") as f:
     source_code = f.read()] *)
Definition read_source (fs : file_system) (path : string) : result (list N) :=
read_text fs Ignore path.

End PyFile.

(** ** Values of the structural record *)

Inductive pyval :=
| PNone
| PBool (b : bool)
| PInt (z : Z)
| PStr (s : string)
| PList (l : list pyval)
| PTuple (l : list pyval)
| PDict (d : list (string * pyval)).

Definition opt_str (o : option string) : pyval :=
  match o with Some s => PStr s | None => PNone end.

Definition opt_int (o : option Z) : pyval :=
  match o with Some z => PInt z | None => PNone end.

(** [d[key]] on a dict value. *)
Fixpoint assoc (key : string) (d : list (string * pyval)) : option pyval :=
  match d with
  | [] => None
  | (k, v) :: d' => if String.eqb k key then Some v else assoc key d'
  end.

Definition get_item (key : string) (v : pyval) : option pyval :=
  match v with PDict d => assoc key d | _ => None end.

(** ** Syntax trees

    A node of the tree-sitter tree, as the parsers see it: its identity,
    type, text, byte range and rows, its children, and the chains of its
    ancestors and of its preceding siblings. *)

Inductive TSNode := mk_ts {
  ts_id : nat;
  ts_type : string;
  ts_text : string;
  start_byte : Z;
  end_byte : Z;
  start_row : Z;
  end_row : Z;
  children : list TSNode;
  parent : option TSNode;
  prev_sibling : option TSNode
}.

(** [node.start_byte >= outer.start_byte and node.end_byte <= outer.end_byte] *)
Definition within (node outer : TSNode) : bool :=
  (start_byte outer <=? start_byte node) && (end_byte node <=? end_byte outer).

Definition first_of_type (ty : string) (l : list TSNode) : option TSNode :=
  find (fun c => String.eqb (ts_type c) ty) l.

Definition str_in (s : string) (l : list string) : bool := existsb (String.eqb s) l.

(** A dict keyed by [id(node)]: assignment to a present key keeps its place. *)
Fixpoint dict_set {V : Type} (k : nat) (v : V) (d : list (nat * V)) : list (nat * V) :=
  match d with
  | [] => [(k, v)]
  | (k', v') :: d' => if Nat.eqb k' k then (k, v) :: d' else (k', v') :: dict_set k v d'
  end.

(** The tree-sitter side of a parser: [self.parser.parse(bytes).root_node] and
    [execute_query(self.language, query_str, root_node)]. *)
Record TreeSitter := mk_tree_sitter {
  parser_parse : list N -> TSNode;
  execute_query : string -> TSNode -> list (TSNode * string)
}.

(** ** [languages/elixir.py] *)

Module Elixir.
Import PyFile.

Definition language_name : string := "elixir".

(** Keys of [ELIXIR_QUERIES]; the query text itself is interpreted by
tree-sitter. *)
Definition ELIXIR_QUERIES (key : string) : string := key.

Definition _get_node_text (node : TSNode) : string := ts_text node.

(** The name looked up inside [_get_parent_context]: in the first
[arguments] child, the first child that is an [alias] or a [call]. *)
Fixpoint context_name_in (acs : list TSNode) : option string :=
match acs with
| [] => None
| ac :: acs' =>
  if String.eqb (ts_type ac) "alias" then Some (_get_node_text ac)
  else if String.eqb (ts_type ac) "call" then
    match first_of_type "identifier" (children ac) with
    | Some name_node => Some (_get_node_text name_node)
    | None => None
    end
  else context_name_in acs'
end.

Definition context_name (curr : TSNode) : option string :=
match first_of_type "arguments" (children curr) with
| Some arg_child => context_name_in (children arg_child)
| None => None
end.

(** One turn of the [while curr] loop: the context found at [curr], if any. *)
Definition context_at (types : list string) (curr : TSNode)
: option (string * string * Z) :=
if String.eqb (ts_type curr) "call" then
match first_of_type "identifier" (children curr) with
| Some child =>
    let ident := _get_node_text child in
    if str_in ident types then
      match context_name curr with
      | Some name =>
          if PyStr.truthy name then Some (name, ident, start_row curr + 1) else None
      | None => None
      end
    else None
| None => None
end
else None.

Fixpoint context_from (types : list string) (curr : TSNode)
: option (string * string * Z) :=
match context_at types curr with
| Some r => Some r
| None =>
  match curr with
  | mk_ts _ _ _ _ _ _ _ _ (Some p) _ => context_from types p
  | mk_ts _ _ _ _ _ _ _ _ None _ => None
  end
end.

Definition _get_parent_context (node : TSNode) (types : list string)
: option (string * string * Z) :=
match parent node with
| Some curr => context_from types curr
| None => None
end.

Definition default_types : list string := ["defmodule"; "def"; "defp"].

Definition complexity_keywords : list string :=
["case"; "cond"; "if"; "unless"; "with"; "try"; "rescue"; "catch"].
Definition complexity_operators : list string := ["&&"; "||"; "and"; "or"].

(** [traverse] calls itself for every child, so its calls nest as deep as
the tree, and the interpreter raises [RecursionError] when calls nest
deeper than it allows.  [frames] is the number of nested calls that are
still allowed; the calls of a parser that do not nest with the depth of
the tree are taken to have room. *)

(** [self._get_node_text(n)] inside [traverse]: a call of its own. *)
Definition node_text_at (frames : nat) (n : TSNode) : result string :=
match frames with
| O => Raise RecursionError
| S _ => Ok (_get_node_text n)
end.

(** What [traverse] adds to [count] at one node, with [frames] calls still
allowed inside [traverse]. *)
Definition complexity_here (frames : nat) (n : TSNode) : result Z :=
if str_in (ts_type n) complexity_keywords then Ok 1
else if String.eqb (ts_type n) "identifier" then
text <- node_text_at frames n ;;
Ok (if str_in text complexity_keywords then 1 else 0)
else if String.eqb (ts_type n) "binary_operator" then
op_text <- node_text_at frames n ;;
Ok (if existsb (PyStr.contains op_text) complexity_operators then 1 else 0)
else Ok 0.

Fixpoint traverse (frames : nat) (n : TSNode) : result Z :=
match frames with
| O => Raise RecursionError
| S inside =>
  here <- complexity_here inside n ;;
  below <- (fix traverse_all (l : list TSNode) : result Z :=
              match l with
              | [] => Ok 0
              | c :: l' =>
                  a <- traverse inside c ;; b <- traverse_all l' ;; Ok (a + b)
              end) (children n) ;;
  Ok (here + below)
end.

(** [frames] calls are allowed when [traverse(node)] is called. *)
Definition _calculate_complexity (frames : nat) (node : TSNode) : result Z :=
count <- traverse frames node ;; Ok (1 + count).

Fixpoint docstring_from (prev : TSNode) : option string :=
let text := _get_node_text prev in
let continue :=
match prev with
| mk_ts _ _ _ _ _ _ _ _ _ (Some p) => docstring_from p
| mk_ts _ _ _ _ _ _ _ _ _ None => None
end in
if String.eqb (ts_type prev) "unary_operator" then
if PyStr.startswith text "@doc" || PyStr.startswith text "@moduledoc"
then Some (PyStr.strip text) else continue
else if String.eqb (ts_type prev) "comment" then
if PyStr.startswith text "#" then Some (PyStr.strip text) else continue
else None.

Definition _get_docstring (node : TSNode) : option string :=
match prev_sibling node with
| Some prev => docstring_from prev
| None => None
end.

(** The optional keys added when [self.index_source] is set. *)
Definition source_keys (index_source : bool) (node : TSNode)
(docstring : option (option string)) : list (string * pyval) :=
if index_source then
("source", PStr (_get_node_text node))
:: match docstring with
   | Some d => [("docstring", opt_str d)]
   | None => []
   end
else [].

Definition line_of (node : TSNode) : pyval := PInt (start_row node + 1).
Definition end_line_of (node : TSNode) : pyval := PInt (end_row node + 1).

Definition context_of (node : TSNode) : option string :=
option_map (fun r => fst (fst r)) (_get_parent_context node ["defmodule"]).

Definition context_type_of (node : TSNode) : option string :=
option_map (fun r => snd (fst r)) (_get_parent_context node ["defmodule"]).

Section Parser.
Context (ts : TreeSitter) (frames : nat).

(** The two loops that correlate captures: seed one record per node
captured as [whole], then let every capture that lies within a
record update it. *)
Definition seed {R : Type} (is_whole : string -> bool) (init : TSNode -> string -> R)
(all_captures : list (TSNode * string)) : list (nat * R) :=
fold_left (fun d c => if is_whole (snd c)
                then dict_set (ts_id (fst c)) (init (fst c) (snd c)) d else d)
    all_captures [].

Definition attach {R : Type} (node_of : R -> TSNode)
(update : string -> string -> R -> R)
(all_captures : list (TSNode * string)) (d : list (nat * R)) : list (nat * R) :=
fold_left (fun d c =>
       map (fun e => if within (fst c) (node_of (snd e))
                     then (fst e, update (snd c) (_get_node_text (fst c)) (snd e))
                     else e) d)
    all_captures d.

(** *** [_find_functions] *)

Record func_data := mk_func_data {
fd_node : TSNode;
fd_name : option string;
fd_args : option string;
fd_def_type : option string
}.

Definition func_update (capture_name text : string) (r : func_data) : func_data :=
if String.eqb capture_name "func_name"
then mk_func_data (fd_node r) (Some text) (fd_args r) (fd_def_type r)
else if String.eqb capture_name "func_args"
then mk_func_data (fd_node r) (fd_name r) (Some text) (fd_def_type r)
else if String.eqb capture_name "def_type"
then mk_func_data (fd_node r) (fd_name r) (fd_args r) (Some text)
else r.

Definition or_else (o : option string) (d : string) : string :=
match o with
| Some s => if PyStr.truthy s then s else d
| None => d
end.

(** The entry of a function whose complexity is [complexity]. *)
Definition func_record (index_source : bool) (name : string) (r : func_data)
(complexity : Z) : pyval :=
let func_node := fd_node r in
let args := _parse_arguments (or_else (fd_args r) "") in
let def_type := or_else (fd_def_type r) "def" in
let visibility := if String.eqb def_type "defp" then "private" else "public" in
PDict ([("name", PStr name);
        ("line_number", line_of func_node);
        ("end_line", end_line_of func_node);
        ("args", PList (map PStr args));
        ("visibility", PStr visibility);
        ("complexity", PInt complexity);
        ("context", opt_str (context_of func_node));
        ("lang", PStr language_name);
        ("is_dependency", PBool false)]
       ++ source_keys index_source func_node
            (Some (_get_docstring func_node))).

(** The body of the last loop of [_find_functions]: nothing is appended
for a record without a name, and an exception of
[_calculate_complexity] ends the loop. *)
Definition func_entry (index_source : bool) (r : func_data) : result (list pyval) :=
match fd_name r with
| Some name =>
if PyStr.truthy name then
complexity <- _calculate_complexity frames (fd_node r) ;;
Ok [func_record index_source name r complexity]
else Ok []
| None => Ok []
end.

Definition _find_functions (index_source : bool) (root_node : TSNode)
: result (list pyval) :=
let all_captures := execute_query ts (ELIXIR_QUERIES "functions") root_node in
let captures_by_func :=
seed (String.eqb "func_def") (fun n _ => mk_func_data n None None None)
 all_captures in
let captures_by_func := attach fd_node func_update all_captures captures_by_func in
collect (fun e => func_entry index_source (snd e)) captures_by_func.

(** *** [_find_classes] *)

Record class_data := mk_class_data {
cd_node : TSNode;
cd_name : option string;
cd_kind : string
}.

(** The inner loop of [_find_classes] stops at the first record that
contains the capture. *)
Fixpoint set_first_within (node : TSNode) (d : list (nat * class_data))
: list (nat * class_data) :=
match d with
| [] => []
| (k, r) :: d' =>
if within node (cd_node r)
then (k, mk_class_data (cd_node r) (Some (_get_node_text node)) (cd_kind r)) :: d'
else (k, r) :: set_first_within node d'
end.

Definition class_entry (index_source : bool) (r : class_data) : list pyval :=
match cd_name r with
| Some name =>
if PyStr.truthy name then
let class_node := cd_node r in
let kind := if String.eqb (cd_kind r) "proto_def" then "protocol" else "module" in
[PDict ([("name", PStr name);
         ("line_number", line_of class_node);
         ("end_line", end_line_of class_node);
         ("bases", PList []);
         ("context", opt_str (context_of class_node));
         ("context_type", opt_str (context_type_of class_node));
         ("kind", PStr kind);
         ("decorators", PList []);
         ("lang", PStr language_name);
         ("is_dependency", PBool false)]
        ++ source_keys index_source class_node
             (Some (_get_docstring class_node)))]
else []
| None => []
end.

Definition _find_classes (index_source : bool) (root_node : TSNode) : list pyval :=
let all_captures := execute_query ts (ELIXIR_QUERIES "classes") root_node in
let captures_by_class :=
seed (fun c => str_in c ["module_def"; "proto_def"])
 (fun n c => mk_class_data n None c) all_captures in
let captures_by_class :=
fold_left (fun d c => if str_in (snd c) ["module_name"; "proto_name"]
                  then set_first_within (fst c) d else d)
      all_captures captures_by_class in
flat_map (fun e => class_entry index_source (snd e)) captures_by_class.

(** *** [_find_imports] *)

Record import_data := mk_import_data {
id_node : TSNode;
id_import_type : option string;
id_import_args : option string
}.

Definition import_update (capture_name text : string) (r : import_data) : import_data :=
if String.eqb capture_name "import_type"
then mk_import_data (id_node r) (Some text) (id_import_args r)
else if String.eqb capture_name "import_args"
then mk_import_data (id_node r) (id_import_type r) (Some text)
else r.

Definition import_entry (r : import_data) : list pyval :=
match id_import_type r, id_import_args r with
| Some import_type, Some import_args =>
if PyStr.truthy import_type && PyStr.truthy import_args then
let import_node := id_node r in
let full_text := _get_node_text import_node in
let raw_args := PyStr.strip_chars "()" (PyStr.strip import_args) in
let parts := _parse_arguments raw_args in
let module_name := match parts with p :: _ => p | [] => raw_args end in
[PDict [("name", PStr module_name);
        ("full_import_name", PStr full_text);
        ("import_type", PStr import_type);
        ("line_number", line_of import_node);
        ("alias", PNone);
        ("lang", PStr language_name);
        ("is_dependency", PBool false)]]
else []
| _, _ => []
end.

Definition _find_imports (root_node : TSNode) : list pyval :=
let all_captures := execute_query ts (ELIXIR_QUERIES "imports") root_node in
let captures_by_import :=
seed (String.eqb "import_def") (fun n _ => mk_import_data n None None)
 all_captures in
let captures_by_import := attach id_node import_update all_captures captures_by_import in
flat_map (fun e => import_entry (snd e)) captures_by_import.

(** *** [_find_calls] *)

Record call_data := mk_call_data {
cl_node : TSNode;
cl_receiver : option string;
cl_method : option string;
cl_args : list string
}.

Definition call_update (capture_name text : string) (r : call_data) : call_data :=
if String.eqb capture_name "receiver"
then mk_call_data (cl_node r) (Some text) (cl_method r) (cl_args r)
else if String.eqb capture_name "method"
then mk_call_data (cl_node r) (cl_receiver r) (Some text) (cl_args r)
else if String.eqb capture_name "call_args"
then mk_call_data (cl_node r) (cl_receiver r) (cl_method r) (_parse_arguments text)
else r.

Definition call_entry (r : call_data) : list pyval :=
match cl_method r with
| Some method =>
if PyStr.truthy method then
let call_node := cl_node r in
let receiver := or_else (cl_receiver r) "" in
let full_name :=
  if PyStr.truthy receiver
  then String.append receiver (String.append "." method) else method in
let ctx := _get_parent_context call_node default_types in
let context_name := option_map (fun r => fst (fst r)) ctx in
let context_type := option_map (fun r => snd (fst r)) ctx in
let context_line := option_map snd ctx in
let class_context :=
  match context_type with
  | Some t =>
      if str_in t ["def"; "defp"] then context_of call_node
      else if String.eqb t "defmodule" then context_name else None
  | None => None
  end in
[PDict [("name", PStr method);
        ("full_name", PStr full_name);
        ("line_number", line_of call_node);
        ("args", PList (map PStr (cl_args r)));
        ("inferred_obj_type", PNone);
        ("context", PTuple [opt_str context_name; opt_str context_type;
                            opt_int context_line]);
        ("class_context", opt_str class_context);
        ("lang", PStr language_name);
        ("is_dependency", PBool false)]]
else []
| None => []
end.

Definition _find_calls (root_node : TSNode) : list pyval :=
let all_captures := execute_query ts (ELIXIR_QUERIES "calls") root_node in
let captures_by_call :=
seed (String.eqb "call_node") (fun n _ => mk_call_data n None None [])
 all_captures in
let captures_by_call := attach cl_node call_update all_captures captures_by_call in
flat_map (fun e => call_entry (snd e)) captures_by_call.

(** *** [_find_variables] *)

Record attr_data := mk_attr_data {
ad_node : TSNode;
ad_name : option string;
ad_value : option string
}.

Definition attr_update (capture_name text : string) (r : attr_data) : attr_data :=
if String.eqb capture_name "attr_name"
then mk_attr_data (ad_node r) (Some text) (ad_value r)
else if String.eqb capture_name "attr_value"
then mk_attr_data (ad_node r) (ad_name r) (Some text)
else r.

Definition attr_entry (r : attr_data) : list pyval :=
match ad_name r with
| Some name =>
if PyStr.truthy name then
let context := context_of (ad_node r) in
[PDict [("name", PStr (String.append "@" name));
        ("line_number", line_of (ad_node r));
        ("value", opt_str (ad_value r));
        ("type", PStr "module_attribute");
        ("context", opt_str context);
        ("class_context", opt_str context);
        ("lang", PStr language_name);
        ("is_dependency", PBool false)]]
else []
| None => []
end.

Definition _find_variables (root_node : TSNode) : list pyval :=
let all_captures := execute_query ts (ELIXIR_QUERIES "variables") root_node in
let captures_by_attr :=
seed (String.eqb "module_attr") (fun n _ => mk_attr_data n None None)
 all_captures in
let captures_by_attr := attach ad_node attr_update all_captures captures_by_attr in
flat_map (fun e => attr_entry (snd e)) captures_by_attr.

(** *** [_find_macros] *)

Record macro_data := mk_macro_data {
md_node : TSNode;
md_name : option string;
md_args : option string
}.

Definition macro_update (capture_name text : string) (r : macro_data) : macro_data :=
if String.eqb capture_name "macro_name"
then mk_macro_data (md_node r) (Some text) (md_args r)
else if String.eqb capture_name "macro_args"
then mk_macro_data (md_node r) (md_name r) (Some text)
else r.

Definition macro_entry (index_source : bool) (r : macro_data) : list pyval :=
match md_name r with
| Some name =>
if PyStr.truthy name then
let macro_node := md_node r in
let args := _parse_arguments (or_else (md_args r) "") in
[PDict ([("name", PStr name);
         ("line_number", line_of macro_node);
         ("end_line", end_line_of macro_node);
         ("args", PList (map PStr args));
         ("context", opt_str (context_of macro_node));
         ("lang", PStr language_name);
         ("is_dependency", PBool false)]
        ++ source_keys index_source macro_node
             (Some (_get_docstring macro_node)))]
else []
| None => []
end.

Definition _find_macros (index_source : bool) (root_node : TSNode) : list pyval :=
let all_captures := execute_query ts (ELIXIR_QUERIES "macros") root_node in
let captures_by_macro :=
seed (String.eqb "macro_def") (fun n _ => mk_macro_data n None None)
 all_captures in
let captures_by_macro := attach md_node macro_update all_captures captures_by_macro in
flat_map (fun e => macro_entry index_source (snd e)) captures_by_macro.

(** *** [parse] *)

Definition parse (fs : file_system) (path : string)
(is_dependency index_source : bool) : result pyval :=
match read_source fs path with
| Raise e => Raise e
| Ok source_code =>
let root_node := parser_parse ts (utf8_encode source_code) in
functions <- _find_functions index_source root_node ;;
let classes := _find_classes index_source root_node in
let imports := _find_imports root_node in
let function_calls := _find_calls root_node in
let variables := _find_variables root_node in
let macros := _find_macros index_source root_node in
Ok (PDict [("path", PStr path);
         ("functions", PList functions);
         ("classes", PList classes);
         ("variables", PList variables);
         ("imports", PList imports);
         ("function_calls", PList function_calls);
         ("macros", PList macros);
         ("is_dependency", PBool is_dependency);
         ("lang", PStr language_name)])
end.

End Parser.
End Elixir.

(** ** [languages/heex.py] *)

Module Heex.
Import PyFile.

Definition language_name : string := "heex".

Definition HEEX_QUERIES (key : string) : string := key.

Definition _get_node_text (node : TSNode) : string := ts_text node.

(** [s.rsplit(sep, 1)[0]] when [sep] occurs in [s]. *)
Fixpoint rsplit_head (sep : ascii) (s : string) : option string :=
match s with
| EmptyString => None
| String c s' =>
  match rsplit_head sep s' with
  | Some h => Some (String c h)
  | None => if Ascii.eqb c sep then Some EmptyString else None
  end
end.

(** The name of a component, tag or slot: in the first child of one of
the types [starts], the first child of type [name_type]. *)
Definition name_of (starts : list string) (name_type : string) (node : TSNode)
: option string :=
match find (fun child => str_in (ts_type child) starts) (children node) with
| Some child => option_map _get_node_text (first_of_type name_type (children child))
| None => None
end.

Definition named_entry (index_source : bool) (starts : list string)
(name_type : string) (node : TSNode) : list pyval :=
match name_of starts name_type node with
| Some name =>
  if PyStr.truthy name then
    [PDict ([("name", PStr name);
             ("line_number", PInt (start_row node + 1));
             ("end_line", PInt (end_row node + 1));
             ("lang", PStr language_name);
             ("is_dependency", PBool false)]
            ++ if index_source then [("source", PStr (_get_node_text node))] else [])]
  else []
| None => []
end.

Section Parser.
Context (ts : TreeSitter).

Definition captured (query cap : string) (root_node : TSNode) : list TSNode :=
map fst (filter (fun c => String.eqb (snd c) cap)
          (execute_query ts (HEEX_QUERIES query) root_node)).

Definition _find_components (index_source : bool) (root_node : TSNode) : list pyval :=
flat_map (named_entry index_source ["start_component"; "self_closing_component"]
                "component_name")
   (captured "components" "component" root_node).

Definition _find_tags (index_source : bool) (root_node : TSNode) : list pyval :=
flat_map (named_entry index_source ["start_tag"] "tag_name")
   (captured "tags" "tag" root_node).

Definition _find_slots (index_source : bool) (root_node : TSNode) : list pyval :=
flat_map (named_entry index_source ["start_slot"] "slot_name")
   (captured "slots" "slot" root_node).

Definition directive_entry (node : TSNode) : pyval :=
PDict [("name", PStr (PyStr.strip (_get_node_text node)));
 ("line_number", PInt (start_row node + 1));
 ("end_line", PInt (end_row node + 1));
 ("lang", PStr language_name);
 ("is_dependency", PBool false)].

Definition _find_directives (root_node : TSNode) : list pyval :=
map directive_entry (captured "directives" "directive" root_node).

(** The loop of [_find_imports] with its two variables [seen] and
[imports]. *)
Definition import_step (st : list string * list pyval) (node : TSNode)
: list string * list pyval :=
let '(seen, imports) := st in
let comp_text := _get_node_text node in
if PyStr.contains comp_text "." && negb (PyStr.startswith comp_text ".") then
match rsplit_head "."%char comp_text with
| Some module_name =>
if str_in module_name seen then st
else (module_name :: seen,
      app imports [PDict [("name", PStr module_name);
                          ("full_import_name", PStr comp_text);
                          ("line_number", PInt (start_row node + 1));
                          ("alias", PNone);
                          ("lang", PStr language_name);
                          ("is_dependency", PBool false)]])
| None => st
end
else st.

Definition _find_imports (root_node : TSNode) : list pyval :=
snd (fold_left import_step (captured "component_names" "comp_name" root_node)
         ([], [])).

(** [tags] and [slots] are computed and not returned. *)
Definition parse (fs : file_system) (path : string)
(is_dependency index_source : bool) : result pyval :=
match read_source fs path with
| Raise e => Raise e
| Ok source_code =>
let root_node := parser_parse ts (utf8_encode source_code) in
let components := _find_components index_source root_node in
let tags := _find_tags index_source root_node in
let directives := _find_directives root_node in
let slots := _find_slots index_source root_node in
let imports := _find_imports root_node in
Ok (PDict [("path", PStr path);
         ("functions", PList components);
         ("classes", PList []);
         ("variables", PList directives);
         ("imports", PList imports);
         ("function_calls", PList []);
         ("is_dependency", PBool is_dependency);
         ("lang", PStr language_name)])
end.

End Parser.
End Heex.

(** ** Notions used in the statements *)

(** The keys of a structural record that hold lists of entries. *)
Definition entry_keys : list string :=
  ["functions"; "classes"; "variables"; "imports"; "function_calls"; "macros"].

Definition list_at (key : string) (r : pyval) : list pyval :=
  match get_item key r with
  | Some (PList l) => l
  | _ => []
  end.

(** All entries of a structural record. *)
Definition entries_of (r : pyval) : list pyval :=
  flat_map (fun key => list_at key r) entry_keys.

Definition is_bool (b : bool) (v : option pyval) : bool :=
  match v with
  | Some (PBool b') => Bool.eqb b b'
  | _ => false
  end.

(** Every entry of the record carries [is_dependency = dep]. *)
Definition entries_marked (dep : bool) (r : pyval) : bool :=
  forallb (fun e => is_bool dep (get_item "is_dependency" e)) (entries_of r).

(** An entry as the parsers write it: the parser's tag, and
    [is_dependency] false. *)
Definition tagged (lang : string) (e : pyval) : Prop :=
  get_item "lang" e = Some (PStr lang)
  /\ get_item "is_dependency" e = Some (PBool false).

(** The bytes of a file as the decoder goes through them: a code point for
    every valid sequence, a mark for every range of bytes that is not
    valid. *)
Definition kept (marks : list (option N)) : list N :=
  flat_map (fun m => match m with Some c => [c] | None => [] end) marks.

Definition replaced (marks : list (option N)) : list N :=
  map (fun m => match m with Some c => c | None => 65533%N end) marks.

Definition all_valid (marks : list (option N)) : bool :=
  forallb (fun m => match m with Some _ => true | None => false end) marks.

(** What each error handler makes of the marks: [Strict] fails at the
    first one, [Ignore] drops them, [Replace] puts U+FFFD for each. *)
Definition handled (h : PyFile.error_handler) (marks : list (option N))
    : option (list N) :=
  match h with
  | PyFile.Strict => if all_valid marks then Some (kept marks) else None
  | PyFile.Ignore => Some (kept marks)
  | PyFile.Replace => Some (replaced marks)
  end.

(** What [traverse] counts at a node and below it when it returns. *)
Definition point_here (n : TSNode) : Z :=
  if str_in (ts_type n) Elixir.complexity_keywords then 1
  else if String.eqb (ts_type n) "identifier" then
    if str_in (ts_text n) Elixir.complexity_keywords then 1 else 0
  else if String.eqb (ts_type n) "binary_operator" then
    if existsb (PyStr.contains (ts_text n)) Elixir.complexity_operators then 1 else 0
  else 0.

Fixpoint decision_points (n : TSNode) : Z :=
  match n with
  | mk_ts _ _ _ _ _ _ _ cs _ _ =>
      point_here n
      + (fix points_all (l : list TSNode) : Z :=
           match l with
           | [] => 0
           | c :: l' => decision_points c + points_all l'
           end) cs
  end.

(** [traverse] reads the text of a node that is an identifier or a binary
    operator, unless its type is itself one of the keywords. *)
Definition reads_text (n : TSNode) : bool :=
  negb (str_in (ts_type n) Elixir.complexity_keywords)
  && (String.eqb (ts_type n) "identifier" || String.eqb (ts_type n) "binary_operator").

(** How deep the calls of [traverse(n)] nest: one call for the node, and
    below it the deepest of the calls for its children and of the call that
    reads its text. *)
Fixpoint frames_needed (n : TSNode) : nat :=
  match n with
  | mk_ts _ _ _ _ _ _ _ cs _ _ =>
      S (Nat.max (if reads_text n then 1 else 0)
                 ((fix needed_all (l : list TSNode) : nat :=
                     match l with
                     | [] => O
                     | c :: l' => Nat.max (frames_needed c) (needed_all l')
                     end) cs))
  end.

(** [captures_by_func] after the two loops of [_find_functions]. *)
Definition functions_data (ts : TreeSitter) (root_node : TSNode)
    : list (nat * Elixir.func_data) :=
  let all_captures := execute_query ts (Elixir.ELIXIR_QUERIES "functions") root_node in
  Elixir.attach Elixir.fd_node Elixir.func_update all_captures
    (Elixir.seed (String.eqb "func_def")
                 (fun n _ => Elixir.mk_func_data n None None None) all_captures).

(** A record has a name when the name was captured and is not empty. *)
Definition named (o : option string) : bool :=
  match o with
  | Some s => PyStr.truthy s
  | None => false
  end.

(** The complexity of a function can be computed with [frames] nested
    calls: only the functions that have a name are looked at. *)
Definition fits (frames : nat) (r : Elixir.func_data) : bool :=
  negb (named (Elixir.fd_name r))
  || (frames_needed (Elixir.fd_node r) <=? frames)%nat.

(** What [_find_functions] appends for a record when the complexity can be
    computed. *)
Definition func_entries (index_source : bool) (r : Elixir.func_data) : list pyval :=
  match Elixir.fd_name r with
  | Some name =>
      if PyStr.truthy name
      then [Elixir.func_record index_source name r
              (1 + decision_points (Elixir.fd_node r))]
      else []
  | None => []
  end.

(** *** Sample inputs *)

Module Sample.

(** [def hello(name) do ... end] on rows 1 to 3 of [lib/a.ex]. *)
Definition leaf (i : nat) (ty text : string) (b e : Z) : TSNode :=
mk_ts i ty text b e 1 1 [] None None.

Definition def_node : TSNode :=
mk_ts 1 "call" "def hello(name) do :ok end" 22 48 1 3 [] None None.

Definition captures : list (TSNode * string) :=
[(def_node, "func_def");
(leaf 2 "identifier" "def" 22 25, "def_type");
(leaf 3 "identifier" "hello" 26 31, "func_name");
(leaf 4 "arguments" "(name)" 31 37, "func_args")].

Definition tree_sitter : TreeSitter :=
mk_tree_sitter
(fun _ => mk_ts 0 "source" "" 0 52 0 4 [] None None)
(fun query _ => if String.eqb query "functions" then captures else []).

(** The nested calls that the interpreter allows. *)
Definition frames : nat := 1000.

Fixpoint chain (depth : nat) : TSNode :=
match depth with
| O => mk_ts 9 "identifier" "x" 0 1 1 1 [] None None
| S d => mk_ts 8 "binary_operator" "x + x" 0 5 1 1
               [chain d; mk_ts 9 "identifier" "x" 4 5 1 1 [] None None] None None
end.

(** [def f(x) do x + x + ... end] with ten operators. *)
Definition deep_def : TSNode :=
mk_ts 1 "call" "def f(x) do x + x end" 0 21 1 1 [chain 10] None None.

Definition deep_tree_sitter : TreeSitter :=
mk_tree_sitter
(fun _ => mk_ts 0 "source" "" 0 21 0 1 [] None None)
(fun query _ =>
   if String.eqb query "functions"
   then [(deep_def, "func_def");
         (mk_ts 3 "identifier" "f" 4 5 1 1 [] None None, "func_name")]
   else []).

(** A file whose second byte is not valid UTF-8. *)
Definition files : PyFile.file_system :=
fun path => if String.eqb path "lib/a.ex"
          then Some [Byte.x61; Byte.xff; Byte.x62] else None.

End Sample.

(** *** Notions about graphs *)

Module GraphNotions.
Import Graph.

(** A relationship of type [t] joins the row [r]. *)
Definition has_edge (t : string) (g : graph) (r : nat * nat) : bool :=
existsb (edge_is (fst r) t (snd r)) (edges g).

(** The nodes bound by a pattern, with their properties. *)
Definition bound (q : node -> bool) (g : graph) : list (nat * node) :=
filter (fun e => q (snd e)) (nodes g).

(** A node with the label [File], [Directory] or [Repository] has no
other label. *)
Definition structural_labels : list string := ["File"; "Directory"; "Repository"].

Definition apart (n : node) : Prop :=
forall l, In l structural_labels -> has_label l n = true -> labels n = [l].

Definition structural_apart (g : graph) : Prop :=
Forall (fun e => apart (snd e)) (nodes g).

(** A relationship after [SET r.scip_verified = true]. *)
Definition verified (e : edge) : edge :=
mk_edge (src e) (rel_type e) (dst e) (Some true).

(** No node of the graph has a local symbol. *)
Definition no_local_nodes (is_local_node : node -> bool) (g : graph) : bool :=
forallb (fun e => negb (is_local_node (snd e))) (nodes g).

(** No relationship of [g] starts or ends at one of the nodes [ids]. *)
Definition touches (ids : list nat) (e : edge) : bool :=
existsb (Nat.eqb (src e)) ids || existsb (Nat.eqb (dst e)) ids.

Definition no_edge_at (ids : list nat) (g : graph) : bool :=
forallb (fun e => negb (touches ids e)) (edges g).

End GraphNotions.

(** *** Sample inputs of the indexer *)

Module SampleIndex.
Import Graph Scip.

Definition outer : Func := mk_func "outer" 1 20.
Definition inner : Func := mk_func "inner" 5 10.

Definition env : Env :=
mk_env "/repo" (PyPath.join "/repo") (fun _ => Some [outer; inner]).

(** Two definitions, a reference on line 7 and a local reference. *)
Definition doc : Document :=
mk_doc "pkg/m.py"
[mk_occ 0 4 [9] "pkg/outer()." 1;
 mk_occ 4 8 [13] "pkg/inner()." 1;
 mk_occ 6 12 [15] "pkg/helper()." 0;
 mk_occ 7 12 [13] "local 3" 0]
[].

Definition outside : Document :=
mk_doc "../site-packages/lib.py" [mk_occ 0 4 [7] "lib/f()." 1] [].

Definition index : Index := mk_index [doc; outside] [].

Definition repository : graph :=
mk_graph [(O, mk_node ["Repository"] (Some "/repo") None None None None)] [].

Definition reference : Occurrence := mk_occ 6 12 [15] "pkg/helper()." 0.

(** A graph in which a node is both a file and a function. *)
Definition mixed : graph :=
mk_graph [(O, mk_node ["File"; "Function"] (Some "/elsewhere") None None
              (Some "pkg/outer().") None)] [].

End SampleIndex.

(** *** Notions about re-ingestion *)

Module Reingest.
Import Graph GraphNotions Scip.

(** The labels that [definition_label] and [target_label] can return. *)
Definition symbol_labels : list string :=
  ["Symbol"; "Class"; "Function"; "Variable"; "Interface"; "Struct"; "Enum"; "Module"].

(** [g'] has the structural nodes of [g], unchanged, and its
    relationships; the directories at the path [but] are left out. *)
Definition struct_ext (but : option string) (g g' : graph) : Prop :=
  (forall l p, In l structural_labels -> (but = Some p -> l <> "Directory") ->
               bound (is_labelled_at l p) g' = bound (is_labelled_at l p) g)
  /\ (forall t r, has_edge t g r = true -> has_edge t g' r = true).

(** One turn of the directory loop: parent label, parent path, path and
    name of the directory. *)
Record dir_step := mk_dir_step {
  ds_parent_label : string;
  ds_parent_path : string;
  ds_path : string;
  ds_part : string
}.

Fixpoint dir_chain (dir_parts : list string) (parent_path parent_label : string)
    : list dir_step :=
  match dir_parts with
  | [] => []
  | part :: dir_parts' =>
      let current_abs_path := PyPath.join parent_path part in
      mk_dir_step parent_label parent_path current_abs_path part
      :: dir_chain dir_parts' current_abs_path "Directory"
  end.

(** The parent of the file after the loop. *)
Fixpoint last_parent (dir_parts : list string) (parent_path parent_label : string)
    : string * string :=
  match dir_parts with
  | [] => (parent_label, parent_path)
  | part :: dir_parts' => last_parent dir_parts' (PyPath.join parent_path part) "Directory"
  end.

Definition run_dir_step (g : graph) (s : dir_step) : graph :=
  directory_query (ds_parent_label s) (ds_parent_path s) (ds_path s) (ds_part s) g.

(** A later turn [s'] of the loop neither writes the directory of [s] nor
    creates its parent. *)
Definition later_ok (s s' : dir_step) : Prop :=
  ds_path s' <> ds_path s
  /\ (ds_parent_label s = "Directory" -> ds_path s' <> ds_parent_path s).

(** A turn of the loop does not create its own parent. *)
Definition self_ok (s : dir_step) : Prop :=
  ds_parent_label s = "Directory" -> ds_path s <> ds_parent_path s.

Definition chain_ok (c : list dir_step) : Prop :=
  ForallOrdPairs later_ok c
  /\ Forall self_ok c
  /\ Forall (fun s => In (ds_parent_label s) structural_labels) c.

(** A path component that extends a path. *)
Definition plain (c : string) : Prop :=
  PyStr.truthy c = true /\ PyStr.startswith c "/" = false.

(** The queries have nothing left to do. *)
Definition file_done (p rel nm : string) (g : graph) : Prop :=
  match_ids (is_file p) g <> []
  /\ Forall (fun e => relative_path (snd e) = Some rel /\ name (snd e) = Some nm)
            (bound (is_file p) g).

Definition dir_done (g : graph) (s : dir_step) : Prop :=
  match_ids (is_labelled_at (ds_parent_label s) (ds_parent_path s)) g = []
  \/ (match_ids (is_labelled_at "Directory" (ds_path s)) g <> []
      /\ Forall (fun e => name (snd e) = Some (ds_part s))
                (bound (is_labelled_at "Directory" (ds_path s)) g)
      /\ Forall (fun r => has_edge "CONTAINS" g r = true)
                (rows (match_ids (is_labelled_at (ds_parent_label s) (ds_parent_path s)) g)
                      (match_ids (is_labelled_at "Directory" (ds_path s)) g))).

Definition link_done (pl pp fp : string) (g : graph) : Prop :=
  Forall (fun r => has_edge "CONTAINS" g r = true)
         (rows (match_ids (is_labelled_at pl pp) g) (match_ids (is_file fp) g)).

Definition hierarchy_done (dir_parts : list string) (pp pl fp : string) (g : graph) : Prop :=
  Forall (dir_done g) (dir_chain dir_parts pp pl)
  /\ link_done (fst (last_parent dir_parts pp pl)) (snd (last_parent dir_parts pp pl)) fp g.

(** A definition that is written: label, symbol, name and line. *)
Record def_step := mk_def_step {
  df_label : string;
  df_symbol : string;
  df_name : string;
  df_line : Z
}.

Definition def_step_of (symbol_map : gmap string SymbolInformation) (occ : Occurrence)
    : def_step :=
  mk_def_step (definition_label symbol_map (symbol occ)) (symbol occ)
              (_extract_name (symbol occ) (symbol_map !! symbol occ))
              (start_line occ + 1).

Definition run_def_step (fp : string) (g : graph) (d : def_step) : graph :=
  definition_query (df_label d) fp (df_symbol d) (df_name d) (df_line d) g.

(** [SET n.name = ..., n.path = ..., n.line_number = ...] on one node. *)
Definition set_def (fp : string) (d : def_step) (n : node) : node :=
  mk_node (labels n) (Some fp) (relative_path n) (Some (df_name d))
          (scip_symbol n) (Some (df_line d)).

Definition cond_set (fp : string) (n : node) (d : def_step) : node :=
  if has_symbol (df_label d) (df_symbol d) n then set_def fp d n else n.

(** What a sequence of definitions does to a node that exists. *)
Definition apply_all (fp : string) (ds : list def_step) (n : node) : node :=
  fold_left (cond_set fp) ds n.

Definition node_map (f : node -> node) (g : graph) : graph :=
  mk_graph (map (fun e => (fst e, f (snd e))) (nodes g)) (edges g).

(** The node of a definition is there, with the relationship from the file. *)
Definition def_exists (fp : string) (g : graph) (d : def_step) : Prop :=
  match_ids (has_symbol (df_label d) (df_symbol d)) g <> []
  /\ Forall (fun r => has_edge "CONTAINS" g r = true)
            (rows (match_ids (is_file fp) g)
                  (match_ids (has_symbol (df_label d) (df_symbol d)) g)).

Definition defs_done (fp : string) (ds : list def_step) (g : graph) : Prop :=
  Forall (def_exists fp g) ds
  /\ Forall (fun e => apply_all fp ds (snd e) = snd e) (nodes g).

(** [g'] binds the same nodes as [g] to every symbol that [g] knows. *)
Definition sym_ext (g g' : graph) : Prop :=
  forall l s, match_ids (has_symbol l s) g <> [] ->
              match_ids (has_symbol l s) g' = match_ids (has_symbol l s) g.

(** The definitions that reach a query. *)
Definition def_steps (symbol_map : gmap string SymbolInformation)
    (defs : list Occurrence) : list def_step :=
  map (def_step_of symbol_map) (filter (fun occ => negb (is_local (symbol occ))) defs).

(** A relationship that is upserted: the chosen function and the target. *)
Record ref_step := mk_ref_step {
  rf_caller : Func;
  rf_label : string;
  rf_symbol : string;
  rf_name : string
}.

Definition run_ref_step (fp : string) (g : graph) (r : ref_step) : graph :=
  let '(created, g1) :=
    calls_query (caller_by_name fp (func_name (rf_caller r)))
                (rf_label r) (rf_symbol r) (rf_name r) g in
  if created =? 0 then
    snd (calls_query (caller_by_line fp (func_line_number (rf_caller r)))
                     (rf_label r) (rf_symbol r) (rf_name r) g1)
  else g1.

(** The callers that the upsert binds in [g]. *)
Definition callers_of (fp : string) (r : ref_step) (g : graph) : list nat :=
  match match_ids (caller_by_name fp (func_name (rf_caller r))) g with
  | [] => match_ids (caller_by_line fp (func_line_number (rf_caller r))) g
  | cs => cs
  end.

Definition ref_done (fp : string) (g : graph) (r : ref_step) : Prop :=
  callers_of fp r g = []
  \/ (match_ids (has_symbol (rf_label r) (rf_symbol r)) g <> []
      /\ Forall (fun rw => has_edge "CALLS" g rw = true)
                (rows (callers_of fp r g)
                      (match_ids (has_symbol (rf_label r) (rf_symbol r)) g))
      /\ Forall (fun e => edge_in "CALLS"
                            (rows (callers_of fp r g)
                                  (match_ids (has_symbol (rf_label r) (rf_symbol r)) g)) e
                          = true -> scip_verified e = Some true)
                (edges g)).

(** The references that reach a query, with the function they are
    attributed to. *)
Definition ref_steps (symbol_map : gmap string SymbolInformation)
    (functions : list Func) (refs : list Occurrence) : list ref_step :=
  flat_map (fun ref =>
              if is_local (symbol ref) then []
              else match find_caller functions (start_line ref + 1) with
                   | Some caller =>
                       [mk_ref_step caller (target_label symbol_map (symbol ref))
                                    (symbol ref)
                                    (_extract_name (symbol ref) (symbol_map !! symbol ref))]
                   | None => []
                   end) refs.

(** [g'] has the relationships of [g], possibly verified; every other
    relationship of [g'] that is a [CALLS] is verified. *)
Definition edges_ext (g g' : graph) : Prop :=
  (forall t r, has_edge t g r = true -> has_edge t g' r = true)
  /\ Forall (fun e' => (exists e, In e (edges g) /\ (e' = e \/ e' = verified e))
                       \/ rel_type e' <> "CALLS" \/ scip_verified e' = Some true)
            (edges g').

(** The relationships that the references of a document upsert. *)
Definition document_refs (env : Env) (symbol_map : gmap string SymbolInformation)
    (doc : Document) : list ref_step :=
  match ts_parse env (doc_relative_path doc) with
  | Some (f :: fs) => ref_steps symbol_map (f :: fs) (references_of doc)
  | _ => []
  end.

(** Nothing is left to do for a document. *)
Definition document_done (env : Env) (symbol_map : gmap string SymbolInformation)
    (doc : Document) (g : graph) : Prop :=
  let fp := resolve env (doc_relative_path doc) in
  file_done fp (doc_relative_path doc) (PyPath.basename fp) g
  /\ hierarchy_done (removelast (PyPath.parts (doc_relative_path doc)))
                    (repo_path_str env) "Repository" fp g
  /\ defs_done fp (def_steps symbol_map (definitions_of doc)) g
  /\ Forall (ref_done fp g) (document_refs env symbol_map doc)
  /\ structural_apart g.

End Reingest.

(** ** Notions for the further properties *)

(** *** Notions about argument lists *)

(** [a] is a contiguous part of [s]. *)
Definition occurs (a s : string) : Prop :=
  exists pre post, s = String.append pre (String.append a post).

(** The text has no parenthesis, bracket or brace. *)
Definition delimiter_free (s : string) : bool :=
  forallb (fun c => negb (is_open c || is_close c)) (list_ascii_of_string s).

(** The pieces of a split when [current] was read before them. *)
Definition pieces_from (current : string) (l : list string) : list string :=
  match l with
  | p :: ps => String.append current p :: ps
  | [] => [current]
  end.

(** *** Notions about syntax trees *)

(** The chain [node.parent], [node.parent.parent], ... *)
Fixpoint self_and_ancestors (curr : TSNode) : list TSNode :=
  curr :: match curr with
          | mk_ts _ _ _ _ _ _ _ _ (Some p) _ => self_and_ancestors p
          | mk_ts _ _ _ _ _ _ _ _ None _ => []
          end.

Definition ancestors (node : TSNode) : list TSNode :=
  match parent node with
  | Some p => self_and_ancestors p
  | None => []
  end.

(** The number of nodes of a subtree. *)
Fixpoint tree_size (n : TSNode) : Z :=
  match n with
  | mk_ts _ _ _ _ _ _ _ cs _ _ =>
      1 + (fix size_all (l : list TSNode) : Z :=
             match l with
             | [] => 0
             | c :: l' => tree_size c + size_all l'
             end) cs
  end.

Module SampleTree.

(** [defmodule M do ... def f(x) ... end]: the module, and a call node
    inside it that has a comment before it. *)
Definition module_node : TSNode :=
  mk_ts 1 "call" "defmodule M do end" 0 18 0 2
        [mk_ts 2 "identifier" "defmodule" 0 9 0 0 [] None None;
         mk_ts 3 "arguments" "M" 10 11 0 0
               [mk_ts 4 "alias" "M" 10 11 0 0 [] None None] None None]
        None None.

Definition comment_node : TSNode :=
  mk_ts 5 "comment" "# greets  " 14 24 1 1 [] (Some module_node) None.

Definition inner_node : TSNode :=
  mk_ts 6 "call" "IO.puts(x)" 25 35 2 2
        [mk_ts 7 "binary_operator" "a && b" 25 31 2 2 [] None None]
        (Some module_node) (Some comment_node).

End SampleTree.

(** The context when it is a module. *)
Definition only_module (r : option (string * string * Z)) : option (string * string * Z) :=
  match r with
  | Some (name, ident, line) =>
      if String.eqb ident "defmodule" then Some (name, ident, line) else None
  | None => None
  end.

(** How a docstring begins. *)
Definition docstring_start (d : string) : bool :=
  PyStr.startswith d "@doc" || PyStr.startswith d "@moduledoc" || PyStr.startswith d "#".

(** *** Notions about captures *)

(** The text of the last capture named [cap_name] that lies within the
    byte range of [outer]. *)
Definition last_text (cap_name : string) (outer : TSNode)
    (all_captures : list (TSNode * string)) : option string :=
  fold_left (fun acc c =>
               if String.eqb (snd c) cap_name && within (fst c) outer
               then Some (ts_text (fst c)) else acc)
            all_captures None.

(** [captures_by_class] after the two loops of [_find_classes]. *)
Definition classes_data (ts : TreeSitter) (root_node : TSNode)
    : list (nat * Elixir.class_data) :=
  let all_captures := execute_query ts (Elixir.ELIXIR_QUERIES "classes") root_node in
  fold_left (fun d c => if str_in (snd c) ["module_name"; "proto_name"]
                        then Elixir.set_first_within (fst c) d else d)
            all_captures
            (Elixir.seed (fun c => str_in c ["module_def"; "proto_def"])
                         (fun n c => Elixir.mk_class_data n None c) all_captures).

(** A record whose node lies within one of the nodes [before], or within
    the node of a record before it in the table, has no name. *)
Fixpoint unnamed_if_nested (before : list TSNode) (d : list (nat * Elixir.class_data))
    : Prop :=
  match d with
  | [] => True
  | e :: d' =>
      (existsb (within (Elixir.cd_node (snd e))) before = true
       -> Elixir.cd_name (snd e) = None)
      /\ unnamed_if_nested (before ++ [Elixir.cd_node (snd e)]) d'
  end.

Module SampleNested.

(** [defmodule A do defmodule B do end end] *)
Definition outer : TSNode := mk_ts 1 "call" "defmodule A do defmodule B do end end" 0 37 0 0 [] None None.
Definition outer_name : TSNode := mk_ts 2 "alias" "A" 10 11 0 0 [] None None.
Definition inner : TSNode := mk_ts 3 "call" "defmodule B do end" 15 33 0 0 [] None None.
Definition inner_name : TSNode := mk_ts 4 "alias" "B" 25 26 0 0 [] None None.

Definition tree_sitter : TreeSitter :=
  mk_tree_sitter
    (fun _ => mk_ts 0 "source" "" 0 37 0 0 [] None None)
    (fun query _ =>
       if String.eqb query "classes"
       then [(outer, "module_def"); (outer_name, "module_name");
             (inner, "module_def"); (inner_name, "module_name")]
       else []).

End SampleNested.

(** ** [pre_scan_elixir] and [pre_scan_heex]

    The map from names to file paths is a dict whose values are lists: an
    association list in insertion order. *)

(** [imports_map.get(name)] *)
Fixpoint map_get (name : string) (imports_map : list (string * list string))
    : option (list string) :=
  match imports_map with
  | [] => None
  | (k, v) :: m' => if String.eqb k name then Some v else map_get name m'
  end.

(** [if name not in imports_map: imports_map[name] = []]
    [imports_map[name].append(p)] *)
Fixpoint map_append (name p : string) (imports_map : list (string * list string))
    : list (string * list string) :=
  match imports_map with
  | [] => [(name, [p])]
  | (k, v) :: m' =>
      if String.eqb k name then (k, app v [p]) :: m'
      else (k, v) :: map_append name p m'
  end.

(** The body of [for path in files], which is the same in the two
    functions but for the query and the name of the capture.  The file is
    opened without an error handler; [except Exception] logs a warning and
    the loop goes on with the next file.  [resolve_path] is
    [str(path.resolve())]. *)
Definition pre_scan_file (ts : TreeSitter) (fs : PyFile.file_system)
    (resolve_path : string -> string) (query_str cap : string)
    (imports_map : list (string * list string)) (path : string)
    : list (string * list string) :=
  match PyFile.read_text fs PyFile.Strict path with
  | PyFile.Raise _ => imports_map
  | PyFile.Ok source =>
      let root_node := parser_parse ts (PyFile.utf8_encode source) in
      fold_left (fun m c =>
                   if String.eqb (snd c) cap
                   then map_append (ts_text (fst c)) (resolve_path path) m
                   else m)
                (execute_query ts query_str root_node) imports_map
  end.

Definition pre_scan_elixir (ts : TreeSitter) (fs : PyFile.file_system)
    (resolve_path : string -> string) (files : list string)
    : list (string * list string) :=
  fold_left (pre_scan_file ts fs resolve_path "pre_scan_elixir" "name") files [].

Definition pre_scan_heex (ts : TreeSitter) (fs : PyFile.file_system)
    (resolve_path : string -> string) (files : list string)
    : list (string * list string) :=
  fold_left (pre_scan_file ts fs resolve_path "pre_scan_heex" "comp_name") files [].

(** The paths that a scan lists under [name]: one for every capture [cap]
    of that text, file after file, in the files that can be read as
    UTF-8. *)
Definition occurrences_in (ts : TreeSitter) (fs : PyFile.file_system)
    (query_str cap name path : string) : list (TSNode * string) :=
  match PyFile.read_text fs PyFile.Strict path with
  | PyFile.Raise _ => []
  | PyFile.Ok source =>
      filter (fun c => String.eqb (snd c) cap && String.eqb (ts_text (fst c)) name)
             (execute_query ts query_str (parser_parse ts (PyFile.utf8_encode source)))
  end.

Definition listed_paths (ts : TreeSitter) (fs : PyFile.file_system)
    (resolve_path : string -> string) (query_str cap name : string)
    (files : list string) : list string :=
  flat_map (fun path => map (fun _ => resolve_path path)
                            (occurrences_in ts fs query_str cap name path)) files.

(** A dict value as [get] returns it: the list, or nothing when the key is
    missing. *)
Definition some_if_listed (l : list string) : option (list string) :=
  match l with
  | [] => None
  | _ => Some l
  end.

(** [imports_map.get(name, [])] *)
Definition listed_under (name : string) (imports_map : list (string * list string))
    : list string :=
  match map_get name imports_map with
  | Some l => l
  | None => []
  end.

(** A dict has every key once; the scan never leaves an empty list. *)
Definition scan_ok (m : list (string * list string)) : Prop :=
  NoDup (map fst m) /\ Forall (fun e => snd e <> []) m.

Module SampleScan.

Definition name_node : TSNode := mk_ts 1 "alias" "Greeter" 10 17 0 0 [] None None.

Definition tree_sitter : TreeSitter :=
  mk_tree_sitter (fun _ => mk_ts 0 "source" "" 0 20 0 0 [] None None)
                 (fun _ _ => [(name_node, "name")]).

(** Two files: [lib/a.ex] holds a byte that is not UTF-8. *)
Definition files : PyFile.file_system :=
  fun path => if String.eqb path "lib/a.ex" then Some [Byte.x61; Byte.xff; Byte.x62]
              else if String.eqb path "lib/b.ex" then Some [Byte.x61]
              else None.

End SampleScan.

(** ** [HeexTreeSitterParser._get_parent_context] *)

Module HeexContext.

Definition default_types : list string := ["component"; "tag"].

(** The name that one child of [curr] gives, if any: both inner loops
    return at the first grandchild of the type they look for. *)
Definition child_name (child : TSNode) : option string :=
  if str_in (ts_type child) ["start_component"; "self_closing_component"] then
    option_map Heex._get_node_text (first_of_type "component_name" (children child))
  else if String.eqb (ts_type child) "start_tag" then
    option_map Heex._get_node_text (first_of_type "tag_name" (children child))
  else None.

(** [for child in curr.children] *)
Fixpoint first_name (cs : list TSNode) : option string :=
  match cs with
  | [] => None
  | child :: cs' =>
      match child_name child with
      | Some name => Some name
      | None => first_name cs'
      end
  end.

(** One turn of the [while curr] loop. *)
Definition context_at (types : list string) (curr : TSNode)
    : option (string * string * Z) :=
  if str_in (ts_type curr) types then
    option_map (fun name => (name, ts_type curr, start_row curr + 1))
               (first_name (children curr))
  else None.

Fixpoint context_from (types : list string) (curr : TSNode)
    : option (string * string * Z) :=
  match context_at types curr with
  | Some r => Some r
  | None =>
      match curr with
      | mk_ts _ _ _ _ _ _ _ _ (Some p) _ => context_from types p
      | mk_ts _ _ _ _ _ _ _ _ None _ => None
      end
  end.

Definition _get_parent_context (node : TSNode) (types : list string)
    : option (string * string * Z) :=
  match parent node with
  | Some curr => context_from types curr
  | None => None
  end.

End HeexContext.

(** An import entry: a module name that is not empty, and the name of the
    component after its last dot. *)
Definition import_shape (e : pyval) : Prop :=
  exists module_name component,
    get_item "name" e = Some (PStr module_name)
    /\ get_item "full_import_name" e
       = Some (PStr (String.append module_name (String "."%char component)))
    /\ PyStr.truthy module_name = true
    /\ PyStr.mem "."%char component = false.

Definition import_state_ok (st : list string * list pyval) : Prop :=
  map (get_item "name") (snd st) = map (fun m => Some (PStr m)) (rev (fst st))
  /\ NoDup (fst st)
  /\ Forall import_shape (snd st).

Module SampleTemplate.

(** [<.card><p>...</p></.card>]: a paragraph inside a component. *)
Definition card : TSNode :=
  mk_ts 1 "component" "<.card><p>hi</p></.card>" 0 24 3 3
        [mk_ts 2 "start_component" "<.card>" 0 7 3 3
               [mk_ts 3 "component_name" ".card" 1 6 3 3 [] None None] None None]
        None None.

Definition paragraph : TSNode :=
  mk_ts 4 "tag" "<p>hi</p>" 7 16 3 3 [] (Some card) None.

End SampleTemplate.

(** ** [ScipIndexer.__init__] and [should_use_scip] *)

Module ScipConfig.

(** [value or default] on what [get_config_value] returns. *)
Definition value_or (o : option string) (d : string) : string :=
  match o with
  | Some s => if PyStr.truthy s then s else d
  | None => d
  end.

Record ScipIndexer := mk_indexer {
  method : string;
  enabled_langs : list string
}.

Definition __init__ (get_config_value : string -> option string) : ScipIndexer :=
  let method := value_or (get_config_value "INDEXING_METHOD") "tree-sitter" in
  let langs := value_or (get_config_value "SCIP_ENABLED_LANGUAGES") "python" in
  mk_indexer method (map PyStr.strip (PyStr.split_char "," langs)).

Definition should_use_scip (self : ScipIndexer) (lang : string) : bool :=
  if String.eqb (method self) "auto" then str_in lang (enabled_langs self)
  else if String.eqb (method self) "scip" then str_in lang (enabled_langs self)
  else false.

End ScipConfig.

(** The symbol descriptions of an index in the order in which
    [ingest_index] enters them in [symbol_info_map]. *)
Definition all_symbols (index : Scip.Index) : list Scip.SymbolInformation :=
  app (Scip.external_symbols index) (flat_map Scip.symbols (Scip.documents index)).

(** The last description of [sym] in a list. *)
Definition last_info (sym : string) (l : list Scip.SymbolInformation)
    : option Scip.SymbolInformation :=
  find (fun i => String.eqb (Scip.info_symbol i) sym) (rev l).

(** The characters that [_extract_name] takes as separators. *)
Definition separator_free (name : string) : Prop :=
  PyStr.mem "/"%char name = false /\ PyStr.mem "."%char name = false
  /\ PyStr.mem "#"%char name = false.

(** *** Notions about what a run writes *)

Module Writes.
Import Graph GraphNotions.

(** What identifies a node, and a relationship, in the store. *)
Definition identity (e : nat * node) : nat * list string * option string :=
  (fst e, labels (snd e), scip_symbol (snd e)).

Definition edge_key (e : edge) : nat * string * nat := (src e, rel_type e, dst e).

Definition ids (g : graph) : list nat := map fst (nodes g).

(** [g'] has the nodes and the relationships of [g], in their places, with
    their identity; what is new comes after them. *)
Definition nodes_grow (g g' : graph) : Prop :=
  exists extra, map identity (nodes g') = app (map identity (nodes g)) extra.

Definition edges_grow (g g' : graph) : Prop :=
  exists extra, map edge_key (edges g') = app (map edge_key (edges g)) extra.

(** A relationship of [g'] is one of [g], possibly a [CALLS] that is now
    verified, or a new [CONTAINS], or a new [CALLS] that is verified. *)
Definition from_old (g : graph) (e' : edge) : Prop :=
  exists e, In e (edges g) /\ (e' = e \/ (rel_type e = "CALLS" /\ e' = verified e)).

Definition fresh_ok (e' : edge) : Prop :=
  (rel_type e' = "CONTAINS" /\ scip_verified e' = None)
  \/ (rel_type e' = "CALLS" /\ scip_verified e' = Some true).

Definition written (g g' : graph) : Prop :=
  Forall (fun e' => from_old g e' \/ fresh_ok e') (edges g').

(** Every relationship joins two nodes of the graph. *)
Definition well_formed (g : graph) : Prop :=
  Forall (fun e => In (src e) (ids g) /\ In (dst e) (ids g)) (edges g).

Definition step_ok (g g' : graph) : Prop :=
  nodes_grow g g' /\ edges_grow g g' /\ written g g' /\ (well_formed g -> well_formed g').

End Writes.

(** * Properties *)

(** ** Stripping and argument splitting *)

Section ParseArguments.

Lemma rstrip_by_empty p s :
PyStr.rstrip_by p s = EmptyString -> forallb p (list_ascii_of_string s) = true.
Proof.
induction s as [|c s IH]; simpl; [reflexivity|].
destruct (PyStr.rstrip_by p s) eqn:E; [|discriminate].
destruct (p c) eqn:Ec; [|discriminate].
intros _. now rewrite IH.
Qed.

Lemma lstrip_by_head p s :
match PyStr.lstrip_by p s with
| EmptyString => True
| String c _ => p c = false
end.
Proof.
induction s as [|c s IH]; simpl; [exact I|].
destruct (p c) eqn:Ec; [exact IH|exact Ec].
Qed.

Lemma lstrip_by_empty p s :
PyStr.lstrip_by p s = EmptyString -> forallb p (list_ascii_of_string s) = true.
Proof.
induction s as [|c s IH]; simpl; [reflexivity|].
destruct (p c) eqn:Ec; [intros H; now rewrite IH|discriminate].
Qed.

(** A text that strips to nothing consists of characters to strip. *)
Lemma strip_by_empty p s :
PyStr.rstrip_by p (PyStr.lstrip_by p s) = EmptyString ->
forallb p (list_ascii_of_string s) = true.
Proof.
intros H. apply lstrip_by_empty.
pose proof (lstrip_by_head p s) as Hh.
apply rstrip_by_empty in H.
destruct (PyStr.lstrip_by p s) as [|c t]; [reflexivity|].
simpl in H. rewrite Hh in H. discriminate.
Qed.

Lemma lstrip_by_none p s :
forallb (fun c => negb (p c)) (list_ascii_of_string s) = true ->
PyStr.lstrip_by p s = s.
Proof.
destruct s as [|c s]; simpl; [reflexivity|].
destruct (p c); simpl; [discriminate|reflexivity].
Qed.

Lemma rstrip_by_none p s :
forallb (fun c => negb (p c)) (list_ascii_of_string s) = true ->
PyStr.rstrip_by p s = s.
Proof.
induction s as [|c s IH]; simpl; [reflexivity|].
intros H. apply andb_prop in H as [Hc Hs]. rewrite (IH Hs).
destruct s; [|reflexivity].
destruct (p c); [discriminate|reflexivity].
Qed.

Lemma isspace_not_paren c : PyStr.isspace c = true -> negb (PyStr.mem c "()") = true.
Proof.
destruct c as [[] [] [] [] [] [] [] []]; vm_compute; congruence.
Qed.

Lemma forallb_weaken {A} (p q : A -> bool) l :
(forall x, p x = true -> q x = true) -> forallb p l = true -> forallb q l = true.
Proof.
intros Hpq. induction l as [|x l IH]; simpl; [reflexivity|].
intros H. apply andb_prop in H as [Hx Hl]. now rewrite (Hpq _ Hx), IH.
Qed.

(** Parentheses are not stripped from a text made of white space. *)
Lemma strip_chars_whitespace s :
PyStr.strip s = EmptyString -> PyStr.strip_chars "()" s = s.
Proof.
intros H. apply strip_by_empty in H.
assert (Hn : forallb (fun c => negb (PyStr.mem c "()")) (list_ascii_of_string s) = true)
by (eapply forallb_weaken; [apply isspace_not_paren|exact H]).
unfold PyStr.strip_chars. rewrite (lstrip_by_none _ _ Hn). now apply rstrip_by_none.
Qed.

Lemma append_arg_truthy args current :
Forall (fun a => PyStr.truthy a = true) args ->
Forall (fun a => PyStr.truthy a = true) (append_arg args current).
Proof.
intros H. unfold append_arg.
destruct (PyStr.truthy (PyStr.strip current)) eqn:E; [|exact H].
apply Forall_app; split; [exact H|]. constructor; [exact E|constructor].
Qed.

Lemma parse_arguments_loop_truthy text :
forall depth current args,
Forall (fun a => PyStr.truthy a = true) args ->
Forall (fun a => PyStr.truthy a = true) (parse_arguments_loop text depth current args).
Proof.
induction text as [|ch rest IH]; intros depth current args H; simpl.
- now apply append_arg_truthy.
- destruct (is_open ch); [now apply IH|].
destruct (is_close ch); [now apply IH|].
destruct (Ascii.eqb ch "," && (depth =? 0)); apply IH; [|exact H].
now apply append_arg_truthy.
Qed.

(** C10.  [_parse_arguments] never returns an empty string: every element
of its result is a non-empty string; an argument text that is empty or
white space only yields the empty list; and the empty items between
consecutive top-level commas or after a trailing comma are dropped. *)
Theorem parse_arguments_no_empty_element :
(forall args_text,
  Forall (fun a => PyStr.truthy a = true) (_parse_arguments args_text))
/\ (forall args_text,
    PyStr.strip args_text = EmptyString -> _parse_arguments args_text = [])
/\ _parse_arguments "(a,, b, ,c,)" = ["a"; "b"; "c"].
Proof.
split; [|split].
- intros args_text. unfold _parse_arguments.
destruct (negb _); [constructor|].
apply parse_arguments_loop_truthy. constructor.
- intros args_text H. unfold _parse_arguments.
rewrite (strip_chars_whitespace _ H), H. reflexivity.
- reflexivity.
Qed.

Lemma parse_arguments_no_empty_element_witness :
Forall (fun a => PyStr.truthy a = true) (_parse_arguments "(x, , y)")
/\ _parse_arguments "   " = [].
Proof.
split.
- apply (proj1 parse_arguments_no_empty_element).
- apply (proj1 (proj2 parse_arguments_no_empty_element)). reflexivity.
Defined.

Lemma rstrip_by_snoc p s c :
  p c = true -> PyStr.rstrip_by p (PyStr.snoc s c) = PyStr.rstrip_by p s.
Proof.
  intros Hc. unfold PyStr.snoc.
  induction s as [|a s IH]; simpl; [now rewrite Hc|now rewrite IH].
Qed.

(** With one pair of parentheses around a text that neither begins nor ends
    with a parenthesis, stripping removes that pair and nothing else: the
    result is the split of the text between the parentheses. *)
Lemma parse_arguments_one_pair inner :
  PyStr.strip_chars "()" inner = inner ->
  _parse_arguments (String "("%char (PyStr.snoc inner ")"%char))
  = if PyStr.truthy (PyStr.strip inner) then parse_arguments_loop inner 0 EmptyString []
    else [].
Proof.
  intros H. unfold _parse_arguments.
  assert (E : PyStr.strip_chars "()" (String "("%char (PyStr.snoc inner ")"%char)) = inner).
  { unfold PyStr.strip_chars in *.
    set (p := fun c => PyStr.mem c "()") in *.
    assert (Ho : p "("%char = true) by reflexivity.
    assert (Hc : p ")"%char = true) by reflexivity.
    clearbody p.
    cbn [PyStr.lstrip_by]. rewrite Ho.
    destruct inner as [|a rest].
    { change (PyStr.snoc "" ")") with ")". cbn [PyStr.lstrip_by]. now rewrite Hc. }
    change (PyStr.snoc (String a rest) ")") with (String a (PyStr.snoc rest ")")).
    cbn [PyStr.lstrip_by] in H |- *.
    destruct (p a) eqn:Ea.
    - exfalso.
      assert (R : forall s, (String.length (PyStr.rstrip_by p s) <= String.length s)%nat).
      { induction s as [|c s IH]; simpl; [lia|].
        destruct (PyStr.rstrip_by p s); [destruct (p c); simpl; lia|simpl in *; lia]. }
      assert (Lf : forall s, (String.length (PyStr.lstrip_by p s) <= String.length s)%nat).
      { induction s as [|c s IH]; simpl; [lia|]. destruct (p c); simpl; lia. }
      specialize (R (PyStr.lstrip_by p rest)). specialize (Lf rest).
      rewrite H in R. simpl in R. lia.
    - change (String a (PyStr.snoc rest ")")) with (PyStr.snoc (String a rest) ")").
      rewrite rstrip_by_snoc by exact Hc. exact H. }
  rewrite E. now destruct (PyStr.truthy (PyStr.strip inner)).
Qed.

(** C6.  On the argument text of [f(a, g(b, c), d)] the split gives the
three top-level arguments.  On the argument text of
[f((fn a, b -> a end), c)], stripping takes both opening parentheses:
the loop then splits at the comma inside the parenthesised argument and
not at the top-level one, whereas the same loop on the text between the
outer parentheses gives the two arguments. *)
Theorem parse_arguments_strip_breaks_nesting :
_parse_arguments "(a, g(b, c), d)" = ["a"; "g(b, c)"; "d"]
/\ _parse_arguments "((fn a, b -> a end), c)" = ["fn a"; "b -> a end), c"]
/\ parse_arguments_loop "(fn a, b -> a end), c" 0 EmptyString []
 = ["(fn a, b -> a end)"; "c"].
Proof. repeat split; reflexivity. Qed.

End ParseArguments.

(** ** Reading and decoding *)

Section Decoding.
Import PyFile.

Lemma handled_emit h c marks : emit c (handled h marks) = handled h (Some c :: marks).
Proof.
destruct h; cbn [handled all_valid forallb kept replaced flat_map map andb emit option_map];
try reflexivity.
fold (all_valid marks). now destruct (all_valid marks).
Qed.

Lemma handled_error h marks : on_error h (handled h marks) = handled h (None :: marks).
Proof. destruct h; reflexivity. Qed.

Lemma handled_end h : on_error h (Some []) = handled h [None].
Proof. destruct h; reflexivity. Qed.

Lemma decode_marks n :
forall bs, (List.length bs <= n)%nat ->
exists marks, forall h, utf8_decode h bs = handled h marks.
Proof.
induction n as [|n IH]; intros bs Hlen.
{ destruct bs; [|simpl in Hlen; lia]. exists []. now intros []. }
destruct bs as [|b0 r0]; [exists []; now intros []|].
simpl in Hlen.
assert (Hskip : exists marks, forall h,
         on_error h (utf8_decode h r0) = handled h marks).
{ destruct (IH r0) as (m & Hm); [lia|]. exists (None :: m). intros h.
rewrite Hm. apply handled_error. }
assert (Hend : exists marks, forall h, on_error h (Some []) = handled h marks).
{ exists [None]. apply handled_end. }
destruct (b0 <? 128)%N eqn:E1.
{ destruct (IH r0) as (m & Hm); [lia|]. exists (Some b0 :: m). intros h.
cbn [utf8_decode]. rewrite E1, Hm. apply handled_emit. }
destruct (b0 <? 194)%N eqn:E2.
{ destruct Hskip as (m & Hm). exists m. intros h. cbn [utf8_decode].
rewrite E1, E2. apply Hm. }
destruct (b0 <? 224)%N eqn:E3.
{ destruct r0 as [|b1 r1].
- destruct Hend as (m & Hm). exists m. intros h. cbn [utf8_decode].
  rewrite E1, E2, E3. apply Hm.
- destruct (is_continuation b1) eqn:C1.
  + destruct (IH r1) as (m & Hm); [simpl in Hlen |- *; lia|].
    eexists (Some _ :: m). intros h. cbn [utf8_decode].
    rewrite E1, E2, E3, C1, Hm. apply handled_emit.
  + destruct Hskip as (m & Hm). exists m. intros h.
    etransitivity; [|apply Hm]. cbn [utf8_decode]. now rewrite E1, E2, E3, C1. }
destruct (b0 <? 240)%N eqn:E4.
{ destruct r0 as [|b1 r1].
- destruct Hend as (m & Hm). exists m. intros h. cbn [utf8_decode].
  rewrite E1, E2, E3, E4. apply Hm.
- destruct (second_ok b0 b1) eqn:C1.
  2:{ destruct Hskip as (m & Hm). exists m. intros h.
      etransitivity; [|apply Hm]. cbn [utf8_decode].
      now rewrite E1, E2, E3, E4, C1. }
  destruct r1 as [|b2 r2].
  + destruct Hend as (m & Hm). exists m. intros h. cbn [utf8_decode].
    rewrite E1, E2, E3, E4, C1. apply Hm.
  + destruct (is_continuation b2) eqn:C2.
    * destruct (IH r2) as (m & Hm); [simpl in Hlen |- *; lia|].
      eexists (Some _ :: m). intros h. cbn [utf8_decode].
      rewrite E1, E2, E3, E4, C1, C2, Hm. apply handled_emit.
    * destruct (IH (b2 :: r2)) as (m & Hm); [simpl in Hlen |- *; lia|].
      exists (None :: m). intros h.
      etransitivity; [|apply handled_error]. rewrite <- Hm.
      cbn [utf8_decode]. now rewrite E1, E2, E3, E4, C1, C2. }
destruct (b0 <? 245)%N eqn:E5.
2:{ destruct Hskip as (m & Hm). exists m. intros h.
  etransitivity; [|apply Hm]. cbn [utf8_decode]. now rewrite E1, E2, E3, E4, E5. }
destruct r0 as [|b1 r1].
{ destruct Hend as (m & Hm). exists m. intros h. cbn [utf8_decode].
rewrite E1, E2, E3, E4, E5. apply Hm. }
destruct (second_ok b0 b1) eqn:C1.
2:{ destruct Hskip as (m & Hm). exists m. intros h.
  etransitivity; [|apply Hm]. cbn [utf8_decode].
  now rewrite E1, E2, E3, E4, E5, C1. }
destruct r1 as [|b2 r2].
{ destruct Hend as (m & Hm). exists m. intros h. cbn [utf8_decode].
rewrite E1, E2, E3, E4, E5, C1. apply Hm. }
destruct (is_continuation b2) eqn:C2.
2:{ destruct (IH (b2 :: r2)) as (m & Hm); [simpl in Hlen |- *; lia|].
  exists (None :: m). intros h.
  etransitivity; [|apply handled_error]. rewrite <- Hm.
  cbn [utf8_decode]. now rewrite E1, E2, E3, E4, E5, C1, C2. }
destruct r2 as [|b3 r3].
{ destruct Hend as (m & Hm). exists m. intros h. cbn [utf8_decode].
rewrite E1, E2, E3, E4, E5, C1, C2. apply Hm. }
destruct (is_continuation b3) eqn:C3.
- destruct (IH r3) as (m & Hm); [simpl in Hlen |- *; lia|].
eexists (Some _ :: m). intros h. cbn [utf8_decode].
rewrite E1, E2, E3, E4, E5, C1, C2, C3, Hm. apply handled_emit.
- destruct (IH (b3 :: r3)) as (m & Hm); [simpl in Hlen |- *; lia|].
exists (None :: m). intros h.
etransitivity; [|apply handled_error]. rewrite <- Hm.
cbn [utf8_decode]. now rewrite E1, E2, E3, E4, E5, C1, C2, C3.
Qed.

(** The three error handlers read the same bytes in the same way and
differ only at the ranges that are not valid: [Strict] fails at the first
one, [Ignore] drops them, [Replace] puts U+FFFD for each. *)
Lemma utf8_decode_handled bs :
exists marks, forall h, utf8_decode h bs = handled h marks.
Proof. apply (decode_marks (List.length bs)). lia. Qed.

Lemma read_text_null fs h path :
has_null path = true -> read_text fs h path = Raise ValueError.
Proof. intros H. unfold read_text. now rewrite H. Qed.

Lemma read_text_missing fs h path :
has_null path = false -> fs path = None -> read_text fs h path = Raise (OSError path).
Proof. intros H E. unfold read_text. now rewrite H, E. Qed.

(** A file that can be opened: what the three handlers read of it. *)
Lemma read_text_handled fs path bs :
has_null path = false -> fs path = Some bs ->
exists marks,
(forall h, utf8_decode h (map Byte.to_N bs) = handled h marks)
/\ read_source fs path = Ok (universal_newlines (kept marks))
/\ read_text fs Replace path = Ok (universal_newlines (replaced marks))
/\ read_text fs Strict path
   = if all_valid marks then Ok (universal_newlines (kept marks))
     else Raise UnicodeDecodeError.
Proof.
intros H E. destruct (utf8_decode_handled (map Byte.to_N bs)) as (marks & Hm).
exists marks. split; [exact Hm|].
unfold read_source, read_text. rewrite H, E, !Hm. cbn [handled].
split; [reflexivity|]. split; [reflexivity|]. now destruct (all_valid marks).
Qed.

(** What [read_source] raises is the error of [open]. *)
Lemma read_source_raises fs path e :
read_source fs path = Raise e ->
(has_null path = true /\ e = ValueError)
\/ (has_null path = false /\ fs path = None /\ e = OSError path).
Proof.
unfold read_source, read_text.
destruct (has_null path); [intros [= <-]; left; now split|].
destruct (fs path) as [bs|] eqn:E; [|intros [= <-]; right; now repeat split].
destruct (utf8_decode_handled (map Byte.to_N bs)) as (marks & Hm).
rewrite Hm. discriminate.
Qed.

End Decoding.

(** ** The structural parsers *)

Section Parsers.
Import PyFile.
Context (ts : TreeSitter) (frames : nat).

Lemma Forall_flat_map_all {A B} (P : B -> Prop) (f : A -> list B) l :
(forall x, Forall P (f x)) -> Forall P (flat_map f l).
Proof.
intros H. induction l as [|x l IH]; simpl; [constructor|].
apply Forall_app. split; [apply H|exact IH].
Qed.

Lemma collect_Forall {A B} (P : B -> Prop) (f : A -> result (list B)) l :
(forall x ys, f x = Ok ys -> Forall P ys) ->
forall zs, collect f l = Ok zs -> Forall P zs.
Proof.
intros H. induction l as [|x l IH]; intros zs; cbn [collect].
- intros [= <-]. constructor.
- destruct (f x) as [ys|e] eqn:Ex; cbn [bind]; [|discriminate].
destruct (collect f l) as [rest|e]; cbn [bind]; [|discriminate].
intros [= <-]. apply Forall_app. split; [now apply (H x)|now apply IH].
Qed.

Lemma func_entry_tagged idx r es :
Elixir.func_entry frames idx r = Ok es -> Forall (tagged "elixir") es.
Proof.
unfold Elixir.func_entry.
destruct (Elixir.fd_name r) as [name|]; [|intros [= <-]; constructor].
destruct (PyStr.truthy name); [|intros [= <-]; constructor].
destruct (Elixir._calculate_complexity frames (Elixir.fd_node r)); cbn [bind];
[|discriminate].
intros [= <-]. repeat constructor.
Qed.

Lemma class_entry_tagged idx r : Forall (tagged "elixir") (Elixir.class_entry idx r).
Proof. unfold Elixir.class_entry. destruct (Elixir.cd_name r) as [name|]; [|constructor].
   destruct (PyStr.truthy name); repeat constructor. Qed.

Lemma import_entry_tagged r : Forall (tagged "elixir") (Elixir.import_entry r).
Proof. unfold Elixir.import_entry.
   destruct (Elixir.id_import_type r), (Elixir.id_import_args r); try constructor.
   destruct (_ && _); repeat constructor. Qed.

Lemma call_entry_tagged r : Forall (tagged "elixir") (Elixir.call_entry r).
Proof. unfold Elixir.call_entry. destruct (Elixir.cl_method r) as [m|]; [|constructor].
   destruct (PyStr.truthy m); repeat constructor. Qed.

Lemma attr_entry_tagged r : Forall (tagged "elixir") (Elixir.attr_entry r).
Proof. unfold Elixir.attr_entry. destruct (Elixir.ad_name r) as [name|]; [|constructor].
   destruct (PyStr.truthy name); repeat constructor. Qed.

Lemma macro_entry_tagged idx r : Forall (tagged "elixir") (Elixir.macro_entry idx r).
Proof. unfold Elixir.macro_entry. destruct (Elixir.md_name r) as [name|]; [|constructor].
   destruct (PyStr.truthy name); repeat constructor. Qed.

Lemma named_entry_tagged idx starts ty node :
Forall (tagged "heex") (Heex.named_entry idx starts ty node).
Proof. unfold Heex.named_entry. destruct (Heex.name_of starts ty node) as [name|]; [|constructor].
   destruct (PyStr.truthy name); repeat constructor. Qed.

Lemma directives_tagged root : Forall (tagged "heex") (Heex._find_directives ts root).
Proof. unfold Heex._find_directives. apply Forall_map, Forall_forall.
   intros node _. split; reflexivity. Qed.

Lemma import_step_tagged st node :
Forall (tagged "heex") (snd st) -> Forall (tagged "heex") (snd (Heex.import_step st node)).
Proof.
destruct st as [seen imports]. unfold Heex.import_step. intros H.
destruct (_ && _); [|exact H].
destruct (Heex.rsplit_head _ _) as [m|]; [|exact H].
destruct (str_in m seen); [exact H|]. simpl.
apply Forall_app. split; [exact H|]. repeat constructor.
Qed.

Lemma heex_imports_tagged root : Forall (tagged "heex") (Heex._find_imports ts root).
Proof.
unfold Heex._find_imports.
generalize (Heex.captured ts "component_names" "comp_name" root).
assert (H : Forall (tagged "heex") (snd (@nil string, @nil pyval))) by constructor.
revert H. generalize (@nil string, @nil pyval).
intros st H l. revert st H.
induction l as [|node l IH]; intros st H; simpl; [exact H|].
apply IH. now apply import_step_tagged.
Qed.

(** *** The depth of the calls of [traverse] *)

Lemma children_ind (P : TSNode -> Prop) :
(forall n, Forall P (children n) -> P n) -> forall n, P n.
Proof.
intros H. fix IH 1. intros n. apply H.
destruct n as [i ty tx sb eb sr er cs pa ps]; simpl.
induction cs as [|c cs IHcs]; constructor; [apply IH|exact IHcs].
Qed.

Lemma traverse_step inside n :
Elixir.traverse (S inside) n
= (here <- Elixir.complexity_here inside n ;;
 below <- fold_right (fun c acc => a <- Elixir.traverse inside c ;; b <- acc ;; Ok (a + b))
                     (Ok 0) (children n) ;;
 Ok (here + below)).
Proof. reflexivity. Qed.

Lemma decision_points_step n :
decision_points n
= point_here n + fold_right (fun c acc => decision_points c + acc) 0 (children n).
Proof. destruct n as [i ty tx sb eb sr er cs pa ps]. reflexivity. Qed.

Lemma frames_needed_step n :
frames_needed n
= S (Nat.max (if reads_text n then 1 else 0)
           (fold_right (fun c acc => Nat.max (frames_needed c) acc) O (children n))).
Proof. destruct n as [i ty tx sb eb sr er cs pa ps]. reflexivity. Qed.

Lemma complexity_here_fits inside n :
Elixir.complexity_here inside n
= if reads_text n && (inside =? 0)%nat then Raise RecursionError
else Ok (point_here n).
Proof.
unfold Elixir.complexity_here, reads_text, point_here, Elixir.node_text_at,
Elixir._get_node_text.
destruct (str_in (ts_type n) Elixir.complexity_keywords); [reflexivity|].
cbn [negb andb].
destruct (String.eqb (ts_type n) "identifier"); cbn [orb].
{ destruct inside; reflexivity. }
destruct (String.eqb (ts_type n) "binary_operator"); [|reflexivity].
destruct inside; reflexivity.
Qed.

(** [traverse] returns the count when the tree is no deeper than the
calls allowed, and raises [RecursionError] when it is. *)
Lemma traverse_fits n : forall allowed,
Elixir.traverse allowed n
= if (frames_needed n <=? allowed)%nat then Ok (decision_points n)
else Raise RecursionError.
Proof.
induction n as [n IH] using children_ind. intros [|inside].
{ rewrite frames_needed_step. reflexivity. }
rewrite traverse_step, decision_points_step, frames_needed_step, complexity_here_fits.
assert (Hc : fold_right (fun c acc => a <- Elixir.traverse inside c ;; b <- acc ;; Ok (a + b))
                      (Ok 0) (children n)
           = if (fold_right (fun c acc => Nat.max (frames_needed c) acc) O (children n)
                 <=? inside)%nat
             then Ok (fold_right (fun c acc => decision_points c + acc) 0 (children n))
             else Raise RecursionError).
{ induction IH as [|c cs Hc _ IHcs]; cbn [fold_right]; [reflexivity|].
rewrite Hc, IHcs.
destruct (Nat.leb_spec (frames_needed c) inside) as [H1|H1];
  destruct (Nat.leb_spec (fold_right (fun c acc => Nat.max (frames_needed c) acc) O cs)
                         inside) as [H2|H2];
  cbn [bind];
  destruct (Nat.leb_spec (Nat.max (frames_needed c)
                            (fold_right (fun c acc => Nat.max (frames_needed c) acc) O cs))
                         inside) as [H3|H3];
  try reflexivity; lia. }
rewrite Hc.
set (m := fold_right (fun c acc => Nat.max (frames_needed c) acc) O (children n)).
destruct (reads_text n); cbn [andb].
- destruct inside as [|k]; cbn [Nat.eqb bind].
{ destruct (Nat.leb_spec (S (Nat.max 1 m)) 1) as [H2|H2]; [lia|reflexivity]. }
destruct (Nat.leb_spec m (S k)) as [H1|H1]; cbn [bind];
  destruct (Nat.leb_spec (S (Nat.max 1 m)) (S (S k))) as [H2|H2];
  try reflexivity; lia.
- cbn [bind].
destruct (Nat.leb_spec m inside) as [H1|H1]; cbn [bind];
  destruct (Nat.leb_spec (S (Nat.max 0 m)) (S inside)) as [H2|H2];
  try reflexivity; lia.
Qed.

Lemma func_entry_fits idx r :
Elixir.func_entry frames idx r
= if fits frames r then Ok (func_entries idx r) else Raise RecursionError.
Proof.
unfold Elixir.func_entry, fits, func_entries, named, Elixir._calculate_complexity.
destruct (Elixir.fd_name r) as [name|]; [|reflexivity].
destruct (PyStr.truthy name); [|reflexivity].
rewrite traverse_fits. cbn [negb orb].
now destruct (frames_needed (Elixir.fd_node r) <=? frames)%nat.
Qed.

Lemma collect_fits {A B} (f : A -> result (list B)) (ok : A -> bool) g e l :
(forall x, f x = if ok x then Ok (g x) else Raise e) ->
collect f l = if forallb ok l then Ok (flat_map g l) else Raise e.
Proof.
intros H. induction l as [|x l IH]; cbn [collect forallb flat_map]; [reflexivity|].
rewrite H, IH. destruct (ok x); cbn [bind andb]; [|reflexivity].
now destruct (forallb ok l).
Qed.

(** [_find_functions] returns the entries of the functions that have a
name when the tree of each of them is no deeper than the calls allowed,
and raises [RecursionError] otherwise. *)
Lemma find_functions_fits idx root_node :
Elixir._find_functions ts frames idx root_node
= if forallb (fun e => fits frames (snd e)) (functions_data ts root_node)
then Ok (flat_map (fun e => func_entries idx (snd e)) (functions_data ts root_node))
else Raise RecursionError.
Proof.
unfold Elixir._find_functions, functions_data.
apply (collect_fits _ (fun e => fits frames (snd e)) (fun e => func_entries idx (snd e))).
intros e. apply func_entry_fits.
Qed.

(** C5 (as amended).  The record that [parse] returns carries the
[is_dependency] value that was passed in and the tag of its parser; every
entry in its lists carries the tag of its parser and [is_dependency]
false, whatever value was passed in. *)
Theorem parse_dependency_flag_on_record_only fs path is_dependency index_source :
match Elixir.parse ts frames fs path is_dependency index_source with
| Ok r => get_item "is_dependency" r = Some (PBool is_dependency)
        /\ get_item "lang" r = Some (PStr "elixir")
        /\ Forall (tagged "elixir") (entries_of r)
| Raise _ => True
end
/\ match Heex.parse ts fs path is_dependency index_source with
 | Ok r => get_item "is_dependency" r = Some (PBool is_dependency)
           /\ get_item "lang" r = Some (PStr "heex")
           /\ Forall (tagged "heex") (entries_of r)
 | Raise _ => True
 end.
Proof.
split.
- unfold Elixir.parse. destruct (read_source fs path) as [src|e]; [|exact I].
destruct (Elixir._find_functions ts frames index_source
            (parser_parse ts (utf8_encode src))) as [functions|e] eqn:Ef;
  cbn [bind]; [|exact I].
split; [reflexivity|]. split; [reflexivity|].
unfold entries_of, list_at. simpl. rewrite app_nil_r.
apply Forall_app. split.
{ unfold Elixir._find_functions in Ef. revert Ef. apply collect_Forall.
  intros [k r] ys. apply func_entry_tagged. }
repeat (apply Forall_app; split); apply Forall_flat_map_all; intros [k r];
  auto using class_entry_tagged, import_entry_tagged,
    call_entry_tagged, attr_entry_tagged, macro_entry_tagged.
- unfold Heex.parse. destruct (read_source fs path) as [src|e]; [|exact I].
split; [reflexivity|]. split; [reflexivity|].
unfold entries_of, list_at. simpl. rewrite app_nil_r.
repeat (apply Forall_app; split); try constructor.
+ apply Forall_flat_map_all. intros node. apply named_entry_tagged.
+ apply directives_tagged.
+ apply heex_imports_tagged.
Qed.

(** C9.  Whenever [HeexTreeSitterParser.parse] returns, the record has the
empty list as [classes] and as [function_calls]; its [functions] are the
components and its [variables] the directives of the tree that the parser
makes of the text of the file.  When it raises, it raises what reading
the file raised: the error of [open]. *)
Theorem heex_parse_no_classes_no_calls fs path is_dependency index_source :
match Heex.parse ts fs path is_dependency index_source with
| Ok r =>
  get_item "classes" r = Some (PList [])
  /\ get_item "function_calls" r = Some (PList [])
  /\ exists source_code,
      read_source fs path = Ok source_code
      /\ get_item "functions" r
         = Some (PList (Heex._find_components ts index_source
                          (parser_parse ts (utf8_encode source_code))))
      /\ get_item "variables" r
         = Some (PList (Heex._find_directives ts
                          (parser_parse ts (utf8_encode source_code))))
| Raise e =>
  read_source fs path = Raise e
  /\ ((has_null path = true /\ e = ValueError)
      \/ (has_null path = false /\ fs path = None /\ e = OSError path))
end.
Proof.
unfold Heex.parse.
destruct (read_source fs path) as [source_code|e] eqn:E.
- split; [reflexivity|]. split; [reflexivity|].
exists source_code. repeat split; reflexivity.
- split; [reflexivity|]. now apply read_source_raises.
Qed.

(** *** Definitions without a name *)

Lemma func_entry_omitted idx r :
Elixir.func_entry frames idx r = Ok [] <-> named (Elixir.fd_name r) = false.
Proof.
rewrite func_entry_fits. unfold fits, func_entries, named.
destruct (Elixir.fd_name r) as [name|]; [|now split].
destruct (PyStr.truthy name); [|now split]. cbn [negb orb].
destruct (_ <=? _)%nat; split; discriminate.
Qed.

Lemma class_entry_omitted idx r :
Elixir.class_entry idx r = [] <-> named (Elixir.cd_name r) = false.
Proof.
unfold Elixir.class_entry, named. destruct (Elixir.cd_name r) as [name|]; [|now split].
destruct (PyStr.truthy name); split; (discriminate || reflexivity).
Qed.

Lemma import_entry_omitted r :
Elixir.import_entry r = []
<-> named (Elixir.id_import_type r) && named (Elixir.id_import_args r) = false.
Proof.
unfold Elixir.import_entry, named.
destruct (Elixir.id_import_type r) as [t|]; [|now split].
destruct (Elixir.id_import_args r) as [a|]; [|rewrite andb_false_r; now split].
destruct (PyStr.truthy t && PyStr.truthy a); split; (discriminate || reflexivity).
Qed.

Lemma call_entry_omitted r :
Elixir.call_entry r = [] <-> named (Elixir.cl_method r) = false.
Proof.
unfold Elixir.call_entry, named. destruct (Elixir.cl_method r) as [name|]; [|now split].
destruct (PyStr.truthy name); split; (discriminate || reflexivity).
Qed.

Lemma attr_entry_omitted r :
Elixir.attr_entry r = [] <-> named (Elixir.ad_name r) = false.
Proof.
unfold Elixir.attr_entry, named. destruct (Elixir.ad_name r) as [name|]; [|now split].
destruct (PyStr.truthy name); split; (discriminate || reflexivity).
Qed.

Lemma macro_entry_omitted idx r :
Elixir.macro_entry idx r = [] <-> named (Elixir.md_name r) = false.
Proof.
unfold Elixir.macro_entry, named. destruct (Elixir.md_name r) as [name|]; [|now split].
destruct (PyStr.truthy name); split; (discriminate || reflexivity).
Qed.

Lemma named_entry_omitted idx starts name_type node :
Heex.named_entry idx starts name_type node = []
<-> named (Heex.name_of starts name_type node) = false.
Proof.
unfold Heex.named_entry, named.
destruct (Heex.name_of starts name_type node) as [name|]; [|now split].
destruct (PyStr.truthy name); split; (discriminate || reflexivity).
Qed.

(** C7 (as amended).  [parse] raises the error of [open] when the file
cannot be opened: [ValueError] for a path with a null character,
[OSError] otherwise.  A file that can be opened is decoded without any
error: the ranges of bytes that are not valid are dropped, where
replace-on-error decoding puts U+FFFD for each of them and strict
decoding fails.  The HEEx parser then returns a record.  The Elixir
parser returns a record when the tree of every function that has a name
is no deeper than the nested calls that the interpreter allows, and
raises [RecursionError] otherwise, since the complexity of a function is
computed by a function that calls itself for every child.  A definition
whose name was not captured is left out of the record, and only such a
definition; a module attribute whose value was not captured has [None] as
its value. *)
Theorem parse_raises_only_when_unreadable fs path is_dependency index_source :
(has_null path = true ->
 Elixir.parse ts frames fs path is_dependency index_source = Raise ValueError
 /\ Heex.parse ts fs path is_dependency index_source = Raise ValueError)
/\ (has_null path = false -> fs path = None ->
   Elixir.parse ts frames fs path is_dependency index_source = Raise (OSError path)
   /\ Heex.parse ts fs path is_dependency index_source = Raise (OSError path))
/\ (forall bs, has_null path = false -> fs path = Some bs ->
   exists marks,
     (forall h, utf8_decode h (map Byte.to_N bs) = handled h marks)
     /\ read_source fs path = Ok (universal_newlines (kept marks))
     /\ (exists r, Heex.parse ts fs path is_dependency index_source = Ok r)
     /\ let root_node :=
          parser_parse ts (utf8_encode (universal_newlines (kept marks))) in
        if forallb (fun e => fits frames (snd e)) (functions_data ts root_node)
        then exists r,
               Elixir.parse ts frames fs path is_dependency index_source = Ok r
               /\ get_item "functions" r
                  = Some (PList (flat_map (fun e => func_entries index_source (snd e))
                                          (functions_data ts root_node)))
        else Elixir.parse ts frames fs path is_dependency index_source
             = Raise RecursionError)
/\ (forall r, Elixir.func_entry frames index_source r = Ok []
             <-> named (Elixir.fd_name r) = false)
/\ (forall r, Elixir.class_entry index_source r = []
             <-> named (Elixir.cd_name r) = false)
/\ (forall r, Elixir.import_entry r = []
             <-> named (Elixir.id_import_type r) && named (Elixir.id_import_args r)
                 = false)
/\ (forall r, Elixir.call_entry r = [] <-> named (Elixir.cl_method r) = false)
/\ (forall r, Elixir.attr_entry r = [] <-> named (Elixir.ad_name r) = false)
/\ (forall r, Elixir.macro_entry index_source r = []
             <-> named (Elixir.md_name r) = false)
/\ (forall starts name_type node,
     Heex.named_entry index_source starts name_type node = []
     <-> named (Heex.name_of starts name_type node) = false)
/\ (forall r, named (Elixir.ad_name r) = true -> Elixir.ad_value r = None ->
     exists e, Elixir.attr_entry r = [e] /\ get_item "value" e = Some PNone).
Proof.
split; [|split; [|split]].
- intros H. unfold Elixir.parse, Heex.parse, read_source.
rewrite (read_text_null _ _ _ H). now split.
- intros H E. unfold Elixir.parse, Heex.parse, read_source.
rewrite (read_text_missing _ _ _ H E). now split.
- intros bs H E.
destruct (read_text_handled fs path bs H E) as (marks & Hm & Hr & _).
exists marks. split; [exact Hm|]. split; [exact Hr|].
unfold Elixir.parse, Heex.parse. rewrite Hr.
split; [eexists; reflexivity|].
cbv zeta. rewrite find_functions_fits.
destruct (forallb _ _); cbn [bind]; [|reflexivity].
eexists. split; reflexivity.
- split; [apply func_entry_omitted|]. split; [apply class_entry_omitted|].
split; [apply import_entry_omitted|]. split; [apply call_entry_omitted|].
split; [apply attr_entry_omitted|]. split; [apply macro_entry_omitted|].
split; [apply named_entry_omitted|].
intros r Hn Hv. unfold Elixir.attr_entry, named in *.
destruct (Elixir.ad_name r) as [name|]; [|discriminate]. rewrite Hn, Hv.
eexists. split; reflexivity.
Qed.

End Parsers.

(** C5 (as stated) fails: with [is_dependency] true, the function entry of
    the sample file is marked [is_dependency] false. *)
Lemma entries_not_marked_as_dependency :
  exists r, Elixir.parse Sample.tree_sitter Sample.frames Sample.files "lib/a.ex" true false
            = PyFile.Ok r
            /\ list_at "functions" r <> []
            /\ entries_marked true r = false.
Proof.
  eexists. split; [reflexivity|]. split; [discriminate|reflexivity].
Qed.

(** The definition of the sample needs thirteen nested calls: with twelve
    [parse] raises [RecursionError] though the file can be read, with
    thirteen it returns a record; a file that cannot be opened gives the
    error of [open]. *)
Lemma parse_raises_only_when_unreadable_witness :
  Elixir.parse Sample.deep_tree_sitter 12 Sample.files "lib/a.ex" false false
  = PyFile.Raise PyFile.RecursionError
  /\ (exists r, Elixir.parse Sample.deep_tree_sitter 13 Sample.files "lib/a.ex" false false
                = PyFile.Ok r)
  /\ Elixir.parse Sample.deep_tree_sitter 13 Sample.files "lib/b.ex" false false
     = PyFile.Raise (PyFile.OSError "lib/b.ex").
Proof.
  split; [|split].
  - destruct (parse_raises_only_when_unreadable Sample.deep_tree_sitter 12 Sample.files
                "lib/a.ex" false false) as (_ & _ & H & _).
    destruct (H _ eq_refl eq_refl) as (marks & _ & _ & _ & He).
    exact He.
  - destruct (parse_raises_only_when_unreadable Sample.deep_tree_sitter 13 Sample.files
                "lib/a.ex" false false) as (_ & _ & H & _).
    destruct (H _ eq_refl eq_refl) as (marks & _ & _ & _ & He).
    destruct He as (r & Hr & _). exists r. exact Hr.
  - destruct (parse_raises_only_when_unreadable Sample.deep_tree_sitter 13 Sample.files
                "lib/b.ex" false false) as (_ & H & _).
    exact (proj1 (H eq_refl eq_refl)).
Defined.

(** C7 (as stated) fails: the invalid byte of the sample file is dropped,
    where replace-on-error decoding puts U+FFFD; and a definition that
    nests deeper than the calls allowed makes [parse] raise, though the
    file can be read. *)
Lemma invalid_bytes_dropped_not_replaced :
  PyFile.read_source Sample.files "lib/a.ex" = PyFile.Ok [97; 98]%N
  /\ PyFile.read_text Sample.files PyFile.Replace "lib/a.ex" = PyFile.Ok [97; 65533; 98]%N
  /\ PyFile.read_source Sample.files "lib/a.ex"
     <> PyFile.read_text Sample.files PyFile.Replace "lib/a.ex"
  /\ Elixir.parse Sample.deep_tree_sitter 12 Sample.files "lib/a.ex" false false
     = PyFile.Raise PyFile.RecursionError.
Proof.
  split; [reflexivity|]. split; [reflexivity|]. split; [discriminate|reflexivity].
Qed.

(** ** The graph store *)

Section GraphFacts.
Import Graph GraphNotions.

Lemma nodes_merge_edge t r g : nodes (merge_edge t r g) = nodes g.
Proof. unfold merge_edge. now destruct (existsb _ _). Qed.

Lemma nodes_merge_edges t rs g : nodes (merge_edges t rs g) = nodes g.
Proof.
unfold merge_edges. revert g.
induction rs as [|r rs IH]; intros g; simpl; [reflexivity|].
now rewrite IH, nodes_merge_edge.
Qed.

Lemma nodes_verify_edges t rs g : nodes (verify_edges t rs g) = nodes g.
Proof. reflexivity. Qed.

Lemma edges_merge_node p init g : edges (merge_node p init g) = edges g.
Proof. unfold merge_node. now destruct (existsb _ _). Qed.

Lemma edges_set_nodes p f g : edges (set_nodes p f g) = edges g.
Proof. reflexivity. Qed.

Lemma match_ids_bound q g : match_ids q g = map fst (bound q g).
Proof. reflexivity. Qed.

(** *** Relationships *)

Lemma edge_is_new t r : edge_is (fst r) t (snd r) (mk_edge (fst r) t (snd r) None) = true.
Proof. unfold edge_is. simpl. now rewrite !Nat.eqb_refl, String.eqb_refl. Qed.

Lemma has_edge_merge_edge t r g : has_edge t (merge_edge t r g) r = true.
Proof.
unfold has_edge, merge_edge.
destruct (existsb _ (edges g)) eqn:E; [exact E|].
simpl. rewrite existsb_app. simpl. now rewrite edge_is_new, orb_true_r.
Qed.

Lemma has_edge_merge_edge_mono t r t' r' g :
has_edge t' g r' = true -> has_edge t' (merge_edge t r g) r' = true.
Proof.
unfold has_edge, merge_edge. intros H.
destruct (existsb (edge_is (fst r) t (snd r)) (edges g)); [exact H|].
simpl. rewrite existsb_app, H. reflexivity.
Qed.

Lemma has_edge_merge_edges_mono t rs t' r' g :
has_edge t' g r' = true -> has_edge t' (merge_edges t rs g) r' = true.
Proof.
unfold merge_edges. revert g.
induction rs as [|r rs IH]; intros g H; simpl; [exact H|].
apply IH. now apply has_edge_merge_edge_mono.
Qed.

Lemma has_edge_merge_edges t rs g :
Forall (fun r => has_edge t (merge_edges t rs g) r = true) rs.
Proof.
unfold merge_edges. revert g.
induction rs as [|r rs IH]; intros g; simpl; constructor.
- apply (has_edge_merge_edges_mono t rs t r). apply has_edge_merge_edge.
- apply IH.
Qed.

Lemma merge_edge_done t r g : has_edge t g r = true -> merge_edge t r g = g.
Proof. unfold has_edge, merge_edge. now intros ->. Qed.

Lemma merge_edges_done t rs g :
Forall (fun r => has_edge t g r = true) rs -> merge_edges t rs g = g.
Proof.
unfold merge_edges. induction 1 as [|r rs Hr _ IH]; simpl; [reflexivity|].
now rewrite (merge_edge_done _ _ _ Hr).
Qed.

Lemma In_edges_merge_edge t r g e :
In e (edges (merge_edge t r g)) ->
In e (edges g) \/ e = mk_edge (fst r) t (snd r) None.
Proof.
unfold merge_edge. destruct (existsb _ _); simpl; [now left|].
rewrite in_app_iff. simpl. intuition.
Qed.

Lemma In_edges_merge_edges t rs g e :
In e (edges (merge_edges t rs g)) ->
In e (edges g) \/ exists r, In r rs /\ e = mk_edge (fst r) t (snd r) None.
Proof.
unfold merge_edges. revert g.
induction rs as [|r rs IH]; intros g; simpl; [now left|].
intros H. apply IH in H as [H|(r' & Hr & He)].
- apply In_edges_merge_edge in H as [H| ->]; [now left|].
right. exists r. split; [now left|reflexivity].
- right. exists r'. split; [now right|exact He].
Qed.

Lemma edges_merge_edges_incl t rs g e :
In e (edges g) -> In e (edges (merge_edges t rs g)).
Proof.
unfold merge_edges. revert g.
induction rs as [|r rs IH]; intros g H; simpl; [exact H|].
apply IH. unfold merge_edge. destruct (existsb _ _); [exact H|].
simpl. apply in_or_app. now left.
Qed.

Lemma edge_in_new t rs r :
In r rs -> edge_in t rs (mk_edge (fst r) t (snd r) None) = true.
Proof.
intros H. unfold edge_in. apply existsb_exists.
exists r. split; [exact H|apply edge_is_new].
Qed.

Lemma edge_in_type t rs e : edge_in t rs e = true -> rel_type e = t.
Proof.
unfold edge_in, edge_is. intros H. apply existsb_exists in H as (r & _ & H).
apply andb_prop in H as [H _]. apply andb_prop in H as [_ H].
now apply String.eqb_eq.
Qed.

Lemma edge_is_verified s t d e : edge_is s t d (verified e) = edge_is s t d e.
Proof. reflexivity. Qed.

Lemma has_edge_verify_edges t rs t' g r :
has_edge t' (verify_edges t rs g) r = has_edge t' g r.
Proof.
unfold has_edge, verify_edges. simpl.
induction (edges g) as [|e es IH]; simpl; [reflexivity|].
rewrite IH. now destruct (edge_in t rs e).
Qed.

Lemma verify_edges_done t rs g :
Forall (fun e => edge_in t rs e = true -> scip_verified e = Some true) (edges g) ->
verify_edges t rs g = g.
Proof.
unfold verify_edges. destruct g as [ns es]. simpl. intros H. f_equal.
induction H as [|e es He _ IH]; simpl; [reflexivity|].
rewrite IH. f_equal.
destruct (edge_in t rs e); [|reflexivity].
destruct e as [s ty d v]. simpl in *. now rewrite (He eq_refl).
Qed.

Lemma verify_edges_verified t rs g :
Forall (fun e => edge_in t rs e = true -> scip_verified e = Some true)
     (edges (verify_edges t rs g)).
Proof.
unfold verify_edges. simpl. apply List.Forall_forall. intros e' H.
apply in_map_iff in H as (e & <- & _).
destruct (edge_in t rs e) eqn:E; [reflexivity|].
intros H. congruence.
Qed.

Lemma In_edges_verify_edges t rs g e :
In e (edges (verify_edges t rs g)) ->
(In e (edges g) /\ edge_in t rs e = false)
\/ (rel_type e = t /\ scip_verified e = Some true).
Proof.
unfold verify_edges. simpl. intros H.
apply in_map_iff in H as (e0 & <- & H).
destruct (edge_in t rs e0) eqn:E; [right|left; now split].
split; [exact (edge_in_type _ _ _ E)|reflexivity].
Qed.

(** *** Nodes *)

Lemma merge_node_done p init g :
existsb (fun e => p (snd e)) (nodes g) = true -> merge_node p init g = g.
Proof. unfold merge_node. now intros ->. Qed.

Lemma merge_node_exists p init g :
p init = true -> existsb (fun e => p (snd e)) (nodes (merge_node p init g)) = true.
Proof.
intros Hp. unfold merge_node.
destruct (existsb _ (nodes g)) eqn:E; [exact E|].
simpl. rewrite existsb_app. simpl. now rewrite Hp, orb_true_r.
Qed.

Lemma set_nodes_done p f g :
Forall (fun e => p (snd e) = true -> f (snd e) = snd e) (nodes g) ->
set_nodes p f g = g.
Proof.
unfold set_nodes. destruct g as [ns es]. simpl. intros H. f_equal.
induction H as [|[i n] ns Hn _ IH]; simpl; [reflexivity|].
rewrite IH. f_equal. simpl in Hn.
destruct (p n); [now rewrite Hn|reflexivity].
Qed.

Lemma existsb_bound q g :
existsb (fun e => q (snd e)) (nodes g) = true <-> match_ids q g <> [].
Proof.
unfold match_ids. generalize (nodes g). intros ns.
induction ns as [|[i n] ns IH]; simpl.
- split; [discriminate|intros H; now contradiction H].
- destruct (q n); simpl; [split; [intros _ H; discriminate H|reflexivity]|exact IH].
Qed.

(** *** Deleting *)

Lemma detach_delete_nodes p g :
forallb (fun e => negb (p (snd e))) (nodes (detach_delete p g)) = true.
Proof.
unfold detach_delete. simpl. apply forallb_forall.
intros e H. now apply filter_In in H as [_ H].
Qed.

Lemma detach_delete_edges p g :
no_edge_at (match_ids p g) (detach_delete p g) = true.
Proof.
unfold no_edge_at, detach_delete, touches. simpl. apply forallb_forall.
intros e H. apply filter_In in H as [_ H].
now rewrite negb_orb.
Qed.

End GraphFacts.

(** ** The indexer: choosing the caller *)

Section Caller.
Import Graph Scip.

Lemma In_insert_sorted {A} (le : A -> A -> bool) x y l :
In y (insert_sorted le x l) <-> y = x \/ In y l.
Proof.
induction l as [|z l IH]; simpl; [intuition|].
destruct (le x z); simpl; [intuition|].
rewrite IH. intuition.
Qed.

Lemma In_stable_sort {A} (le : A -> A -> bool) y l :
In y (stable_sort le l) <-> In y l.
Proof.
induction l as [|x l IH]; simpl; [reflexivity|].
rewrite In_insert_sorted, IH. intuition.
Qed.

Lemma head_insert_sorted {A} (le : A -> A -> bool) x l :
head (insert_sorted le x l)
= Some (match head l with
      | Some y => if le x y then x else y
      | None => x
      end).
Proof. destruct l as [|y l]; simpl; [reflexivity|]. now destruct (le x y). Qed.

(** The first element of the sorted list has the smallest key. *)
Lemma head_stable_sort_span l f :
head (stable_sort span_le l) = Some f ->
In f l /\ forall h, In h l -> span f <= span h.
Proof.
revert f. induction l as [|x l IH]; intros f; simpl; [discriminate|].
rewrite head_insert_sorted.
destruct (head (stable_sort span_le l)) as [y|] eqn:E.
- destruct (IH y eq_refl) as [Hy Hmin].
unfold span_le. destruct (span x <=? span y) eqn:Hle; intros [= <-].
+ apply Z.leb_le in Hle. split; [now left|].
  intros h [<-|Hh]; [lia|]. specialize (Hmin h Hh). lia.
+ apply Z.leb_gt in Hle. split; [now right|].
  intros h [<-|Hh]; [lia|]. now apply Hmin.
- intros [= <-]. split; [now left|].
intros h [<-|Hh]; [lia|].
destruct l as [|z l]; [destruct Hh|].
simpl in E. rewrite head_insert_sorted in E. discriminate.
Qed.

Lemma find_caller_some functions ref_line caller :
find_caller functions ref_line = Some caller ->
In caller functions /\ contains_line ref_line caller = true
/\ forall f, In f functions -> contains_line ref_line f = true ->
           span caller <= span f.
Proof.
unfold find_caller.
destruct (filter (contains_line ref_line) functions) as [|c cs] eqn:E; [discriminate|].
intros H. apply head_stable_sort_span in H as [Hin Hmin].
rewrite <- E in Hin, Hmin. apply filter_In in Hin as [Hin Hc].
split; [exact Hin|]. split; [exact Hc|].
intros f Hf Hcf. apply Hmin. now apply filter_In.
Qed.

Lemma find_caller_none functions ref_line :
find_caller functions ref_line = None ->
forall f, In f functions -> contains_line ref_line f = false.
Proof.
unfold find_caller.
destruct (filter (contains_line ref_line) functions) as [|c cs] eqn:E.
- intros _ f Hf. destruct (contains_line ref_line f) eqn:Hc; [|reflexivity].
assert (Hin : In f (filter (contains_line ref_line) functions))
  by now apply filter_In.
rewrite E in Hin. destruct Hin.
- simpl. rewrite head_insert_sorted. discriminate.
Qed.

(** C1.  A reference that is not local is attributed to a function of the
structural parse whose span contains the line of the reference and is
the narrowest of all such spans; the relationship is upserted from that
function.  When no span contains the line, the reference changes
nothing in the graph.  With the spans [1,20] and [5,10] and a reference
on line 7, the caller is the function that spans [5,10]. *)
Theorem reference_attributed_to_narrowest_function :
(forall symbol_map file_path_str functions g ref,
  is_local (symbol ref) = false ->
  match find_caller functions (start_line ref + 1) with
  | Some caller =>
      In caller functions
      /\ contains_line (start_line ref + 1) caller = true
      /\ (forall f, In f functions ->
                    contains_line (start_line ref + 1) f = true ->
                    span caller <= span f)
      /\ process_reference symbol_map file_path_str functions g ref
         = upsert_call symbol_map file_path_str caller (symbol ref) g
  | None =>
      (forall f, In f functions ->
                 contains_line (start_line ref + 1) f = false)
      /\ process_reference symbol_map file_path_str functions g ref = g
  end)
/\ find_caller [mk_func "a" 1 20; mk_func "b" 5 10] 7 = Some (mk_func "b" 5 10).
Proof.
split; [|reflexivity].
intros symbol_map file_path_str functions g ref Hloc.
unfold process_reference. rewrite Hloc.
destruct (find_caller functions (start_line ref + 1)) as [caller|] eqn:E.
- destruct (find_caller_some _ _ _ E) as (H1 & H2 & H3). now repeat split.
- split; [now apply find_caller_none|reflexivity].
Qed.

Lemma reference_attributed_to_narrowest_function_witness :
In SampleIndex.inner [SampleIndex.outer; SampleIndex.inner]
/\ process_reference ∅ "/repo/pkg/m.py" [SampleIndex.outer; SampleIndex.inner]
   SampleIndex.repository SampleIndex.reference
 = upsert_call ∅ "/repo/pkg/m.py" SampleIndex.inner "pkg/helper()."
     SampleIndex.repository.
Proof.
pose proof (proj1 reference_attributed_to_narrowest_function ∅ "/repo/pkg/m.py"
            [SampleIndex.outer; SampleIndex.inner] SampleIndex.repository
            SampleIndex.reference eq_refl) as H.
change (find_caller [SampleIndex.outer; SampleIndex.inner]
        (start_line SampleIndex.reference + 1))
with (Some SampleIndex.inner) in H.
destruct H as (H1 & _ & _ & H4). split; [exact H1|exact H4].
Defined.

(** C8.  A document whose relative path begins with [..] changes nothing
in the graph. *)
Theorem document_outside_root_skipped env symbol_map doc g :
PyStr.startswith (doc_relative_path doc) ".." = true ->
_process_document env symbol_map doc g = g.
Proof. intros H. unfold _process_document. now rewrite H. Qed.

Lemma document_outside_root_skipped_witness :
_process_document SampleIndex.env ∅ SampleIndex.outside SampleIndex.repository
= SampleIndex.repository.
Proof. apply document_outside_root_skipped. reflexivity. Defined.

End Caller.

(** ** The indexer: upserting a relationship *)

Section Calls.
Import Graph GraphNotions Scip.

Lemma In_rows xs ys x y : In (x, y) (rows xs ys) <-> In x xs /\ In y ys.
Proof.
unfold rows. rewrite in_flat_map. split.
- intros (x' & Hx & H). apply in_map_iff in H as (y' & [= -> ->] & Hy). now split.
- intros [Hx Hy]. exists x. split; [exact Hx|]. now apply in_map.
Qed.

Lemma rows_nonempty (xs ys : list nat) : xs <> [] -> ys <> [] -> rows xs ys <> [].
Proof. destruct xs, ys; simpl; congruence. Qed.

Lemma has_edge_In t g r :
has_edge t g r = true <-> exists e, In e (edges g) /\ edge_is (fst r) t (snd r) e = true.
Proof. unfold has_edge. apply existsb_exists. Qed.

Lemma edge_is_in t rs r e :
In r rs -> edge_is (fst r) t (snd r) e = true -> edge_in t rs e = true.
Proof. intros Hr He. unfold edge_in. apply existsb_exists. now exists r. Qed.

Lemma has_symbol_new l s nm p ln :
has_symbol l s (mk_node [l] p None nm (Some s) ln) = true.
Proof. unfold has_symbol, has_label, prop_is. simpl. now rewrite !String.eqb_refl. Qed.

Lemma calls_query_none caller tl ts tn g :
match_ids caller g = [] -> calls_query caller tl ts tn g = (0, g).
Proof. unfold calls_query. now intros ->. Qed.

(** What the query leaves behind when its caller pattern binds a node. *)
Lemma calls_query_some caller tl ts tn g :
match_ids caller g <> [] ->
let g' := snd (calls_query caller tl ts tn g) in
let rs := rows (match_ids caller g) (match_ids (has_symbol tl ts) g') in
0 < fst (calls_query caller tl ts tn g)
/\ g' = verify_edges "CALLS" rs (merge_edges "CALLS" rs
        (merge_node (has_symbol tl ts)
           (mk_node [tl] None None (Some tn) (Some ts) None) g))
/\ match_ids (has_symbol tl ts) g' <> []
/\ Forall (fun r => has_edge "CALLS" g' r = true) rs
/\ Forall (fun e => edge_in "CALLS" rs e = true -> scip_verified e = Some true)
        (edges g').
Proof.
intros Hcs. unfold calls_query.
destruct (match_ids caller g) as [|c cs] eqn:E; [congruence|].
set (g1 := merge_node _ _ g).
set (rs := rows (c :: cs) (match_ids (has_symbol tl ts) g1)).
cbn [fst snd].
assert (Hn : match_ids (has_symbol tl ts) (verify_edges "CALLS" rs (merge_edges "CALLS" rs g1))
           = match_ids (has_symbol tl ts) g1).
{ unfold match_ids. now rewrite nodes_verify_edges, nodes_merge_edges. }
rewrite Hn. fold rs.
assert (Ht : match_ids (has_symbol tl ts) g1 <> []).
{ apply existsb_bound. apply merge_node_exists. apply has_symbol_new. }
assert (He : Forall (fun r => has_edge "CALLS"
                              (verify_edges "CALLS" rs (merge_edges "CALLS" rs g1)) r = true) rs).
{ eapply Forall_impl; [|apply (has_edge_merge_edges "CALLS" rs g1)].
intros r Hr. now rewrite has_edge_verify_edges. }
split; [|split; [reflexivity|split; [exact Ht|split; [exact He|apply verify_edges_verified]]]].
unfold count_edges.
assert (Hrs : rs <> []) by (apply rows_nonempty; [discriminate|exact Ht]).
destruct rs as [|r rs']; [congruence|].
apply Forall_inv in He. apply has_edge_In in He as (e & Hin & Hedge).
assert (Hf : In e (filter (edge_in "CALLS" (r :: rs'))
                   (edges (verify_edges "CALLS" (r :: rs')
                             (merge_edges "CALLS" (r :: rs') g1))))).
{ apply filter_In. split; [exact Hin|]. eapply edge_is_in; [now left|exact Hedge]. }
destruct (filter _ _); [destruct Hf|]. simpl. lia.
Qed.

Lemma calls_query_edges caller tl ts tn g e :
In e (edges (snd (calls_query caller tl ts tn g))) ->
In e (edges g) \/ (rel_type e = "CALLS" /\ scip_verified e = Some true).
Proof.
unfold calls_query. destruct (match_ids caller g) as [|c cs]; [now left|].
cbn [snd]. intros H.
apply In_edges_verify_edges in H as [[H Hn]|H]; [|now right].
apply In_edges_merge_edges in H as [H|(r & Hr & ->)].
- left. now rewrite edges_merge_node in H.
- rewrite (edge_in_new _ _ _ Hr) in Hn. discriminate.
Qed.

(** C4.  The caller is looked up by path and name; when that binds no
node, and only then, it is looked up by path and line of the chosen
function.  Whichever lookup binds callers, a [CALLS] relationship then
joins every bound caller to the target, every such relationship has
[scip_verified] true, and every relationship that the upsert adds or
changes is a [CALLS] relationship with [scip_verified] true. *)
Theorem caller_lookup_by_name_then_line symbol_map file_path_str caller target_symbol g :
let tlabel := target_label symbol_map target_symbol in
let tname := _extract_name target_symbol (symbol_map !! target_symbol) in
let by_name := caller_by_name file_path_str (func_name caller) in
let by_line := caller_by_line file_path_str (func_line_number caller) in
let callers :=
match match_ids by_name g with
| [] => match_ids by_line g
| cs => cs
end in
let g' := upsert_call symbol_map file_path_str caller target_symbol g in
g' = snd (calls_query (match match_ids by_name g with [] => by_line | _ => by_name end)
                    tlabel target_symbol tname g)
/\ (match callers with
  | [] => g' = g
  | _ => match_ids (has_symbol tlabel target_symbol) g' <> []
  end)
/\ Forall (fun r => has_edge "CALLS" g' r = true
                  /\ Forall (fun e => edge_is (fst r) "CALLS" (snd r) e = true ->
                                      scip_verified e = Some true) (edges g'))
        (rows callers (match_ids (has_symbol tlabel target_symbol) g'))
/\ Forall (fun e => In e (edges g)
                  \/ (rel_type e = "CALLS" /\ scip_verified e = Some true))
        (edges g').
Proof.
intros tlabel tname by_name by_line callers g'.
assert (Hkey : forall q, match_ids q g <> [] ->
        let h := snd (calls_query q tlabel target_symbol tname g) in
        match_ids (has_symbol tlabel target_symbol) h <> []
        /\ Forall (fun r => has_edge "CALLS" h r = true
                    /\ Forall (fun e => edge_is (fst r) "CALLS" (snd r) e = true ->
                                        scip_verified e = Some true) (edges h))
             (rows (match_ids q g) (match_ids (has_symbol tlabel target_symbol) h))).
{ intros q Hq h.
destruct (calls_query_some q tlabel target_symbol tname g Hq) as (_ & _ & Ht & He & Hv).
split; [exact Ht|]. fold h in He, Hv.
apply List.Forall_forall. intros r Hr. split.
- now apply (proj1 (List.Forall_forall _ _) He).
- apply List.Forall_forall. intros e Hin Hedge.
  apply (proj1 (List.Forall_forall _ _) Hv e Hin).
  eapply edge_is_in; [exact Hr|exact Hedge]. }
assert (Heq : g' = snd (calls_query
                        (match match_ids by_name g with [] => by_line | _ => by_name end)
                        tlabel target_symbol tname g)).
{ unfold g', upsert_call. fold tlabel tname by_name by_line.
destruct (match_ids by_name g) as [|c cs] eqn:E.
- now rewrite (calls_query_none by_name _ _ _ _ E).
- assert (Hne : match_ids by_name g <> []) by (rewrite E; discriminate).
  destruct (calls_query_some by_name tlabel target_symbol tname g Hne) as (Hpos & _).
  destruct (calls_query by_name tlabel target_symbol tname g) as [created g1].
  simpl in Hpos |- *. destruct (created =? 0) eqn:Ez; [lia|reflexivity]. }
split; [exact Heq|].
split; [|split].
- unfold callers. rewrite Heq.
destruct (match_ids by_name g) as [|c cs] eqn:E.
+ destruct (match_ids by_line g) as [|c cs] eqn:E2.
  * now rewrite (calls_query_none by_line _ _ _ _ E2).
  * apply Hkey. rewrite E2. discriminate.
+ apply Hkey. rewrite E. discriminate.
- unfold callers. rewrite Heq.
destruct (match_ids by_name g) as [|c cs] eqn:E.
+ destruct (match_ids by_line g) as [|c cs] eqn:E2; [constructor|].
  rewrite <- E2. apply Hkey. rewrite E2. discriminate.
+ rewrite <- E. apply Hkey. rewrite E. discriminate.
- rewrite Heq. apply List.Forall_forall. intros e. apply calls_query_edges.
Qed.

Lemma caller_lookup_by_name_then_line_witness :
match_ids (has_symbol "Function" "pkg/helper().")
  (upsert_call ∅ "/repo/pkg/m.py" SampleIndex.inner "pkg/helper()."
     (_process_document SampleIndex.env ∅ SampleIndex.doc SampleIndex.repository))
<> [].
Proof.
pose proof (caller_lookup_by_name_then_line ∅ "/repo/pkg/m.py" SampleIndex.inner
              "pkg/helper()."
              (_process_document SampleIndex.env ∅ SampleIndex.doc SampleIndex.repository))
  as (_ & H2 & _).
vm_compute in H2. vm_compute. exact H2.
Defined.

End Calls.

(** ** The indexer: local symbols *)

Section Locals.
Import Graph GraphNotions Scip.

Lemma bound_add_node q n g : q n = false -> bound q (add_node n g) = bound q g.
Proof.
intros H. unfold bound, add_node. simpl.
rewrite filter_app. simpl. rewrite H. apply app_nil_r.
Qed.

Lemma bound_merge_node q p init g :
q init = false -> bound q (merge_node p init g) = bound q g.
Proof.
intros H. unfold merge_node. destruct (existsb _ _); [reflexivity|].
now apply bound_add_node.
Qed.

Lemma match_ids_merge_node q p init g :
q init = false -> match_ids q (merge_node p init g) = match_ids q g.
Proof. intros H. now rewrite !match_ids_bound, bound_merge_node. Qed.

(** [SET] does not touch what a pattern binds when the pattern does not
  read the properties that are set. *)
Lemma match_ids_set_nodes q p f g :
(forall n, q (f n) = q n) -> match_ids q (set_nodes p f g) = match_ids q g.
Proof.
intros H. unfold match_ids, set_nodes. simpl.
induction (nodes g) as [|[i n] ns IH]; simpl; [reflexivity|].
replace (q (if p n then f n else n)) with (q n) by (destruct (p n); now rewrite ?H).
destruct (q n); simpl; now rewrite IH.
Qed.

Lemma match_ids_merge_edges q t rs g : match_ids q (merge_edges t rs g) = match_ids q g.
Proof. unfold match_ids. now rewrite nodes_merge_edges. Qed.

Lemma match_ids_verify_edges q t rs g : match_ids q (verify_edges t rs g) = match_ids q g.
Proof. reflexivity. Qed.

Lemma locals_file_query p rel nm g : match_ids is_local_node (file_query p rel nm g) = match_ids is_local_node g.
Proof.
unfold file_query.
rewrite match_ids_set_nodes by reflexivity. now apply match_ids_merge_node.
Qed.

Lemma locals_directory_query pl pp cur part g :
match_ids is_local_node (directory_query pl pp cur part g) = match_ids is_local_node g.
Proof.
unfold directory_query. destruct (match_ids _ g); [reflexivity|].
rewrite match_ids_merge_edges, match_ids_set_nodes by reflexivity.
now apply match_ids_merge_node.
Qed.

Lemma locals_link_file_query pl pp fp g : match_ids is_local_node (link_file_query pl pp fp g) = match_ids is_local_node g.
Proof. apply match_ids_merge_edges. Qed.

Lemma locals_link_hierarchy parts :
forall pp pl fp g, match_ids is_local_node (link_hierarchy parts pp pl fp g) = match_ids is_local_node g.
Proof.
induction parts as [|part parts IH]; intros pp pl fp g; simpl.
- apply locals_link_file_query.
- now rewrite IH, locals_directory_query.
Qed.

Lemma locals_definition_query label p sym nm ln g :
is_local sym = false -> match_ids is_local_node (definition_query label p sym nm ln g) = match_ids is_local_node g.
Proof.
intros H. unfold definition_query. destruct (match_ids _ g); [reflexivity|].
rewrite match_ids_merge_edges, match_ids_set_nodes by reflexivity.
apply match_ids_merge_node. exact H.
Qed.

Lemma locals_calls_query caller tl ts tn g :
is_local ts = false -> match_ids is_local_node (snd (calls_query caller tl ts tn g)) = match_ids is_local_node g.
Proof.
intros H. unfold calls_query. destruct (match_ids caller g); [reflexivity|].
cbn [snd]. rewrite match_ids_verify_edges, match_ids_merge_edges.
apply match_ids_merge_node. exact H.
Qed.

Lemma locals_upsert_call symbol_map fp caller ts g :
is_local ts = false -> match_ids is_local_node (upsert_call symbol_map fp caller ts g) = match_ids is_local_node g.
Proof.
intros H. unfold upsert_call.
pose proof (locals_calls_query (caller_by_name fp (func_name caller))
              (target_label symbol_map ts) ts
              (_extract_name ts (symbol_map !! ts)) g H) as H1.
destruct (calls_query (caller_by_name fp (func_name caller)) _ _ _ g) as [created g1].
simpl in H1. destruct (created =? 0); [|exact H1].
now rewrite locals_calls_query.
Qed.

Lemma locals_process_definition symbol_map fp g occ :
match_ids is_local_node (process_definition symbol_map fp g occ) = match_ids is_local_node g.
Proof.
unfold process_definition. destruct (is_local (symbol occ)) eqn:E; [reflexivity|].
now apply locals_definition_query.
Qed.

Lemma locals_process_reference symbol_map fp functions g ref :
match_ids is_local_node (process_reference symbol_map fp functions g ref) = match_ids is_local_node g.
Proof.
unfold process_reference. destruct (is_local (symbol ref)) eqn:E; [reflexivity|].
destruct (find_caller _ _); [|reflexivity]. now apply locals_upsert_call.
Qed.

Lemma locals_fold_left {A} (step : graph -> A -> graph) l :
(forall g x, match_ids is_local_node (step g x) = match_ids is_local_node g) ->
forall g, match_ids is_local_node (fold_left step l g) = match_ids is_local_node g.
Proof.
intros H. induction l as [|x l IH]; intros g; simpl; [reflexivity|].
now rewrite IH, H.
Qed.

(** Processing a document creates no node with a local symbol. *)
Lemma locals_process_document env symbol_map doc g :
match_ids is_local_node (_process_document env symbol_map doc g) = match_ids is_local_node g.
Proof.
unfold _process_document. destruct (PyStr.startswith _ _); [reflexivity|].
unfold link_references.
assert (Hd : forall g0, match_ids is_local_node (fold_left (process_definition symbol_map
                                             (resolve env (doc_relative_path doc)))
                                  (definitions_of doc) g0) = match_ids is_local_node g0)
  by (apply locals_fold_left; intros; apply locals_process_definition).
destruct (ts_parse env (doc_relative_path doc)) as [[|f fs]|].
- now rewrite Hd, !locals_link_hierarchy, locals_file_query.
- rewrite locals_fold_left by (intros; apply locals_process_reference).
  now rewrite Hd, !locals_link_hierarchy, locals_file_query.
- now rewrite Hd, !locals_link_hierarchy, locals_file_query.
Qed.

(** C2.  After an ingestion run no node has a symbol that begins with
  [local], and no relationship starts or ends at a node that had one
  before the final cleanup.  On the way, a definition or a reference with
  a local symbol changes nothing in the graph, and processing a document
  adds no node with a local symbol to those that the graph already had. *)
Theorem local_symbols_never_remain env index g :
no_local_nodes is_local_node (ingest_index env index g) = true
/\ no_edge_at (match_ids is_local_node (process_documents env index g))
              (ingest_index env index g) = true
/\ (forall symbol_map doc g0,
       match_ids is_local_node (_process_document env symbol_map doc g0)
       = match_ids is_local_node g0)
/\ (forall symbol_map fp functions g0 occ,
       is_local (symbol occ) = true ->
       process_definition symbol_map fp g0 occ = g0
       /\ process_reference symbol_map fp functions g0 occ = g0).
Proof.
split; [|split; [|split]].
- apply detach_delete_nodes.
- apply detach_delete_edges.
- intros. apply locals_process_document.
- intros symbol_map fp functions g0 occ H.
  unfold process_definition, process_reference. now rewrite H.
Qed.

Lemma local_symbols_never_remain_witness :
process_reference ∅ "/repo/pkg/m.py" [SampleIndex.outer; SampleIndex.inner]
  SampleIndex.repository (mk_occ 7 12 [13] "local 3" 0)
= SampleIndex.repository.
Proof.
apply (proj2 (proj2 (proj2 (local_symbols_never_remain SampleIndex.env SampleIndex.index
                              SampleIndex.repository)))
         ∅ "/repo/pkg/m.py" [SampleIndex.outer; SampleIndex.inner]
         SampleIndex.repository (mk_occ 7 12 [13] "local 3" 0) eq_refl).
Defined.

End Locals.

(** ** Re-ingesting a document *)

Section Frames.
Import Graph GraphNotions Scip Reingest.

Lemma Forall_bound (P : nat * node -> Prop) q g :
  Forall P (bound q g) <-> Forall (fun e => q (snd e) = true -> P e) (nodes g).
Proof.
  unfold bound. induction (nodes g) as [|e ns IH]; simpl.
  - split; constructor.
  - destruct (q (snd e)) eqn:E.
    + split; intros H; inversion H; subst; constructor; auto; now apply IH.
    + split; intros H.
      * constructor; [congruence|now apply IH].
      * inversion H; subst. now apply IH.
Qed.

Lemma bound_set_nodes q p f g :
  Forall (fun e => p (snd e) = true -> q (snd e) = false /\ q (f (snd e)) = false)
         (nodes g) ->
  bound q (set_nodes p f g) = bound q g.
Proof.
  unfold bound, set_nodes. simpl.
  induction 1 as [|[i n] ns Hn _ IH]; simpl; [reflexivity|].
  rewrite IH. simpl in Hn. destruct (p n).
  - destruct (Hn eq_refl) as [-> ->]. reflexivity.
  - reflexivity.
Qed.

Lemma bound_merge_edges q t rs g : bound q (merge_edges t rs g) = bound q g.
Proof. unfold bound. now rewrite nodes_merge_edges. Qed.

Lemma bound_verify_edges q t rs g : bound q (verify_edges t rs g) = bound q g.
Proof. reflexivity. Qed.

Lemma match_ids_nonempty_bound q g : match_ids q g <> [] <-> bound q g <> [].
Proof. rewrite match_ids_bound. destruct (bound q g); simpl; split; congruence. Qed.

(** *** Labels *)

Lemma has_label_single l l' : has_label l (mk_node [l'] None None None None None) = String.eqb l l'.
Proof. unfold has_label. simpl. apply orb_false_r. Qed.

Lemma has_label_In l n : has_label l n = true <-> In l (labels n).
Proof.
  unfold has_label. rewrite existsb_exists. split.
  - intros (x & Hx & E). apply String.eqb_eq in E. now subst.
  - intros H. exists l. split; [exact H|apply String.eqb_refl].
Qed.

Lemma apart_single l p r nm s ln : apart (mk_node [l] p r nm s ln).
Proof.
  intros l' _ H. apply has_label_In in H. simpl in H.
  destruct H as [->|[]]. reflexivity.
Qed.

(** A node with a structural label has no symbol label. *)
Lemma apart_other n l l' :
  apart n -> In l structural_labels -> l' <> l ->
  has_label l n = true -> has_label l' n = false.
Proof.
  intros Ha Hl Hne H. destruct (has_label l' n) eqn:E; [|reflexivity].
  unfold has_label in E. rewrite (Ha l Hl H) in E. simpl in E.
  rewrite orb_false_r in E. apply String.eqb_eq in E. congruence.
Qed.

Lemma symbol_not_structural l :
  In l symbol_labels -> forall l', In l' structural_labels -> l <> l'.
Proof.
  intros H l' H'. simpl in H, H'.
  repeat (destruct H as [<-|H]; [repeat (destruct H' as [<-|H']; [discriminate|]); destruct H'|]).
  destruct H.
Qed.

Lemma infer_label_symbol s : In (_infer_label_from_symbol s) symbol_labels.
Proof.
  unfold _infer_label_from_symbol, symbol_labels.
  repeat match goal with |- context [if ?b then _ else _] => destruct b end;
    simpl; tauto.
Qed.

Lemma KIND_TO_LABEL_symbol k l : KIND_TO_LABEL k = Some l -> In l symbol_labels.
Proof.
  unfold KIND_TO_LABEL, symbol_labels.
  repeat match goal with |- context [if ?b then _ else _] => destruct b end;
    intros [= <-]; simpl; tauto.
Qed.

Lemma definition_label_symbol m s : In (definition_label m s) symbol_labels.
Proof.
  unfold definition_label.
  set (k := match m !! s with Some i => kind i | None => 0 end).
  pose proof (infer_label_symbol s) as Hi.
  destruct (KIND_TO_LABEL k) as [l|] eqn:E.
  - apply KIND_TO_LABEL_symbol in E. simpl in E.
    repeat (destruct E as [<-|E]; [cbn; try (simpl; tauto)|]); try destruct E.
    destruct (negb (_infer_label_from_symbol s =? "Symbol")%string); cbn.
    + destruct (PyStr.truthy (_infer_label_from_symbol s)) eqn:T; [exact Hi|simpl; tauto].
    + simpl. tauto.
  - destruct (negb (_infer_label_from_symbol s =? "Symbol")%string); cbn.
    + destruct (PyStr.truthy (_infer_label_from_symbol s)) eqn:T; [exact Hi|simpl; tauto].
    + simpl. tauto.
Qed.

Lemma target_label_symbol m s : In (target_label m s) symbol_labels.
Proof.
  unfold target_label.
  set (k := match m !! s with Some i => kind i | None => 0 end).
  pose proof (infer_label_symbol s) as Hi.
  destruct (KIND_TO_LABEL k) as [l|] eqn:E; cbn.
  - apply KIND_TO_LABEL_symbol in E.
    destruct (l =? "Symbol")%string; [|exact E].
    destruct (negb _); [exact Hi|exact E].
  - destruct (negb _); [exact Hi|simpl; tauto].
Qed.

End Frames.

Section Structure.
Import Graph GraphNotions Scip Reingest.

(** *** Structural nodes stay apart *)

Lemma apart_labels n n' : labels n' = labels n -> apart n -> apart n'.
Proof.
  intros E H l Hl Hh. rewrite E. apply (H l Hl).
  unfold has_label in *. now rewrite <- E.
Qed.

Lemma apart_merge_node p init g :
  apart init -> structural_apart g -> structural_apart (merge_node p init g).
Proof.
  intros Hi Hg. unfold merge_node. destruct (existsb _ _); [exact Hg|].
  unfold structural_apart, add_node. simpl. apply Forall_app. split; [exact Hg|].
  constructor; [exact Hi|constructor].
Qed.

Lemma apart_set_nodes p f g :
  (forall n, labels (f n) = labels n) ->
  structural_apart g -> structural_apart (set_nodes p f g).
Proof.
  intros Hf Hg. unfold structural_apart, set_nodes. simpl.
  apply Forall_map. eapply Forall_impl; [|exact Hg].
  intros [i n] Hn. simpl in *. destruct (p n); [|exact Hn].
  eapply apart_labels; [apply Hf|exact Hn].
Qed.

Lemma apart_merge_edges t rs g :
  structural_apart g -> structural_apart (merge_edges t rs g).
Proof. unfold structural_apart. now rewrite nodes_merge_edges. Qed.

Lemma apart_file_query p rel nm g :
  structural_apart g -> structural_apart (file_query p rel nm g).
Proof.
  intros H. unfold file_query. apply apart_set_nodes; [reflexivity|].
  apply apart_merge_node; [apply apart_single|exact H].
Qed.

Lemma apart_directory_query pl pp cur part g :
  structural_apart g -> structural_apart (directory_query pl pp cur part g).
Proof.
  intros H. unfold directory_query. destruct (match_ids _ g) as [|c0 cs0]; [exact H|].
  apply apart_merge_edges, apart_set_nodes; [reflexivity|].
  apply apart_merge_node; [apply apart_single|exact H].
Qed.

Lemma apart_definition_query l p s nm ln g :
  structural_apart g -> structural_apart (definition_query l p s nm ln g).
Proof.
  intros H. unfold definition_query. destruct (match_ids _ g) as [|c0 cs0]; [exact H|].
  apply apart_merge_edges, apart_set_nodes; [reflexivity|].
  apply apart_merge_node; [apply apart_single|exact H].
Qed.

Lemma apart_calls_query caller tl ts tn g :
  structural_apart g -> structural_apart (snd (calls_query caller tl ts tn g)).
Proof.
  intros H. unfold calls_query. destruct (match_ids caller g) as [|c0 cs0]; [exact H|].
  cbn [snd]. unfold structural_apart. rewrite nodes_verify_edges.
  apply apart_merge_edges, apart_merge_node; [apply apart_single|exact H].
Qed.

Lemma run_ref_step_calls fp g r :
  run_ref_step fp g r
  = snd (calls_query
           (match match_ids (caller_by_name fp (func_name (rf_caller r))) g with
            | [] => caller_by_line fp (func_line_number (rf_caller r))
            | _ => caller_by_name fp (func_name (rf_caller r))
            end) (rf_label r) (rf_symbol r) (rf_name r) g).
Proof.
  unfold run_ref_step.
  destruct (match_ids (caller_by_name fp (func_name (rf_caller r))) g) as [|c cs] eqn:E.
  - now rewrite (calls_query_none _ _ _ _ _ E).
  - assert (Hne : match_ids (caller_by_name fp (func_name (rf_caller r))) g <> [])
      by (rewrite E; discriminate).
    destruct (calls_query_some _ (rf_label r) (rf_symbol r) (rf_name r) g Hne) as (Hpos & _).
    destruct (calls_query _ _ _ _ g) as [created g1].
    simpl in Hpos |- *. destruct (created =? 0) eqn:Ez; [lia|reflexivity].
Qed.

Lemma apart_run_ref_step fp g r :
  structural_apart g -> structural_apart (run_ref_step fp g r).
Proof. intros H. rewrite run_ref_step_calls. now apply apart_calls_query. Qed.

(** *** Extensions that keep the structural nodes *)

Lemma struct_ext_refl but g : struct_ext but g g.
Proof. split; auto. Qed.

Lemma struct_ext_trans but g1 g2 g3 :
  struct_ext but g1 g2 -> struct_ext but g2 g3 -> struct_ext but g1 g3.
Proof.
  intros [H1 E1] [H2 E2]. split.
  - intros l p Hl Hb. now rewrite H2, H1.
  - auto.
Qed.

Lemma struct_ext_weaken but g g' : struct_ext None g g' -> struct_ext but g g'.
Proof.
  intros [H E]. split; [|exact E].
  intros l p Hl _. apply H; [exact Hl|discriminate].
Qed.

Lemma struct_ext_merge_node but q init g :
  (forall l p, In l structural_labels -> (but = Some p -> l <> "Directory") ->
               is_labelled_at l p init = false) ->
  struct_ext but g (merge_node q init g).
Proof.
  intros H. split.
  - intros l p Hl Hb. apply bound_merge_node. now apply H.
  - intros t r. unfold has_edge. now rewrite edges_merge_node.
Qed.

Lemma struct_ext_set_nodes but u f g :
  Forall (fun e => u (snd e) = true ->
                   forall l p, In l structural_labels ->
                               (but = Some p -> l <> "Directory") ->
                               is_labelled_at l p (snd e) = false
                               /\ is_labelled_at l p (f (snd e)) = false) (nodes g) ->
  struct_ext but g (set_nodes u f g).
Proof.
  intros H. split.
  - intros l p Hl Hb. apply bound_set_nodes.
    eapply Forall_impl; [|exact H]. intros e He Hu. now apply He.
  - intros t r. unfold has_edge. now rewrite edges_set_nodes.
Qed.

Lemma struct_ext_merge_edges but t rs g : struct_ext but g (merge_edges t rs g).
Proof.
  split.
  - intros l p _ _. apply bound_merge_edges.
  - intros t' r. apply has_edge_merge_edges_mono.
Qed.

Lemma struct_ext_verify_edges but t rs g : struct_ext but g (verify_edges t rs g).
Proof.
  split.
  - reflexivity.
  - intros t' r. now rewrite has_edge_verify_edges.
Qed.

Lemma is_labelled_at_single l p l' p' r nm s ln :
  is_labelled_at l p (mk_node [l'] p' r nm s ln) = String.eqb l l' && prop_is p' p.
Proof. unfold is_labelled_at, has_label. simpl. now rewrite orb_false_r. Qed.

Lemma struct_ext_directory_query pl pp cur part g :
  structural_apart g ->
  struct_ext (Some cur) g (directory_query pl pp cur part g).
Proof.
  intros Hg. unfold directory_query. destruct (match_ids _ g) as [|c0 cs0]; [apply struct_ext_refl|].
  eapply struct_ext_trans; [|apply struct_ext_merge_edges].
  eapply struct_ext_trans.
  - apply (struct_ext_merge_node _ (is_labelled_at "Directory" cur)
             (mk_node ["Directory"] (Some cur) None None None None)).
    intros l p Hl Hb.
    rewrite is_labelled_at_single. simpl.
    destruct (String.eqb_spec l "Directory") as [->|Hne]; [|reflexivity].
    destruct (String.eqb_spec cur p) as [->|Hp]; [|reflexivity].
    now destruct (Hb eq_refl).
  - apply struct_ext_set_nodes.
    assert (Hg' : structural_apart
                    (merge_node (is_labelled_at "Directory" cur)
                       (mk_node ["Directory"] (Some cur) None None None None) g))
      by (apply apart_merge_node; [apply apart_single|exact Hg]).
    eapply Forall_impl; [|exact Hg'].
    intros [i n] Ha Hu l p Hl Hb. simpl in *.
    assert (E : is_labelled_at l p n = false).
    { unfold is_labelled_at in Hu |- *. apply andb_prop in Hu as [Hd Hp].
      apply andb_false_iff.
      destruct (String.eqb_spec l "Directory") as [->|Hne].
      - right. destruct (path n) as [x|]; simpl in *; [|reflexivity].
        apply String.eqb_eq in Hp. subst x.
        destruct (String.eqb_spec cur p) as [->|Hcp]; [now destruct (Hb eq_refl)|reflexivity].
      - left. apply (apart_other n "Directory" l Ha); auto. right. now left. }
    split; exact E.
Qed.

Lemma struct_ext_symbol_set l s f g :
  In l symbol_labels -> (forall n, labels (f n) = labels n) -> structural_apart g ->
  struct_ext None g (set_nodes (has_symbol l s) f g).
Proof.
  intros Hl Hf Hg. apply struct_ext_set_nodes.
  eapply Forall_impl; [|exact Hg].
  intros [i n] Ha Hu l' p Hl' _. simpl in *.
  unfold has_symbol in Hu. apply andb_prop in Hu as [Hu _].
  assert (Hn : has_label l' n = false).
  { destruct (has_label l' n) eqn:E; [|reflexivity].
    rewrite (apart_other n l' l Ha Hl') in Hu; [discriminate| |exact E].
    now apply symbol_not_structural. }
  unfold is_labelled_at. unfold has_label in Hn |- *. rewrite Hf, Hn. now split.
Qed.

Lemma struct_ext_symbol_node l q p r nm s ln g :
  In l symbol_labels -> struct_ext None g (merge_node q (mk_node [l] p r nm s ln) g).
Proof.
  intros Hl. apply struct_ext_merge_node. intros l' p' Hl' _.
  rewrite is_labelled_at_single.
  destruct (String.eqb_spec l' l) as [->|]; [|reflexivity].
  now destruct (symbol_not_structural l Hl l Hl').
Qed.

Lemma struct_ext_definition_query l p s nm ln g :
  In l symbol_labels -> structural_apart g ->
  struct_ext None g (definition_query l p s nm ln g).
Proof.
  intros Hl Hg. unfold definition_query. destruct (match_ids _ g) as [|c0 cs0]; [apply struct_ext_refl|].
  eapply struct_ext_trans; [|apply struct_ext_merge_edges].
  eapply struct_ext_trans;
    [apply (struct_ext_symbol_node l (has_symbol l s) None None None (Some s) None g Hl)|].
  apply struct_ext_symbol_set; [exact Hl|reflexivity|].
  apply apart_merge_node; [apply apart_single|exact Hg].
Qed.

Lemma struct_ext_calls_query caller tl ts tn g :
  In tl symbol_labels -> struct_ext None g (snd (calls_query caller tl ts tn g)).
Proof.
  intros Hl. unfold calls_query. destruct (match_ids caller g) as [|c0 cs0]; [apply struct_ext_refl|].
  cbn [snd].
  eapply struct_ext_trans; [|apply struct_ext_verify_edges].
  eapply struct_ext_trans; [|apply struct_ext_merge_edges].
  now apply struct_ext_symbol_node.
Qed.

Lemma struct_ext_run_ref_step fp g r :
  In (rf_label r) symbol_labels -> struct_ext None g (run_ref_step fp g r).
Proof. intros H. rewrite run_ref_step_calls. now apply struct_ext_calls_query. Qed.

Lemma struct_ext_link_file_query but pl pp fp g :
  struct_ext but g (link_file_query pl pp fp g).
Proof. apply struct_ext_merge_edges. Qed.

End Structure.

Section Hierarchy.
Import Graph GraphNotions Scip Reingest.

Lemma set_nodes_sets q f (P : node -> Prop) g :
  (forall n, P (f n)) ->
  (forall n, q (f n) = q n) ->
  Forall (fun e => P (snd e)) (bound q (set_nodes q f g)).
Proof.
  intros HP Hq. apply Forall_bound. unfold set_nodes. simpl.
  apply List.Forall_forall. intros e' Hin Hqe.
  apply in_map_iff in Hin as ([i n] & <- & _). simpl in *.
  destruct (q n) eqn:E; [apply HP|congruence].
Qed.

Lemma nonempty_ext q g g' : bound q g' = bound q g -> match_ids q g' = match_ids q g.
Proof. intros H. now rewrite !match_ids_bound, H. Qed.

(** *** The file node *)

Lemma file_query_establishes p rel nm g : file_done p rel nm (file_query p rel nm g).
Proof.
  unfold file_query, file_done. split.
  - rewrite match_ids_set_nodes by reflexivity.
    apply existsb_bound. apply merge_node_exists.
    unfold is_file, has_label, prop_is. simpl. now rewrite String.eqb_refl.
  - apply (set_nodes_sets (is_file p) _
             (fun n => relative_path n = Some rel /\ name n = Some nm)).
    + intros n. now split.
    + reflexivity.
Qed.

Lemma file_query_done p rel nm g : file_done p rel nm g -> file_query p rel nm g = g.
Proof.
  intros [Hne Hall]. unfold file_query.
  rewrite merge_node_done by now apply existsb_bound.
  apply set_nodes_done. apply Forall_bound in Hall.
  eapply Forall_impl; [|exact Hall].
  intros [i n] H Hq. simpl in *. destruct (H Hq) as [H1 H2].
  destruct n. simpl in *. now rewrite H1, H2.
Qed.

Lemma file_done_ext but p rel nm g g' :
  file_done p rel nm g -> struct_ext but g g' -> file_done p rel nm g'.
Proof.
  intros [Hne Hall] [Hb _].
  assert (E : bound (is_file p) g' = bound (is_file p) g).
  { apply (Hb "File" p); [now left|discriminate]. }
  unfold file_done. now rewrite (nonempty_ext _ _ _ E), E.
Qed.

(** *** One directory *)

Lemma dir_step_establishes g s : self_ok s -> dir_done (run_dir_step g s) s.
Proof.
  intros Hself. unfold run_dir_step, directory_query, dir_done.
  destruct s as [pl pp cur part]. unfold self_ok in Hself.
  cbn [ds_parent_label ds_parent_path ds_path ds_part] in *.
  destruct (match_ids (is_labelled_at pl pp) g) as [|c0 cs0] eqn:E; [now left|].
  right.
  set (init := mk_node ["Directory"] (Some cur) None None None None).
  set (g1 := merge_node (is_labelled_at "Directory" cur) init g).
  set (f := fun n => mk_node (labels n) (path n) (relative_path n) (Some part)
                             (scip_symbol n) (line_number n)).
  set (g2 := set_nodes (is_labelled_at "Directory" cur) f g1).
  set (rs := rows (c0 :: cs0) (match_ids (is_labelled_at "Directory" cur) g1)).
  assert (Hd : match_ids (is_labelled_at "Directory" cur) (merge_edges "CONTAINS" rs g2)
               = match_ids (is_labelled_at "Directory" cur) g1).
  { rewrite match_ids_merge_edges. now apply match_ids_set_nodes. }
  assert (Hp : match_ids (is_labelled_at pl pp) (merge_edges "CONTAINS" rs g2) = c0 :: cs0).
  { rewrite match_ids_merge_edges. unfold g2.
    rewrite match_ids_set_nodes by reflexivity. rewrite <- E.
    apply match_ids_merge_node. unfold init. rewrite is_labelled_at_single. simpl.
    destruct (String.eqb_spec pl "Directory") as [->|]; [|reflexivity].
    destruct (String.eqb_spec cur pp) as [->|]; [now destruct (Hself eq_refl)|reflexivity]. }
  rewrite Hd, Hp. fold rs. split; [|split].
  - apply existsb_bound. apply merge_node_exists.
    unfold init. rewrite is_labelled_at_single. simpl. now rewrite !String.eqb_refl.
  - rewrite bound_merge_edges.
    apply (set_nodes_sets _ f (fun n => name n = Some part)); reflexivity.
  - apply has_edge_merge_edges.
Qed.

Lemma dir_step_done g s : dir_done g s -> run_dir_step g s = g.
Proof.
  unfold run_dir_step, directory_query, dir_done.
  destruct s as [pl pp cur part].
  cbn [ds_parent_label ds_parent_path ds_path ds_part].
  intros [->|(Hne & Hnames & Hedges)]; [reflexivity|].
  destruct (match_ids (is_labelled_at pl pp) g) as [|c0 cs0] eqn:E; [reflexivity|].
  rewrite merge_node_done by now apply existsb_bound.
  rewrite set_nodes_done.
  - now apply merge_edges_done.
  - apply Forall_bound in Hnames. eapply Forall_impl; [|exact Hnames].
    intros [i n] H Hq. simpl in *. specialize (H Hq). destruct n. simpl in *. now rewrite H.
Qed.

Lemma Forall_has_edge_ext t g g' rs :
  (forall r, has_edge t g r = true -> has_edge t g' r = true) ->
  Forall (fun r => has_edge t g r = true) rs ->
  Forall (fun r => has_edge t g' r = true) rs.
Proof. intros H. apply Forall_impl. exact H. Qed.

Lemma dir_done_ext but g g' s :
  dir_done g s -> In (ds_parent_label s) structural_labels ->
  struct_ext but g g' ->
  (forall p', but = Some p' ->
              p' <> ds_path s
              /\ (ds_parent_label s = "Directory" -> p' <> ds_parent_path s)) ->
  dir_done g' s.
Proof.
  intros Hd Hl [Hb He] Hbut. unfold dir_done in *.
  assert (Ep : bound (is_labelled_at (ds_parent_label s) (ds_parent_path s)) g'
               = bound (is_labelled_at (ds_parent_label s) (ds_parent_path s)) g).
  { apply Hb; [exact Hl|]. intros -> E. now apply (proj2 (Hbut _ eq_refl)). }
  assert (Ed : bound (is_labelled_at "Directory" (ds_path s)) g'
               = bound (is_labelled_at "Directory" (ds_path s)) g).
  { apply Hb; [right; now left|]. intros ->. now destruct (proj1 (Hbut _ eq_refl)). }
  rewrite (nonempty_ext _ _ _ Ep), (nonempty_ext _ _ _ Ed), Ed.
  destruct Hd as [Hd|(H1 & H2 & H3)]; [now left|right].
  split; [exact H1|]. split; [exact H2|].
  eapply Forall_has_edge_ext; [apply He|exact H3].
Qed.

(** *** The link to the file *)

Lemma link_file_establishes pl pp fp g : link_done pl pp fp (link_file_query pl pp fp g).
Proof.
  unfold link_done, link_file_query. rewrite !match_ids_merge_edges.
  apply has_edge_merge_edges.
Qed.

Lemma link_file_done pl pp fp g : link_done pl pp fp g -> link_file_query pl pp fp g = g.
Proof. apply merge_edges_done. Qed.

Lemma link_done_ext pl pp fp g g' :
  link_done pl pp fp g -> In pl structural_labels -> struct_ext None g g' ->
  link_done pl pp fp g'.
Proof.
  intros Hd Hl [Hb He]. unfold link_done in *.
  rewrite (nonempty_ext (is_labelled_at pl pp) g g'), (nonempty_ext (is_file fp) g g').
  - eapply Forall_has_edge_ext; [apply He|exact Hd].
  - apply (Hb "File" fp); [now left|discriminate].
  - apply Hb; [exact Hl|discriminate].
Qed.

End Hierarchy.

Section Chain.
Import Graph GraphNotions Scip Reingest.

(** *** The directory loop *)

Lemma link_hierarchy_chain parts :
  forall pp pl fp g,
    link_hierarchy parts pp pl fp g
    = link_file_query (fst (last_parent parts pp pl)) (snd (last_parent parts pp pl)) fp
        (fold_left run_dir_step (dir_chain parts pp pl) g).
Proof.
  induction parts as [|part parts IH]; intros pp pl fp g; simpl; [reflexivity|].
  now rewrite IH.
Qed.

Lemma apart_fold_dirs c : forall g,
  structural_apart g -> structural_apart (fold_left run_dir_step c g).
Proof.
  induction c as [|s c IH]; intros g H; simpl; [exact H|].
  apply IH. now apply apart_directory_query.
Qed.

Lemma struct_ext_dir_step g s :
  structural_apart g -> struct_ext (Some (ds_path s)) g (run_dir_step g s).
Proof. apply struct_ext_directory_query. Qed.

Lemma dir_done_fold s c : forall g,
  dir_done g s -> In (ds_parent_label s) structural_labels ->
  Forall (later_ok s) c -> structural_apart g ->
  dir_done (fold_left run_dir_step c g) s.
Proof.
  induction c as [|s' c IH]; intros g Hd Hl Hok Hg; simpl; [exact Hd|].
  inversion Hok as [|? ? [H1 H2] Hok']; subst.
  apply IH; [|exact Hl|exact Hok'|now apply apart_directory_query].
  eapply dir_done_ext; [exact Hd|exact Hl|now apply struct_ext_dir_step|].
  intros p' [= <-]. split; [exact H1|exact H2].
Qed.

Lemma fold_dirs_establishes c : forall g,
  chain_ok c -> structural_apart g ->
  Forall (dir_done (fold_left run_dir_step c g)) c.
Proof.
  induction c as [|s c IH]; intros g (Hord & Hself & Hlab) Hg; simpl; [constructor|].
  inversion Hord as [|? ? Hlater Hord']; subst.
  inversion Hself as [|? ? Hs Hself']; subst.
  inversion Hlab as [|? ? Hl Hlab']; subst.
  constructor.
  - apply dir_done_fold; [now apply dir_step_establishes|exact Hl|exact Hlater|].
    now apply apart_directory_query.
  - apply IH; [now repeat split|now apply apart_directory_query].
Qed.

Lemma fold_dirs_done c g :
  Forall (dir_done g) c -> fold_left run_dir_step c g = g.
Proof.
  induction 1 as [|s c Hs _ IH]; simpl; [reflexivity|].
  now rewrite (dir_step_done g s Hs).
Qed.

Lemma file_done_fold_dirs p rel nm c : forall g,
  file_done p rel nm g -> structural_apart g ->
  file_done p rel nm (fold_left run_dir_step c g).
Proof.
  induction c as [|s c IH]; intros g Hf Hg; simpl; [exact Hf|].
  apply IH; [|now apply apart_directory_query].
  eapply file_done_ext; [exact Hf|now apply struct_ext_dir_step].
Qed.

Lemma last_parent_label parts : forall pp pl,
  In pl structural_labels -> In (fst (last_parent parts pp pl)) structural_labels.
Proof.
  induction parts as [|part parts IH]; intros pp pl H; simpl; [exact H|].
  apply IH. right. now left.
Qed.

Lemma apart_link_hierarchy parts pp pl fp g :
  structural_apart g -> structural_apart (link_hierarchy parts pp pl fp g).
Proof.
  intros H. rewrite link_hierarchy_chain. unfold link_file_query.
  now apply apart_merge_edges, apart_fold_dirs.
Qed.

Lemma hierarchy_establishes parts pp pl fp g :
  chain_ok (dir_chain parts pp pl) -> structural_apart g ->
  hierarchy_done parts pp pl fp (link_hierarchy parts pp pl fp g).
Proof.
  intros Hc Hg. rewrite link_hierarchy_chain. split.
  - pose proof (fold_dirs_establishes _ g Hc Hg) as Hd.
    destruct Hc as (_ & _ & Hlab).
    apply List.Forall_forall. intros s Hs.
    eapply dir_done_ext.
    + exact (proj1 (List.Forall_forall _ _) Hd s Hs).
    + exact (proj1 (List.Forall_forall _ _) Hlab s Hs).
    + apply (struct_ext_link_file_query None).
    + discriminate.
  - apply link_file_establishes.
Qed.

Lemma hierarchy_noop parts pp pl fp g :
  hierarchy_done parts pp pl fp g -> link_hierarchy parts pp pl fp g = g.
Proof.
  intros [Hd Hl]. rewrite link_hierarchy_chain, (fold_dirs_done _ _ Hd).
  now apply link_file_done.
Qed.

Lemma hierarchy_done_ext parts pp pl fp g g' :
  hierarchy_done parts pp pl fp g -> chain_ok (dir_chain parts pp pl) ->
  In pl structural_labels -> struct_ext None g g' ->
  hierarchy_done parts pp pl fp g'.
Proof.
  intros [Hd Hl] (_ & _ & Hlab) Hpl Hx. split.
  - apply List.Forall_forall. intros s Hs.
    eapply dir_done_ext; [|exact (proj1 (List.Forall_forall _ _) Hlab s Hs)|exact Hx|discriminate].
    exact (proj1 (List.Forall_forall _ _) Hd s Hs).
  - eapply link_done_ext; [exact Hl|now apply last_parent_label|exact Hx].
Qed.

Lemma file_done_link_hierarchy p rel nm parts pp pl fp g :
  file_done p rel nm g -> structural_apart g ->
  file_done p rel nm (link_hierarchy parts pp pl fp g).
Proof.
  intros Hf Hg. rewrite link_hierarchy_chain.
  apply (file_done_ext None p rel nm (fold_left run_dir_step (dir_chain parts pp pl) g)).
  - now apply file_done_fold_dirs.
  - apply struct_ext_link_file_query.
Qed.

(** *** The chain of paths *)

Lemma length_append a b :
  String.length (String.append a b) = (String.length a + String.length b)%nat.
Proof. induction a as [|c a IH]; simpl; [reflexivity|now rewrite IH]. Qed.

Lemma join_plain_longer pp part :
  plain part -> (String.length pp < String.length (PyPath.join pp part))%nat.
Proof.
  intros [Ht Hs]. unfold PyPath.join. rewrite Hs.
  assert (0 < String.length part)%nat by (destruct part; [discriminate|simpl; lia]).
  destruct (_ || _); rewrite !length_append; simpl; lia.
Qed.

Lemma chain_lengths parts :
  Forall plain parts -> forall pp pl,
    Forall (fun s => (String.length pp < String.length (ds_path s))%nat
                     /\ (String.length pp <= String.length (ds_parent_path s))%nat)
           (dir_chain parts pp pl).
Proof.
  induction 1 as [|part parts Hp _ IH]; intros pp pl; simpl; constructor.
  - simpl. split; [now apply join_plain_longer|lia].
  - pose proof (join_plain_longer pp part Hp) as Hlt.
    eapply Forall_impl; [|apply IH]. intros s [H1 H2]. split; lia.
Qed.

Lemma length_neq (a b : string) : String.length a <> String.length b -> a <> b.
Proof. congruence. Qed.

Lemma chain_ok_plain parts :
  Forall plain parts -> forall pp pl,
    In pl structural_labels -> chain_ok (dir_chain parts pp pl).
Proof.
  induction 1 as [|part parts Hp Hps IH]; intros pp pl Hpl; simpl.
  - repeat split; constructor.
  - destruct (IH (PyPath.join pp part) "Directory") as (Ho & Hs & Hl); [right; now left|].
    pose proof (join_plain_longer pp part Hp) as Hlt.
    pose proof (chain_lengths parts Hps (PyPath.join pp part) "Directory") as Hlen.
    split; [|split].
    + constructor; [|exact Ho].
      eapply Forall_impl; [|exact Hlen]. intros s [H1 H2].
      split; simpl; [|intros _]; apply length_neq; lia.
    + constructor; [|exact Hs]. intros _. simpl. apply length_neq. lia.
    + constructor; [exact Hpl|exact Hl].
Qed.

(** The first component of a path may be its root; the others extend what
    comes before them. *)
Lemma chain_ok_repository parts repo :
  Forall plain (tl parts) -> chain_ok (dir_chain parts repo "Repository").
Proof.
  destruct parts as [|part parts]; simpl; intros Hps.
  - repeat split; constructor.
  - destruct (chain_ok_plain parts Hps (PyPath.join repo part) "Directory")
      as (Ho & Hs & Hl); [right; now left|].
    pose proof (chain_lengths parts Hps (PyPath.join repo part) "Directory") as Hlen.
    split; [|split].
    + constructor; [|exact Ho].
      eapply Forall_impl; [|exact Hlen]. intros s [H1 H2].
      split; simpl; [apply length_neq; lia|discriminate].
    + constructor; [|exact Hs]. intros H. discriminate H.
    + constructor; [|exact Hl]. right. right. now left.
Qed.

Lemma split_char_no_slash s :
  Forall (fun c => PyStr.startswith c "/" = false) (PyStr.split_char "/" s).
Proof.
  induction s as [|c s IH]; simpl; [repeat constructor|].
  destruct (PyStr.split_char "/" s) as [|piece pieces]; [repeat constructor|].
  inversion IH; subst.
  destruct (Ascii.eqb_spec c "/"%char) as [->|Hne].
  - constructor; [reflexivity|]. now constructor.
  - constructor; [|assumption].
    unfold PyStr.startswith. cbn -[Ascii.ascii_dec].
    destruct (Ascii.ascii_dec "/"%char c) as [E|E]; [congruence|reflexivity].
Qed.

Lemma Forall_removelast {A} (P : A -> Prop) l : Forall P l -> Forall P (removelast l).
Proof.
  induction 1 as [|x l Hx Hl IH]; simpl; [constructor|].
  destruct l; [constructor|]. now constructor.
Qed.

Lemma tl_removelast {A} (l : list A) : tl (removelast l) = removelast (tl l).
Proof. destruct l as [|x [|y l]]; reflexivity. Qed.

Lemma parts_tail_plain rel : Forall plain (tl (removelast (PyPath.parts rel))).
Proof.
  rewrite tl_removelast. apply Forall_removelast.
  unfold PyPath.parts.
  assert (Hc : Forall plain (filter (fun c => PyStr.truthy c && negb (String.eqb c "."))
                               (PyStr.split_char "/" rel))).
  { apply List.Forall_forall. intros c Hin. apply filter_In in Hin as [Hin Hc].
    apply andb_prop in Hc as [Ht _]. split; [exact Ht|].
    exact (proj1 (List.Forall_forall _ _) (split_char_no_slash rel) c Hin). }
  unfold PyPath.root.
  destruct (PyStr.startswith rel "/").
  - destruct (_ && _); exact Hc.
  - simpl. destruct Hc; [constructor|assumption].
Qed.

Lemma chain_ok_document rel repo :
  chain_ok (dir_chain (removelast (PyPath.parts rel)) repo "Repository").
Proof. apply chain_ok_repository, parts_tail_plain. Qed.

End Chain.

Section DefinitionPhase.
Import Graph GraphNotions Scip Reingest.

(** *** Definitions *)

Lemma fold_process_definition m fp defs : forall g,
  fold_left (process_definition m fp) defs g
  = fold_left (run_def_step fp) (def_steps m defs) g.
Proof.
  unfold def_steps.
  induction defs as [|occ defs IH]; intros g; simpl; [reflexivity|].
  unfold process_definition at 2.
  destruct (is_local (symbol occ)); simpl; apply IH.
Qed.

Lemma def_steps_labels m defs :
  Forall (fun d => In (df_label d) symbol_labels) (def_steps m defs).
Proof.
  unfold def_steps. apply Forall_map, List.Forall_forall.
  intros occ _. apply definition_label_symbol.
Qed.

Lemma apart_run_def_step fp g d :
  structural_apart g -> structural_apart (run_def_step fp g d).
Proof. apply apart_definition_query. Qed.

Lemma struct_ext_run_def_step fp g d :
  In (df_label d) symbol_labels -> structural_apart g ->
  struct_ext None g (run_def_step fp g d).
Proof. apply struct_ext_definition_query. Qed.

(** *** Symbols stay bound to the same nodes *)

Lemma sym_ext_refl g : sym_ext g g.
Proof. intros l s _. reflexivity. Qed.

Lemma sym_ext_trans g1 g2 g3 : sym_ext g1 g2 -> sym_ext g2 g3 -> sym_ext g1 g3.
Proof.
  intros H1 H2 l s Hne. rewrite H2, H1; auto. now rewrite H1.
Qed.

Lemma has_symbol_single l s l' p r nm s' ln :
  has_symbol l s (mk_node [l'] p r nm (Some s') ln) = String.eqb l l' && String.eqb s' s.
Proof. unfold has_symbol, has_label. simpl. now rewrite orb_false_r. Qed.

Lemma sym_ext_merge_node l' s' p r nm ln g :
  sym_ext g (merge_node (has_symbol l' s') (mk_node [l'] p r nm (Some s') ln) g).
Proof.
  intros l s Hne. unfold merge_node.
  destruct (existsb _ (nodes g)) eqn:E; [reflexivity|].
  rewrite !match_ids_bound, bound_add_node; [reflexivity|].
  rewrite has_symbol_single.
  destruct (String.eqb_spec l l') as [->|]; [|reflexivity].
  destruct (String.eqb_spec s' s) as [->|]; [|reflexivity].
  apply existsb_bound in Hne. congruence.
Qed.

Lemma sym_ext_set_nodes p f g :
  (forall n, labels (f n) = labels n) -> (forall n, scip_symbol (f n) = scip_symbol n) ->
  sym_ext g (set_nodes p f g).
Proof.
  intros Hl Hs l s _. apply match_ids_set_nodes.
  intros n. unfold has_symbol, has_label. now rewrite Hl, Hs.
Qed.

Lemma sym_ext_merge_edges t rs g : sym_ext g (merge_edges t rs g).
Proof. intros l s _. apply match_ids_merge_edges. Qed.

Lemma sym_ext_verify_edges t rs g : sym_ext g (verify_edges t rs g).
Proof. intros l s _. reflexivity. Qed.

Lemma sym_ext_run_def_step fp g d : sym_ext g (run_def_step fp g d).
Proof.
  unfold run_def_step, definition_query.
  destruct (match_ids (is_file fp) g) as [|c0 cs0]; [apply sym_ext_refl|].
  eapply sym_ext_trans; [|apply sym_ext_merge_edges].
  eapply sym_ext_trans; [apply sym_ext_merge_node|].
  apply sym_ext_set_nodes; reflexivity.
Qed.

Lemma sym_ext_calls_query caller tl ts tn g :
  sym_ext g (snd (calls_query caller tl ts tn g)).
Proof.
  unfold calls_query. destruct (match_ids caller g) as [|c0 cs0]; [apply sym_ext_refl|].
  cbn [snd].
  eapply sym_ext_trans; [|apply sym_ext_verify_edges].
  eapply sym_ext_trans; [|apply sym_ext_merge_edges].
  apply sym_ext_merge_node.
Qed.

Lemma sym_ext_run_ref_step fp g r : sym_ext g (run_ref_step fp g r).
Proof. rewrite run_ref_step_calls. apply sym_ext_calls_query. Qed.

Lemma def_exists_ext fp g g' d :
  def_exists fp g d -> struct_ext None g g' -> sym_ext g g' -> def_exists fp g' d.
Proof.
  intros [Hne He] [Hb Hedge] Hs. unfold def_exists.
  rewrite (Hs _ _ Hne).
  rewrite (nonempty_ext (is_file fp) g g') by (apply (Hb "File" fp); [now left|discriminate]).
  split; [exact Hne|]. eapply Forall_has_edge_ext; [apply Hedge|exact He].
Qed.

(** *** What a definition does to the nodes *)

Lemma set_nodes_node_map p f g :
  set_nodes p f g = node_map (fun n => if p n then f n else n) g.
Proof. reflexivity. Qed.

Lemma run_def_step_nodes fp g d :
  match_ids (is_file fp) g <> [] ->
  nodes (run_def_step fp g d)
  = map (fun e => (fst e, cond_set fp (snd e) d))
        (nodes (merge_node (has_symbol (df_label d) (df_symbol d))
                  (mk_node [df_label d] None None None (Some (df_symbol d)) None) g)).
Proof.
  intros Hne. unfold run_def_step, definition_query.
  destruct (match_ids (is_file fp) g) as [|c0 cs0]; [congruence|].
  now rewrite nodes_merge_edges.
Qed.

Lemma cond_set_labels fp n d : labels (cond_set fp n d) = labels n.
Proof. unfold cond_set. now destruct (has_symbol _ _ n). Qed.

Lemma cond_set_symbol fp n d : scip_symbol (cond_set fp n d) = scip_symbol n.
Proof. unfold cond_set. now destruct (has_symbol _ _ n). Qed.

Lemma cond_set_relative_path fp n d : relative_path (cond_set fp n d) = relative_path n.
Proof. unfold cond_set. now destruct (has_symbol _ _ n). Qed.

Lemma apply_all_fields fp ds : forall n,
  labels (apply_all fp ds n) = labels n
  /\ scip_symbol (apply_all fp ds n) = scip_symbol n
  /\ relative_path (apply_all fp ds n) = relative_path n.
Proof.
  unfold apply_all. induction ds as [|d ds IH]; intros n; simpl; [auto|].
  destruct (IH (cond_set fp n d)) as (H1 & H2 & H3).
  now rewrite H1, H2, H3, cond_set_labels, cond_set_symbol, cond_set_relative_path.
Qed.

Lemma has_symbol_fields l s n n' :
  labels n' = labels n -> scip_symbol n' = scip_symbol n ->
  has_symbol l s n' = has_symbol l s n.
Proof. intros H1 H2. unfold has_symbol, has_label. now rewrite H1, H2. Qed.

(** Setting the properties hides what was set before. *)
Lemma set_def_apply_all fp d ds n : set_def fp d (apply_all fp ds n) = set_def fp d n.
Proof.
  destruct (apply_all_fields fp ds n) as (H1 & H2 & H3).
  unfold set_def. now rewrite H1, H2, H3.
Qed.

Lemma apply_all_snoc fp ds d n :
  apply_all fp (ds ++ [d]) n = cond_set fp (apply_all fp ds n) d.
Proof. unfold apply_all. now rewrite fold_left_app. Qed.

Lemma apply_all_set_def fp ds d n :
  has_symbol (df_label d) (df_symbol d) n = true ->
  apply_all fp (ds ++ [d]) (set_def fp d n) = set_def fp d n.
Proof.
  intros H. rewrite apply_all_snoc. unfold cond_set.
  destruct (apply_all_fields fp ds (set_def fp d n)) as (H1 & H2 & _).
  rewrite (has_symbol_fields _ _ (set_def fp d n)) by assumption.
  replace (has_symbol (df_label d) (df_symbol d) (set_def fp d n)) with true
    by (symmetry; exact H).
  now rewrite set_def_apply_all.
Qed.

Lemma fold_defs_ext fp ds : forall g,
  Forall (fun d => In (df_label d) symbol_labels) ds -> structural_apart g ->
  struct_ext None g (fold_left (run_def_step fp) ds g)
  /\ sym_ext g (fold_left (run_def_step fp) ds g)
  /\ structural_apart (fold_left (run_def_step fp) ds g).
Proof.
  induction ds as [|d ds IH]; intros g Hl Hg; simpl.
  - split; [apply struct_ext_refl|split; [apply sym_ext_refl|exact Hg]].
  - inversion Hl as [|? ? Hd Hl']; subst.
    destruct (IH (run_def_step fp g d) Hl' (apart_run_def_step fp g d Hg)) as (H1 & H2 & H3).
    split; [|split; [|exact H3]].
    + apply (struct_ext_trans _ _ (run_def_step fp g d)); [|exact H1].
      now apply struct_ext_run_def_step.
    + apply (sym_ext_trans _ (run_def_step fp g d)); [|exact H2].
      apply sym_ext_run_def_step.
Qed.

Lemma files_ext fp g g' :
  struct_ext None g g' -> match_ids (is_file fp) g' = match_ids (is_file fp) g.
Proof.
  intros [Hb _]. apply nonempty_ext. apply (Hb "File" fp); [now left|discriminate].
Qed.

(** After the loop every node has the properties of the last definition
    that binds it. *)
Lemma fold_defs_saturates fp ds : forall g,
  Forall (fun d => In (df_label d) symbol_labels) ds -> structural_apart g ->
  match_ids (is_file fp) g <> [] ->
  Forall (fun e => apply_all fp ds (snd e) = snd e)
         (nodes (fold_left (run_def_step fp) ds g)).
Proof.
  induction ds as [|d ds IH] using rev_ind; intros g Hl Hg Hf.
  - simpl. apply List.Forall_forall. intros e _. reflexivity.
  - apply Forall_app in Hl as [Hl Hd]. inversion Hd as [|? ? Hd' _]; subst.
    rewrite fold_left_app. simpl.
    set (g' := fold_left (run_def_step fp) ds g).
    destruct (fold_defs_ext fp ds g Hl Hg) as (Hx & _ & _). fold g' in Hx.
    assert (Hf' : match_ids (is_file fp) g' <> []) by now rewrite (files_ext fp g g' Hx).
    rewrite (run_def_step_nodes fp g' d Hf').
    specialize (IH g Hl Hg Hf). fold g' in IH.
    apply Forall_map. unfold merge_node.
    assert (Hold : Forall (fun e => apply_all fp (ds ++ [d]) (cond_set fp (snd e) d)
                                    = cond_set fp (snd e) d) (nodes g')).
    { eapply Forall_impl; [|exact IH]. intros [i n] Hn. simpl in *.
      unfold cond_set.
      destruct (has_symbol (df_label d) (df_symbol d) n) eqn:E.
      - now apply apply_all_set_def.
      - rewrite apply_all_snoc, Hn. unfold cond_set. now rewrite E. }
    destruct (existsb _ (nodes g')); [exact Hold|].
    unfold add_node. simpl. apply Forall_app. split; [exact Hold|].
    constructor; [|constructor]. simpl.
    unfold cond_set. rewrite has_symbol_single, !String.eqb_refl. simpl.
    apply apply_all_set_def. now rewrite has_symbol_single, !String.eqb_refl.
Qed.

Lemma run_def_step_establishes fp g d :
  match_ids (is_file fp) g <> [] -> In (df_label d) symbol_labels ->
  structural_apart g -> def_exists fp (run_def_step fp g d) d.
Proof.
  intros Hf Hl Hg.
  pose proof (files_ext fp g _ (struct_ext_run_def_step fp g d Hl Hg)) as Ef.
  unfold def_exists. rewrite Ef.
  unfold run_def_step, definition_query in *.
  destruct (match_ids (is_file fp) g) as [|c0 cs0] eqn:E; [congruence|].
  set (init := mk_node [df_label d] None None None (Some (df_symbol d)) None).
  set (q := has_symbol (df_label d) (df_symbol d)).
  set (g1 := merge_node q init g).
  set (g2 := set_nodes q _ g1).
  assert (Hq : match_ids q (merge_edges "CONTAINS" (rows (c0 :: cs0) (match_ids q g1)) g2)
               = match_ids q g1).
  { rewrite match_ids_merge_edges. now apply match_ids_set_nodes. }
  rewrite Hq. split.
  - apply existsb_bound, merge_node_exists. apply has_symbol_new.
  - apply has_edge_merge_edges.
Qed.

Lemma fold_defs_exist fp ds : forall g,
  Forall (fun d => In (df_label d) symbol_labels) ds -> structural_apart g ->
  match_ids (is_file fp) g <> [] ->
  Forall (def_exists fp (fold_left (run_def_step fp) ds g)) ds.
Proof.
  induction ds as [|d ds IH]; intros g Hl Hg Hf; simpl; [constructor|].
  inversion Hl as [|? ? Hd Hl']; subst.
  pose proof (apart_run_def_step fp g d Hg) as Hg1.
  pose proof (struct_ext_run_def_step fp g d Hd Hg) as Hx1.
  assert (Hf1 : match_ids (is_file fp) (run_def_step fp g d) <> [])
    by now rewrite (files_ext fp g _ Hx1).
  constructor; [|now apply IH].
  destruct (fold_defs_ext fp ds (run_def_step fp g d) Hl' Hg1) as (Hx & Hs & _).
  apply (def_exists_ext fp (run_def_step fp g d)); [|exact Hx|exact Hs].
  now apply run_def_step_establishes.
Qed.

End DefinitionPhase.

Section SecondRun.
Import Graph GraphNotions Scip Reingest.

(** *** Definitions, a second time *)

Lemma node_map_id f g :
  Forall (fun e => f (snd e) = snd e) (nodes g) -> node_map f g = g.
Proof.
  unfold node_map. destruct g as [ns es]. simpl. intros H. f_equal.
  induction H as [|[i n] ns Hn _ IH]; simpl; [reflexivity|].
  simpl in Hn. now rewrite Hn, IH.
Qed.

Lemma node_map_node_map f1 f2 g :
  node_map f2 (node_map f1 g) = node_map (fun n => f2 (f1 n)) g.
Proof. unfold node_map. simpl. now rewrite map_map. Qed.

Lemma match_ids_node_map q f g :
  Forall (fun e => q (f (snd e)) = q (snd e)) (nodes g) ->
  match_ids q (node_map f g) = match_ids q g.
Proof.
  unfold match_ids, node_map. simpl.
  induction 1 as [|[i n] ns Hn _ IH]; simpl; [reflexivity|].
  simpl in Hn. rewrite Hn. destruct (q n); simpl; now rewrite IH.
Qed.

Lemma has_edge_node_map t f g r : has_edge t (node_map f g) r = has_edge t g r.
Proof. reflexivity. Qed.

Lemma is_file_cond_set p fp n d :
  apart n -> In (df_label d) symbol_labels ->
  is_file p (cond_set fp n d) = is_file p n.
Proof.
  intros Ha Hl. unfold cond_set.
  destruct (has_symbol (df_label d) (df_symbol d) n) eqn:E; [|reflexivity].
  unfold has_symbol in E. apply andb_prop in E as [E _].
  assert (Hn : has_label "File" n = false).
  { destruct (has_label "File" n) eqn:F; [|reflexivity].
    rewrite (apart_other n "File" (df_label d) Ha) in E; [discriminate|now left| |exact F].
    apply symbol_not_structural; [exact Hl|now left]. }
  unfold is_file. change (has_label "File" (set_def fp d n)) with (has_label "File" n).
  now rewrite Hn.
Qed.

Lemma apart_node_map_cond_set fp d g :
  structural_apart g -> structural_apart (node_map (fun n => cond_set fp n d) g).
Proof.
  intros H. unfold structural_apart, node_map. simpl.
  apply Forall_map. eapply Forall_impl; [|exact H].
  intros [i n] Hn. simpl in *. eapply apart_labels; [apply cond_set_labels|exact Hn].
Qed.

Lemma files_node_map_cond_set p fp d g :
  structural_apart g -> In (df_label d) symbol_labels ->
  match_ids (is_file p) (node_map (fun n => cond_set fp n d) g) = match_ids (is_file p) g.
Proof.
  intros Hg Hl. apply match_ids_node_map.
  eapply Forall_impl; [|exact Hg]. intros [i n] Hn. simpl in *.
  now apply is_file_cond_set.
Qed.

Lemma symbols_node_map_cond_set l s fp d g :
  match_ids (has_symbol l s) (node_map (fun n => cond_set fp n d) g)
  = match_ids (has_symbol l s) g.
Proof.
  apply match_ids_node_map. apply List.Forall_forall. intros [i n] _. simpl.
  apply has_symbol_fields; [apply cond_set_labels|apply cond_set_symbol].
Qed.

Lemma def_exists_node_map fp g d d' :
  def_exists fp g d' -> structural_apart g -> In (df_label d) symbol_labels ->
  def_exists fp (node_map (fun n => cond_set fp n d) g) d'.
Proof.
  intros [Hne He] Hg Hl. unfold def_exists.
  now rewrite symbols_node_map_cond_set, files_node_map_cond_set.
Qed.

Lemma run_def_step_node_map fp g d :
  def_exists fp g d -> match_ids (is_file fp) g <> [] ->
  run_def_step fp g d = node_map (fun n => cond_set fp n d) g.
Proof.
  intros [Hne He] Hf. unfold run_def_step, definition_query.
  destruct (match_ids (is_file fp) g) as [|c0 cs0] eqn:E; [congruence|].
  rewrite merge_node_done by now apply existsb_bound.
  apply merge_edges_done. exact He.
Qed.

Lemma fold_defs_node_map fp ds : forall g,
  Forall (def_exists fp g) ds ->
  Forall (fun d => In (df_label d) symbol_labels) ds ->
  structural_apart g -> match_ids (is_file fp) g <> [] ->
  fold_left (run_def_step fp) ds g = node_map (apply_all fp ds) g.
Proof.
  induction ds as [|d ds IH]; intros g He Hl Hg Hf; simpl.
  - symmetry. apply node_map_id. apply List.Forall_forall. now intros.
  - inversion He as [|? ? Hd He']; subst. inversion Hl as [|? ? Hld Hl']; subst.
    rewrite (run_def_step_node_map fp g d Hd Hf).
    rewrite IH.
    + rewrite node_map_node_map. reflexivity.
    + eapply Forall_impl; [|exact He']. intros d' Hd'. now apply def_exists_node_map.
    + exact Hl'.
    + now apply apart_node_map_cond_set.
    + now rewrite files_node_map_cond_set.
Qed.

Lemma fold_defs_done fp ds g :
  defs_done fp ds g -> Forall (fun d => In (df_label d) symbol_labels) ds ->
  structural_apart g -> match_ids (is_file fp) g <> [] ->
  fold_left (run_def_step fp) ds g = g.
Proof.
  intros [He Hs] Hl Hg Hf. rewrite fold_defs_node_map by assumption.
  now apply node_map_id.
Qed.

Lemma fold_defs_establishes fp ds g :
  Forall (fun d => In (df_label d) symbol_labels) ds -> structural_apart g ->
  match_ids (is_file fp) g <> [] ->
  defs_done fp ds (fold_left (run_def_step fp) ds g).
Proof.
  intros Hl Hg Hf. split; [now apply fold_defs_exist|now apply fold_defs_saturates].
Qed.

(** *** References *)

Lemma fold_process_reference m fp functions refs : forall g,
  fold_left (process_reference m fp functions) refs g
  = fold_left (run_ref_step fp) (ref_steps m functions refs) g.
Proof.
  unfold ref_steps.
  induction refs as [|ref refs IH]; intros g; simpl; [reflexivity|].
  unfold process_reference at 2.
  destruct (is_local (symbol ref)); simpl; [apply IH|].
  destruct (find_caller functions (start_line ref + 1)); simpl; apply IH.
Qed.

Lemma ref_steps_labels m functions refs :
  Forall (fun r => In (rf_label r) symbol_labels) (ref_steps m functions refs).
Proof.
  unfold ref_steps. apply List.Forall_forall. intros r Hin.
  apply in_flat_map in Hin as (ref & _ & Hin).
  destruct (is_local (symbol ref)); [destruct Hin|].
  destruct (find_caller _ _); [|destruct Hin].
  destruct Hin as [<-|[]]. apply target_label_symbol.
Qed.

(** The node that an upsert creates has no path: no lookup of a caller
    binds it. *)
Lemma callers_calls_query q caller tl ts tn g :
  q (mk_node [tl] None None (Some tn) (Some ts) None) = false ->
  match_ids q (snd (calls_query caller tl ts tn g)) = match_ids q g.
Proof.
  intros H. unfold calls_query. destruct (match_ids caller g) as [|c0 cs0]; [reflexivity|].
  cbn [snd]. rewrite match_ids_verify_edges, match_ids_merge_edges.
  now apply match_ids_merge_node.
Qed.

Lemma callers_of_run_ref_step fp r g r' :
  callers_of fp r (run_ref_step fp g r') = callers_of fp r g.
Proof.
  unfold callers_of. rewrite run_ref_step_calls.
  now rewrite !callers_calls_query by reflexivity.
Qed.

(** *** Relationships are kept *)

Lemma edges_ext_calls_query caller tl ts tn g :
  edges_ext g (snd (calls_query caller tl ts tn g)).
Proof.
  split.
  - intros t r H. unfold calls_query.
    destruct (match_ids caller g) as [|c0 cs0]; [exact H|]. cbn [snd].
    rewrite has_edge_verify_edges. apply has_edge_merge_edges_mono.
    unfold has_edge. now rewrite edges_merge_node.
  - apply List.Forall_forall. intros e' Hin.
    unfold calls_query in Hin.
    destruct (match_ids caller g) as [|c0 cs0].
    { left. exists e'. split; [exact Hin|now left]. }
    cbn [snd] in Hin.
    apply In_edges_verify_edges in Hin as [[Hin Hn]|[_ Hv]]; [|now right; right].
    apply In_edges_merge_edges in Hin as [Hin|(r & Hr & ->)].
    + left. exists e'. rewrite edges_merge_node in Hin. split; [exact Hin|now left].
    + rewrite (edge_in_new _ _ _ Hr) in Hn. discriminate.
Qed.

Lemma edges_ext_run_ref_step fp g r : edges_ext g (run_ref_step fp g r).
Proof. rewrite run_ref_step_calls. apply edges_ext_calls_query. Qed.

Lemma edge_in_verified t rs e : edge_in t rs (verified e) = edge_in t rs e.
Proof. reflexivity. Qed.

Lemma ref_done_ext fp g g' r :
  ref_done fp g r ->
  callers_of fp r g' = callers_of fp r g ->
  sym_ext g g' -> edges_ext g g' ->
  ref_done fp g' r.
Proof.
  intros Hd Hc Hs [Hmono Hedges]. unfold ref_done in *. rewrite Hc.
  destruct Hd as [Hd|(Hne & He & Hv)]; [now left|right].
  rewrite (Hs _ _ Hne). split; [exact Hne|]. split.
  - eapply Forall_has_edge_ext; [apply Hmono|exact He].
  - eapply Forall_impl; [|exact Hedges].
    intros e' [(e & Hin & [->| ->])|[Hty|Hver]] Hb.
    + exact (proj1 (List.Forall_forall _ _) Hv e Hin Hb).
    + reflexivity.
    + apply edge_in_type in Hb. congruence.
    + exact Hver.
Qed.

Lemma run_ref_step_establishes fp g r : ref_done fp (run_ref_step fp g r) r.
Proof.
  unfold ref_done. rewrite callers_of_run_ref_step.
  unfold callers_of. rewrite run_ref_step_calls.
  destruct (match_ids (caller_by_name fp (func_name (rf_caller r))) g) as [|c cs] eqn:E.
  - destruct (match_ids (caller_by_line fp (func_line_number (rf_caller r))) g)
      as [|c cs] eqn:E2; [now left|right].
    assert (Hne : match_ids (caller_by_line fp (func_line_number (rf_caller r))) g <> [])
      by (rewrite E2; discriminate).
    destruct (calls_query_some _ (rf_label r) (rf_symbol r) (rf_name r) g Hne)
      as (_ & _ & Ht & He & Hv).
    rewrite E2 in He, Hv. now repeat split.
  - right.
    assert (Hne : match_ids (caller_by_name fp (func_name (rf_caller r))) g <> [])
      by (rewrite E; discriminate).
    destruct (calls_query_some _ (rf_label r) (rf_symbol r) (rf_name r) g Hne)
      as (_ & _ & Ht & He & Hv).
    rewrite E in He, Hv. now repeat split.
Qed.

Lemma calls_query_done caller tl ts tn g :
  match_ids (has_symbol tl ts) g <> [] ->
  Forall (fun rw => has_edge "CALLS" g rw = true)
         (rows (match_ids caller g) (match_ids (has_symbol tl ts) g)) ->
  Forall (fun e => edge_in "CALLS" (rows (match_ids caller g)
                                         (match_ids (has_symbol tl ts) g)) e = true ->
                   scip_verified e = Some true) (edges g) ->
  snd (calls_query caller tl ts tn g) = g.
Proof.
  intros Hne He Hv. unfold calls_query.
  destruct (match_ids caller g) as [|c0 cs0] eqn:E; [reflexivity|]. cbn [snd].
  rewrite merge_node_done by now apply existsb_bound.
  rewrite (merge_edges_done _ _ _ He). now apply verify_edges_done.
Qed.

Lemma run_ref_step_done fp g r : ref_done fp g r -> run_ref_step fp g r = g.
Proof.
  unfold ref_done, callers_of. rewrite run_ref_step_calls.
  destruct (match_ids (caller_by_name fp (func_name (rf_caller r))) g) as [|c cs] eqn:E.
  - intros [Hd|(Hne & He & Hv)].
    + now rewrite (calls_query_none _ _ _ _ _ Hd).
    + now apply calls_query_done.
  - intros [Hd|(Hne & He & Hv)]; [discriminate|].
    apply calls_query_done; [exact Hne|now rewrite E|now rewrite E].
Qed.

Lemma ref_done_fold fp r rs : forall g,
  ref_done fp g r -> ref_done fp (fold_left (run_ref_step fp) rs g) r.
Proof.
  induction rs as [|r' rs IH]; intros g Hd; simpl; [exact Hd|].
  apply IH.
  apply (ref_done_ext fp g); [exact Hd|apply callers_of_run_ref_step| |].
  - apply sym_ext_run_ref_step.
  - apply edges_ext_run_ref_step.
Qed.

Lemma fold_refs_establishes fp rs : forall g,
  Forall (ref_done fp (fold_left (run_ref_step fp) rs g)) rs.
Proof.
  induction rs as [|r rs IH]; intros g; simpl; constructor.
  - apply ref_done_fold. apply run_ref_step_establishes.
  - apply IH.
Qed.

Lemma fold_refs_done fp rs g :
  Forall (ref_done fp g) rs -> fold_left (run_ref_step fp) rs g = g.
Proof.
  induction 1 as [|r rs Hr _ IH]; simpl; [reflexivity|].
  now rewrite (run_ref_step_done fp g r Hr).
Qed.

Lemma fold_refs_ext fp rs : forall g,
  Forall (fun r => In (rf_label r) symbol_labels) rs -> structural_apart g ->
  struct_ext None g (fold_left (run_ref_step fp) rs g)
  /\ sym_ext g (fold_left (run_ref_step fp) rs g)
  /\ structural_apart (fold_left (run_ref_step fp) rs g).
Proof.
  induction rs as [|r rs IH]; intros g Hl Hg; simpl.
  - split; [apply struct_ext_refl|split; [apply sym_ext_refl|exact Hg]].
  - inversion Hl as [|? ? Hr Hl']; subst.
    destruct (IH (run_ref_step fp g r) Hl' (apart_run_ref_step fp g r Hg)) as (H1 & H2 & H3).
    split; [|split; [|exact H3]].
    + apply (struct_ext_trans _ _ (run_ref_step fp g r)); [|exact H1].
      now apply struct_ext_run_ref_step.
    + apply (sym_ext_trans _ (run_ref_step fp g r)); [|exact H2].
      apply sym_ext_run_ref_step.
Qed.

(** A reference adds no node that a definition binds. *)
Lemma saturated_run_ref_step fp ds g r :
  Forall (def_exists fp g) ds ->
  Forall (fun e => apply_all fp ds (snd e) = snd e) (nodes g) ->
  Forall (fun e => apply_all fp ds (snd e) = snd e) (nodes (run_ref_step fp g r)).
Proof.
  intros He Hs. rewrite run_ref_step_calls. unfold calls_query.
  destruct (match_ids _ g) as [|c0 cs0]; [exact Hs|]. cbn [snd].
  rewrite nodes_verify_edges, nodes_merge_edges. unfold merge_node.
  destruct (existsb _ (nodes g)) eqn:E; [exact Hs|].
  unfold add_node. simpl. apply Forall_app. split; [exact Hs|].
  constructor; [|constructor]. simpl.
  assert (Hn : match_ids (has_symbol (rf_label r) (rf_symbol r)) g = []).
  { destruct (match_ids (has_symbol (rf_label r) (rf_symbol r)) g) eqn:M; [reflexivity|].
    assert (X : existsb (fun e => has_symbol (rf_label r) (rf_symbol r) (snd e)) (nodes g) = true)
      by (apply existsb_bound; rewrite M; discriminate).
    congruence. }
  unfold apply_all. clear Hs E.
  induction He as [|d ds [Hd _] _ IH]; simpl; [reflexivity|].
  unfold cond_set at 2. rewrite has_symbol_single.
  destruct (String.eqb_spec (df_label d) (rf_label r)) as [El|]; simpl.
  - destruct (String.eqb_spec (rf_symbol r) (df_symbol d)) as [Es|]; simpl.
    + rewrite El, <- Es in Hd. congruence.
    + apply IH.
  - apply IH.
Qed.

End SecondRun.

Section Document.
Import Graph GraphNotions Scip Reingest.

(** *** A whole document *)

Lemma link_references_fold env m doc fp g :
  link_references env m doc fp g
  = fold_left (run_ref_step fp) (document_refs env m doc) g.
Proof.
  unfold link_references, document_refs.
  destruct (ts_parse env (doc_relative_path doc)) as [[|f fs]|]; try reflexivity.
  apply fold_process_reference.
Qed.

Lemma document_refs_labels env m doc :
  Forall (fun r => In (rf_label r) symbol_labels) (document_refs env m doc).
Proof.
  unfold document_refs.
  destruct (ts_parse env (doc_relative_path doc)) as [[|f fs]|]; try constructor.
  apply ref_steps_labels.
Qed.

Lemma saturated_fold_refs fp ds rs : forall g,
  Forall (fun r => In (rf_label r) symbol_labels) rs ->
  Forall (def_exists fp g) ds ->
  Forall (fun e => apply_all fp ds (snd e) = snd e) (nodes g) ->
  Forall (fun e => apply_all fp ds (snd e) = snd e)
         (nodes (fold_left (run_ref_step fp) rs g)).
Proof.
  induction rs as [|r rs IH]; intros g Hl He Hs; simpl; [exact Hs|].
  inversion Hl as [|? ? Hr Hl']; subst.
  apply IH; [exact Hl'| |now apply saturated_run_ref_step].
  eapply Forall_impl; [|exact He]. intros d Hd.
  apply (def_exists_ext fp g); [exact Hd| |apply sym_ext_run_ref_step].
  now apply struct_ext_run_ref_step.
Qed.

Lemma repository_structural : In "Repository" structural_labels.
Proof. right. right. now left. Qed.

(** When nothing is left to do, processing the document changes nothing. *)
Lemma document_done_noop env m doc g :
  document_done env m doc g -> _process_document env m doc g = g.
Proof.
  intros (Hf & Hh & Hd & Hr & Hg). unfold _process_document.
  destruct (PyStr.startswith (doc_relative_path doc) ".."); [reflexivity|].
  cbv zeta. rewrite (file_query_done _ _ _ _ Hf).
  rewrite !(hierarchy_noop _ _ _ _ _ Hh).
  rewrite fold_process_definition.
  rewrite (fold_defs_done _ _ _ Hd (def_steps_labels _ _) Hg (proj1 Hf)).
  rewrite link_references_fold. now apply fold_refs_done.
Qed.

(** Processing a document leaves nothing to do. *)
Lemma process_document_done env m doc g :
  PyStr.startswith (doc_relative_path doc) ".." = false ->
  structural_apart g ->
  document_done env m doc (_process_document env m doc g).
Proof.
  intros Hrel Hg. unfold _process_document. rewrite Hrel. cbv zeta.
  set (rel := doc_relative_path doc).
  set (fp := resolve env rel).
  set (parts := removelast (PyPath.parts rel)).
  set (repo := repo_path_str env).
  set (a := file_query fp rel (PyPath.basename fp) g).
  assert (Hfa : file_done fp rel (PyPath.basename fp) a) by apply file_query_establishes.
  assert (Hga : structural_apart a) by now apply apart_file_query.
  pose proof (chain_ok_document rel repo) as Hchain. fold parts in Hchain.
  set (h := link_hierarchy parts repo "Repository" fp a).
  assert (Hhh : hierarchy_done parts repo "Repository" fp h)
    by now apply hierarchy_establishes.
  assert (Hfh : file_done fp rel (PyPath.basename fp) h)
    by now apply file_done_link_hierarchy.
  assert (Hgh : structural_apart h) by now apply apart_link_hierarchy.
  rewrite (hierarchy_noop _ _ _ _ _ Hhh).
  rewrite fold_process_definition.
  set (ds := def_steps m (definitions_of doc)).
  pose proof (def_steps_labels m (definitions_of doc)) as Hlds. fold ds in Hlds.
  set (d := fold_left (run_def_step fp) ds h).
  destruct (fold_defs_ext fp ds h Hlds Hgh) as (Hxd & Hsd & Hgd). fold d in Hxd, Hsd, Hgd.
  assert (Hdd : defs_done fp ds d) by (apply fold_defs_establishes; [exact Hlds|exact Hgh|apply Hfh]).
  rewrite link_references_fold.
  set (rs := document_refs env m doc).
  pose proof (document_refs_labels env m doc) as Hlrs. fold rs in Hlrs.
  set (r := fold_left (run_ref_step fp) rs d).
  destruct (fold_refs_ext fp rs d Hlrs Hgd) as (Hxr & Hsr & Hgr). fold r in Hxr, Hsr, Hgr.
  assert (Hx : struct_ext None h r) by (eapply struct_ext_trans; eassumption).
  unfold document_done. fold rel fp parts repo ds rs.
  split; [|split; [|split; [|split]]].
  - eapply file_done_ext; [exact Hfh|exact Hx].
  - eapply hierarchy_done_ext; [exact Hhh|exact Hchain|apply repository_structural|exact Hx].
  - destruct Hdd as [He Hs]. split.
    + eapply Forall_impl; [|exact He]. intros d0 Hd0.
      now apply (def_exists_ext fp d).
    + now apply saturated_fold_refs.
  - apply fold_refs_establishes.
  - exact Hgr.
Qed.

Lemma apart_process_document env m doc g :
  structural_apart g -> structural_apart (_process_document env m doc g).
Proof.
  intros Hg.
  destruct (PyStr.startswith (doc_relative_path doc) "..") eqn:E.
  - unfold _process_document. now rewrite E.
  - now apply (process_document_done env m doc g E).
Qed.

(** C3 (as amended).  From a graph in which the nodes labelled [File],
    [Directory] or [Repository] carry no other label, processing a document a
    second time changes nothing: the graph after two runs is the graph after
    one, node for node and relationship for relationship.  The graph after a
    run is again such a graph. *)
Theorem reingestion_idempotent env symbol_map doc g :
  structural_apart g ->
  _process_document env symbol_map doc (_process_document env symbol_map doc g)
  = _process_document env symbol_map doc g
  /\ structural_apart (_process_document env symbol_map doc g).
Proof.
  intros Hg. split; [|now apply apart_process_document].
  destruct (PyStr.startswith (doc_relative_path doc) "..") eqn:E.
  - unfold _process_document. now rewrite E.
  - apply document_done_noop. now apply process_document_done.
Qed.

Lemma repository_apart : structural_apart SampleIndex.repository.
Proof.
  repeat constructor. intros l _ H. apply has_label_In in H.
  destruct H as [<-|[]]. reflexivity.
Defined.

Lemma reingestion_idempotent_witness :
  _process_document SampleIndex.env ∅ SampleIndex.doc
    (_process_document SampleIndex.env ∅ SampleIndex.doc SampleIndex.repository)
  = _process_document SampleIndex.env ∅ SampleIndex.doc SampleIndex.repository.
Proof.
  exact (proj1 (reingestion_idempotent SampleIndex.env ∅ SampleIndex.doc
                  SampleIndex.repository repository_apart)).
Defined.

(** C3 (as stated) fails: from a graph with a node that is both a file and
    a function, a second run adds a relationship. *)
Lemma reingestion_not_idempotent_on_mixed_labels :
  List.length (edges (_process_document SampleIndex.env ∅ SampleIndex.doc SampleIndex.mixed))
  = 4%nat
  /\ List.length (edges (_process_document SampleIndex.env ∅ SampleIndex.doc
                           (_process_document SampleIndex.env ∅ SampleIndex.doc
                              SampleIndex.mixed)))
     = 5%nat
  /\ _process_document SampleIndex.env ∅ SampleIndex.doc
       (_process_document SampleIndex.env ∅ SampleIndex.doc SampleIndex.mixed)
     <> _process_document SampleIndex.env ∅ SampleIndex.doc SampleIndex.mixed.
Proof.
  split; [vm_compute; reflexivity|]. split; [vm_compute; reflexivity|].
  intros H. apply (f_equal (fun g => List.length (edges g))) in H.
  vm_compute in H. discriminate H.
Qed.

End Document.

(** * Further properties *)

(** ** Argument lists *)

Section ArgumentLists.

Lemma append_cons c a b : String.append (String c a) b = String c (String.append a b).
Proof. reflexivity. Qed.

Lemma append_nil_l s : String.append EmptyString s = s.
Proof. reflexivity. Qed.

Lemma append_nil_r s : String.append s EmptyString = s.
Proof. induction s as [|c s IH]; [reflexivity|now rewrite append_cons, IH]. Qed.

Lemma append_assoc a b c :
  String.append (String.append a b) c = String.append a (String.append b c).
Proof.
  induction a as [|x a IH]; [reflexivity|now rewrite !append_cons, IH].
Qed.

Lemma snoc_append cur ch t :
  String.append (PyStr.snoc cur ch) t = String.append cur (String ch t).
Proof. unfold PyStr.snoc. now rewrite append_assoc. Qed.

Lemma occurs_refl s : occurs s s.
Proof. exists EmptyString, EmptyString. now rewrite append_nil_r. Qed.

Lemma occurs_trans a b c : occurs a b -> occurs b c -> occurs a c.
Proof.
  intros (p1 & q1 & ->) (p2 & q2 & ->).
  exists (String.append p2 p1), (String.append q1 q2).
  now rewrite !append_assoc.
Qed.

Lemma lstrip_by_occurs p s : occurs (PyStr.lstrip_by p s) s.
Proof.
  induction s as [|c s IH]; simpl; [apply occurs_refl|].
  destruct (p c); [|apply occurs_refl].
  destruct IH as (pre & post & E). exists (String c pre), post.
  now rewrite append_cons, <- E.
Qed.

Lemma rstrip_by_occurs p s : occurs (PyStr.rstrip_by p s) s.
Proof.
  assert (H : exists post, s = String.append (PyStr.rstrip_by p s) post).
  { induction s as [|c s IH]; simpl; [now exists EmptyString|].
    destruct IH as (post & E).
    destruct (PyStr.rstrip_by p s) as [|d r] eqn:Er.
    - destruct (p c); [now exists (String c s)|exists s; reflexivity].
    - exists post. rewrite append_cons. now rewrite E at 1. }
  destruct H as (post & E). exists EmptyString, post. exact E.
Qed.

Lemma strip_occurs s : occurs (PyStr.strip s) s.
Proof.
  unfold PyStr.strip.
  eapply occurs_trans; [apply rstrip_by_occurs|apply lstrip_by_occurs].
Qed.

Lemma strip_chars_occurs chars s : occurs (PyStr.strip_chars chars s) s.
Proof.
  unfold PyStr.strip_chars.
  eapply occurs_trans; [apply rstrip_by_occurs|apply lstrip_by_occurs].
Qed.

Lemma append_arg_occurs whole args current :
  occurs current whole ->
  Forall (fun a => occurs a whole) args ->
  Forall (fun a => occurs a whole) (append_arg args current).
Proof.
  intros Hc H. unfold append_arg.
  destruct (PyStr.truthy (PyStr.strip current)); [|exact H].
  apply Forall_app; split; [exact H|].
  constructor; [|constructor].
  eapply occurs_trans; [apply strip_occurs|exact Hc].
Qed.

Lemma parse_arguments_loop_occurs whole text :
  forall depth current args pre,
    whole = String.append pre (String.append current text) ->
    Forall (fun a => occurs a whole) args ->
    Forall (fun a => occurs a whole) (parse_arguments_loop text depth current args).
Proof.
  induction text as [|ch rest IH]; intros depth current args pre E H; simpl.
  - apply append_arg_occurs; [|exact H]. now exists pre, EmptyString.
  - assert (Es : whole = String.append pre (String.append (PyStr.snoc current ch) rest))
      by now rewrite snoc_append.
    destruct (is_open ch); [now apply (IH _ _ _ pre)|].
    destruct (is_close ch); [now apply (IH _ _ _ pre)|].
    destruct (Ascii.eqb ch "," && (depth =? 0)); [|now apply (IH _ _ _ pre)].
    apply (IH _ _ _ (String.append pre (PyStr.snoc current ch))).
    + rewrite append_assoc, append_nil_l. exact Es.
    + apply append_arg_occurs; [|exact H]. now exists pre, (String ch rest).
Qed.

(** X2.  Every argument that [_parse_arguments] returns is a contiguous
    part of the argument text: the split neither invents nor reorders
    characters. *)
Theorem parse_arguments_elements_occur args_text :
  Forall (fun a => occurs a args_text) (_parse_arguments args_text).
Proof.
  unfold _parse_arguments.
  destruct (negb _); [constructor|].
  eapply Forall_impl;
    [|apply (parse_arguments_loop_occurs (PyStr.strip_chars "()" args_text)
               (PyStr.strip_chars "()" args_text) 0 EmptyString [] EmptyString);
      [reflexivity|constructor]].
  intros a Ha. simpl in Ha.
  eapply occurs_trans; [exact Ha|apply strip_chars_occurs].
Qed.

Lemma rstrip_by_idem p s : PyStr.rstrip_by p (PyStr.rstrip_by p s) = PyStr.rstrip_by p s.
Proof.
  induction s as [|c s IH]; simpl; [reflexivity|].
  destruct (PyStr.rstrip_by p s) as [|d r] eqn:Er.
  - destruct (p c) eqn:Ec; simpl; [reflexivity|now rewrite Ec].
  - change (PyStr.rstrip_by p (String c (String d r)))
      with (match PyStr.rstrip_by p (String d r) with
            | EmptyString => if p c then EmptyString else String c EmptyString
            | r0 => String c r0 end).
    now rewrite IH.
Qed.

Lemma rstrip_by_head p s :
  match s with
  | EmptyString => True
  | String c _ => p c = false
  end ->
  match PyStr.rstrip_by p s with
  | EmptyString => True
  | String c _ => p c = false
  end.
Proof.
  destruct s as [|c s]; simpl; [trivial|]. intros Hc.
  destruct (PyStr.rstrip_by p s); [now rewrite Hc|exact Hc].
Qed.

Lemma lstrip_by_fixed p s :
  match s with
  | EmptyString => True
  | String c _ => p c = false
  end -> PyStr.lstrip_by p s = s.
Proof. destruct s as [|c s]; simpl; [reflexivity|]. now intros ->. Qed.

Lemma strip_by_idem p s :
  let t := PyStr.rstrip_by p (PyStr.lstrip_by p s) in
  PyStr.rstrip_by p (PyStr.lstrip_by p t) = t.
Proof.
  intros t. subst t.
  rewrite (lstrip_by_fixed p (PyStr.rstrip_by p (PyStr.lstrip_by p s))).
  - apply rstrip_by_idem.
  - apply rstrip_by_head, lstrip_by_head.
Qed.

Lemma strip_idem s : PyStr.strip (PyStr.strip s) = PyStr.strip s.
Proof. apply strip_by_idem. Qed.

Lemma append_arg_stripped args current :
  Forall (fun a => PyStr.strip a = a) args ->
  Forall (fun a => PyStr.strip a = a) (append_arg args current).
Proof.
  intros H. unfold append_arg.
  destruct (PyStr.truthy (PyStr.strip current)); [|exact H].
  apply Forall_app; split; [exact H|]. constructor; [apply strip_idem|constructor].
Qed.

Lemma parse_arguments_loop_stripped text :
  forall depth current args,
    Forall (fun a => PyStr.strip a = a) args ->
    Forall (fun a => PyStr.strip a = a) (parse_arguments_loop text depth current args).
Proof.
  induction text as [|ch rest IH]; intros depth current args H; simpl.
  - now apply append_arg_stripped.
  - destruct (is_open ch); [now apply IH|].
    destruct (is_close ch); [now apply IH|].
    destruct (Ascii.eqb ch "," && (depth =? 0)); apply IH; [|exact H].
    now apply append_arg_stripped.
Qed.

(** X1.  No argument that [_parse_arguments] returns begins or ends with
    white space: stripping it once more changes nothing. *)
Theorem parse_arguments_elements_stripped args_text :
  Forall (fun a => PyStr.strip a = a) (_parse_arguments args_text).
Proof.
  unfold _parse_arguments.
  destruct (negb _); [constructor|].
  apply parse_arguments_loop_stripped. constructor.
Qed.

Lemma split_char_cons sep s : exists p ps, PyStr.split_char sep s = p :: ps.
Proof.
  induction s as [|c s (p & ps & E)]; simpl; [now eexists _, _|].
  rewrite E. destruct (Ascii.eqb c sep); now eexists _, _.
Qed.

Lemma append_arg_filter args current :
  append_arg args current = app args (filter PyStr.truthy [PyStr.strip current]).
Proof.
  unfold append_arg. simpl.
  destruct (PyStr.truthy (PyStr.strip current)); [reflexivity|now rewrite app_nil_r].
Qed.

Lemma parse_arguments_loop_flat text :
  delimiter_free text = true ->
  forall current args,
    parse_arguments_loop text 0 current args
    = app args (filter PyStr.truthy
                  (map PyStr.strip (pieces_from current (PyStr.split_char "," text)))).
Proof.
  unfold delimiter_free.
  induction text as [|ch rest IH]; intros Hf current args.
  - simpl. rewrite append_nil_r. apply append_arg_filter.
  - cbn [list_ascii_of_string forallb] in Hf. apply andb_prop in Hf as [Hch Hrest].
    apply negb_true_iff, orb_false_iff in Hch as [Ho Hc].
    cbn [parse_arguments_loop]. rewrite Ho, Hc. cbn [PyStr.split_char].
    destruct (split_char_cons "," rest) as (p & ps & E). rewrite E.
    change (0 =? 0) with true. rewrite andb_true_r.
    destruct (Ascii.eqb ch ",") eqn:Ec.
    + rewrite (IH Hrest), E. cbn [pieces_from map]. rewrite append_nil_r.
      rewrite append_arg_filter, <- app_assoc. f_equal.
      cbn [filter String.append]. 
      destruct (PyStr.truthy (PyStr.strip current)); reflexivity.
    + rewrite (IH Hrest), E. cbn [pieces_from]. now rewrite snoc_append.
Qed.

Lemma delimiter_free_not_paren s :
  delimiter_free s = true ->
  forallb (fun c => negb (PyStr.mem c "()")) (list_ascii_of_string s) = true.
Proof.
  apply forallb_weaken. intros c H.
  apply negb_true_iff, orb_false_iff in H as [Ho Hc].
  unfold is_open in Ho. unfold is_close in Hc.
  apply orb_false_iff in Ho as [Ho _]. apply orb_false_iff in Ho as [Ho _].
  apply orb_false_iff in Hc as [Hc _]. apply orb_false_iff in Hc as [Hc _].
  simpl. now rewrite Ho, Hc.
Qed.

Lemma isspace_not_comma c : PyStr.isspace c = true -> Ascii.eqb c "," = false.
Proof. destruct c as [[] [] [] [] [] [] [] []]; vm_compute; congruence. Qed.

Lemma split_char_absent sep s :
  forallb (fun c => negb (Ascii.eqb c sep)) (list_ascii_of_string s) = true ->
  PyStr.split_char sep s = [s].
Proof.
  induction s as [|c s IH]; simpl; [reflexivity|].
  intros H. apply andb_prop in H as [Hc Hs]. rewrite (IH Hs).
  apply negb_true_iff in Hc. now rewrite Hc.
Qed.

(** X3.  On a text without parentheses, brackets or braces,
    [_parse_arguments] is the split at every comma, each piece stripped and
    the empty pieces dropped. *)
Theorem parse_arguments_without_delimiters args_text :
  delimiter_free args_text = true ->
  _parse_arguments args_text
  = filter PyStr.truthy (map PyStr.strip (PyStr.split_char "," args_text)).
Proof.
  intros Hf. unfold _parse_arguments.
  assert (E : PyStr.strip_chars "()" args_text = args_text).
  { unfold PyStr.strip_chars.
    rewrite (lstrip_by_none _ _ (delimiter_free_not_paren _ Hf)).
    apply rstrip_by_none, delimiter_free_not_paren, Hf. }
  rewrite E.
  destruct (PyStr.truthy (PyStr.strip args_text)) eqn:Et; simpl.
  - rewrite (parse_arguments_loop_flat _ Hf). simpl.
    destruct (split_char_cons "," args_text) as (p & ps & ->). reflexivity.
  - assert (Es : PyStr.strip args_text = EmptyString)
      by (destruct (PyStr.strip args_text); [reflexivity|discriminate]).
    rewrite split_char_absent.
    + simpl. now rewrite Et.
    + apply strip_by_empty in Es. revert Es. apply forallb_weaken.
      intros c Hc. now rewrite (isspace_not_comma _ Hc).
Qed.

Lemma parse_arguments_without_delimiters_witness :
  delimiter_free "a, , b ,c" = true
  /\ _parse_arguments "a, , b ,c"
     = filter PyStr.truthy (map PyStr.strip (PyStr.split_char "," "a, , b ,c")).
Proof.
  split; [reflexivity|].
  apply (parse_arguments_without_delimiters "a, , b ,c"). reflexivity.
Defined.

End ArgumentLists.

(** ** Contexts, complexity and docstrings *)

Section TreeHelpers.
Import Elixir.

Lemma parent_chain_ind (P : TSNode -> Prop) :
  (forall n, match parent n with Some p => P p | None => True end -> P n) ->
  forall n, P n.
Proof.
  intros H. fix IH 1. intros n. apply H.
  destruct n as [i ty tx sb eb sr er cs [p|] ps]; simpl; [apply IH|exact I].
Qed.

Lemma prev_chain_ind (P : TSNode -> Prop) :
  (forall n, match prev_sibling n with Some p => P p | None => True end -> P n) ->
  forall n, P n.
Proof.
  intros H. fix IH 1. intros n. apply H.
  destruct n as [i ty tx sb eb sr er cs pa [p|]]; simpl; [apply IH|exact I].
Qed.

Lemma str_in_In s l : str_in s l = true <-> In s l.
Proof.
  unfold str_in. rewrite existsb_exists. split.
  - intros (x & Hx & E). apply String.eqb_eq in E. now subst.
  - intros H. exists s. split; [exact H|apply String.eqb_refl].
Qed.

Lemma context_from_unfold types curr :
  context_from types curr
  = match context_at types curr with
    | Some r => Some r
    | None => match parent curr with
              | Some p => context_from types p
              | None => None
              end
    end.
Proof. destruct curr as [i ty tx sb eb sr er cs [p|] ps]; reflexivity. Qed.

Lemma self_and_ancestors_unfold curr :
  self_and_ancestors curr
  = curr :: match parent curr with
            | Some p => self_and_ancestors p
            | None => []
            end.
Proof. destruct curr as [i ty tx sb eb sr er cs [p|] ps]; reflexivity. Qed.

Lemma context_at_sound types curr name ident line :
  context_at types curr = Some (name, ident, line) ->
  In ident types /\ PyStr.truthy name = true
  /\ ts_type curr = "call" /\ line = start_row curr + 1.
Proof.
  unfold context_at.
  destruct (String.eqb (ts_type curr) "call") eqn:Ec; [|discriminate].
  apply String.eqb_eq in Ec.
  destruct (first_of_type "identifier" (children curr)) as [child|]; [|discriminate].
  destruct (str_in (_get_node_text child) types) eqn:Ei; [|discriminate].
  destruct (context_name curr) as [nm|]; [|discriminate].
  destruct (PyStr.truthy nm) eqn:Et; [|discriminate].
  intros H. injection H as <- <- <-.
  apply str_in_In in Ei. auto.
Qed.

Lemma context_from_sound types curr name ident line :
  context_from types curr = Some (name, ident, line) ->
  In ident types /\ PyStr.truthy name = true
  /\ exists a, In a (self_and_ancestors curr) /\ ts_type a = "call"
               /\ line = start_row a + 1.
Proof.
  induction curr as [curr IH] using parent_chain_ind.
  rewrite context_from_unfold, self_and_ancestors_unfold.
  destruct (context_at types curr) as [[[nm id] ln]|] eqn:Ea.
  - intros H. injection H as -> -> ->.
    destruct (context_at_sound _ _ _ _ _ Ea) as (H1 & H2 & H3 & H4).
    split; [exact H1|]. split; [exact H2|]. exists curr. simpl. auto.
  - destruct (parent curr) as [p|]; [|discriminate].
    intros H. destruct (IH H) as (H1 & H2 & a & Ha & H3 & H4).
    split; [exact H1|]. split; [exact H2|]. exists a. simpl. auto.
Qed.

(** X4.  When the Elixir [_get_parent_context] finds a context, its
    type is one of [types], its name is not empty, and its line is the first
    line of a [call] node that encloses the node. *)
Theorem parent_context_from_enclosing_call node types name ident line :
  _get_parent_context node types = Some (name, ident, line) ->
  In ident types /\ PyStr.truthy name = true
  /\ exists a, In a (ancestors node) /\ ts_type a = "call" /\ line = start_row a + 1.
Proof.
  unfold _get_parent_context, ancestors.
  destruct (parent node) as [p|]; [apply context_from_sound|discriminate].
Qed.

Lemma parent_context_from_enclosing_call_witness :
  _get_parent_context SampleTree.inner_node default_types = Some ("M", "defmodule", 1)
  /\ In "defmodule" default_types.
Proof.
  split; [reflexivity|].
  apply (parent_context_from_enclosing_call SampleTree.inner_node default_types
           "M" "defmodule" 1).
  reflexivity.
Defined.

(** *** The class context of a call *)

Lemma str_in_single s t : str_in s [t] = String.eqb s t.
Proof. unfold str_in. simpl. apply orb_false_r. Qed.

Lemma context_at_module types curr :
  In "defmodule" types ->
  context_at ["defmodule"] curr = only_module (context_at types curr).
Proof.
  intros Hin. unfold context_at.
  destruct (String.eqb (ts_type curr) "call"); [|reflexivity].
  destruct (first_of_type "identifier" (children curr)) as [child|]; [|reflexivity].
  rewrite str_in_single.
  destruct (String.eqb (_get_node_text child) "defmodule") eqn:E.
  - apply String.eqb_eq in E. rewrite E.
    apply str_in_In in Hin. rewrite Hin.
    destruct (context_name curr) as [nm|]; [|reflexivity].
    destruct (PyStr.truthy nm); reflexivity.
  - destruct (str_in _ types); [|reflexivity].
    destruct (context_name curr) as [nm|]; [|reflexivity].
    destruct (PyStr.truthy nm); [|reflexivity].
    simpl. now rewrite E.
Qed.

(** When the nearest context of the types [types] is a module, it is the
    nearest module; when there is no context, there is no module. *)
Lemma context_from_module types curr :
  In "defmodule" types ->
  match context_from types curr with
  | Some (name, ident, line) =>
      ident = "defmodule" -> context_from ["defmodule"] curr = Some (name, ident, line)
  | None => context_from ["defmodule"] curr = None
  end.
Proof.
  intros Hin. induction curr as [curr IH] using parent_chain_ind.
  rewrite !(context_from_unfold _ curr), (context_at_module types curr Hin).
  destruct (context_at types curr) as [[[nm id] ln]|]; simpl.
  - intros ->. reflexivity.
  - destruct (parent curr) as [p|]; [exact IH|reflexivity].
Qed.

(** X5.  The [class_context] of every call entry is the name of the
    nearest enclosing [defmodule], or [None] when there is none, whichever
    of the branches of [_find_calls] computes it. *)
Theorem call_class_context_is_enclosing_module r :
  Forall (fun e => get_item "class_context" e = Some (opt_str (context_of (cl_node r))))
         (call_entry r).
Proof.
  unfold call_entry.
  destruct (cl_method r) as [method|]; [|constructor].
  destruct (PyStr.truthy method); constructor; [|constructor].
  cbn [get_item assoc String.eqb Ascii.eqb Bool.eqb]. do 2 f_equal.
  unfold context_of, _get_parent_context.
  destruct (parent (cl_node r)) as [p|]; [|reflexivity].
  pose proof (context_from_module default_types p (or_introl eq_refl)) as Hm.
  pose proof (context_from_sound default_types p) as Hs.
  destruct (context_from default_types p) as [[[nm id] ln]|]; cbn [option_map fst snd].
  - destruct (Hs _ _ _ eq_refl) as (Hin & _).
    destruct Hin as [<-|[<-|[<-|[]]]].
    + now rewrite (Hm eq_refl).
    + reflexivity.
    + reflexivity.
  - now rewrite Hm.
Qed.

(** *** Complexity *)

Lemma point_here_bounds n : 0 <= point_here n <= 1.
Proof.
  unfold point_here.
  repeat match goal with |- context [if ?b then _ else _] => destruct b end; lia.
Qed.

Lemma tree_size_step n :
  tree_size n = 1 + fold_right (fun c acc => tree_size c + acc) 0 (children n).
Proof. destruct n as [i ty tx sb eb sr er cs pa ps]. reflexivity. Qed.

Lemma decision_points_bounds n : 0 <= decision_points n <= tree_size n.
Proof.
  induction n as [n IH] using children_ind.
  rewrite decision_points_step, tree_size_step.
  pose proof (point_here_bounds n) as Hh.
  assert (Hc : 0 <= fold_right (fun c acc => decision_points c + acc) 0 (children n)
               <= fold_right (fun c acc => tree_size c + acc) 0 (children n)).
  { induction IH as [|c cs Hc _ IHcs]; cbn [fold_right]; lia. }
  lia.
Qed.

(** X6.  When [_calculate_complexity] returns, the tree is no deeper
    than the calls allowed and the complexity is 1 plus the decision points
    of the tree, hence at least 1 and at most 1 plus the number of its nodes.
    When it raises, it raises [RecursionError], and the tree is deeper than
    the calls allowed. *)
Theorem complexity_between_one_and_size frames node :
  match _calculate_complexity frames node with
  | PyFile.Ok complexity =>
      (frames_needed node <= frames)%nat
      /\ complexity = 1 + decision_points node
      /\ 1 <= complexity <= 1 + tree_size node
  | PyFile.Raise e => e = PyFile.RecursionError /\ (frames < frames_needed node)%nat
  end.
Proof.
  unfold _calculate_complexity. rewrite traverse_fits.
  pose proof (decision_points_bounds node) as Hb.
  destruct (Nat.leb_spec (frames_needed node) frames) as [H|H]; cbn [PyFile.bind].
  - split; [exact H|]. split; [reflexivity|lia].
  - now split.
Qed.

(** *** Docstrings *)

Lemma prefix_split p s : String.prefix p s = true <-> exists r, s = String.append p r.
Proof.
  revert s. induction p as [|c p IH]; intros s.
  - split; [intros _; now exists s|intros _; now destruct s].
  - destruct s as [|d s].
    + split; [discriminate|intros (r & E); discriminate E].
    + cbn -[Ascii.ascii_dec]. destruct (Ascii.ascii_dec c d) as [->|Hne].
      * rewrite IH. split; intros (r & E); exists r.
        -- now rewrite E.
        -- now injection E.
      * split; [discriminate|]. intros (r & E). injection E as E1 E2. congruence.
Qed.

Lemma rstrip_by_keeps_prefix q p rest :
  forallb (fun c => negb (q c)) (list_ascii_of_string p) = true ->
  exists r, PyStr.rstrip_by q (String.append p rest) = String.append p r.
Proof.
  induction p as [|c p IH]; intros H.
  - now exists (PyStr.rstrip_by q rest).
  - cbn [list_ascii_of_string forallb] in H. apply andb_prop in H as [Hc Hp].
    destruct (IH Hp) as (r & E). exists r.
    rewrite !append_cons. cbn [PyStr.rstrip_by]. rewrite E.
    apply negb_true_iff in Hc.
    destruct (String.append p r) eqn:Ea; [now rewrite Hc|reflexivity].
Qed.

Lemma strip_keeps_prefix text p :
  PyStr.truthy p = true ->
  forallb (fun c => negb (PyStr.isspace c)) (list_ascii_of_string p) = true ->
  PyStr.startswith text p = true ->
  PyStr.startswith (PyStr.strip text) p = true.
Proof.
  intros Ht Hp Hs. unfold PyStr.startswith in *.
  apply prefix_split in Hs as (rest & ->).
  unfold PyStr.strip. rewrite lstrip_by_fixed.
  - destruct (rstrip_by_keeps_prefix PyStr.isspace p rest Hp) as (r & ->).
    apply prefix_split. now exists r.
  - destruct p as [|c p]; [discriminate|].
    cbn [list_ascii_of_string forallb] in Hp. apply andb_prop in Hp as [Hc _].
    now apply negb_true_iff in Hc.
Qed.

Lemma docstring_from_unfold prev :
  docstring_from prev
  = let text := _get_node_text prev in
    let continue :=
      match prev_sibling prev with
      | Some p => docstring_from p
      | None => None
      end in
    if String.eqb (ts_type prev) "unary_operator" then
      if PyStr.startswith text "@doc" || PyStr.startswith text "@moduledoc"
      then Some (PyStr.strip text) else continue
    else if String.eqb (ts_type prev) "comment" then
      if PyStr.startswith text "#" then Some (PyStr.strip text) else continue
    else None.
Proof. destruct prev as [i ty tx sb eb sr er cs pa [p|]]; reflexivity. Qed.

Lemma docstring_from_shape prev d :
  docstring_from prev = Some d -> PyStr.strip d = d /\ docstring_start d = true.
Proof.
  induction prev as [prev IH] using prev_chain_ind.
  rewrite docstring_from_unfold. cbv zeta.
  assert (Hc : match prev_sibling prev with
               | Some p => docstring_from p
               | None => None
               end = Some d -> PyStr.strip d = d /\ docstring_start d = true).
  { destruct (prev_sibling prev) as [p|]; [exact IH|discriminate]. }
  unfold docstring_start.
  destruct (String.eqb (ts_type prev) "unary_operator").
  - destruct (PyStr.startswith (_get_node_text prev) "@doc") eqn:E1.
    + intros H. injection H as <-. split; [apply strip_idem|].
      now rewrite (strip_keeps_prefix _ "@doc" eq_refl eq_refl E1).
    + destruct (PyStr.startswith (_get_node_text prev) "@moduledoc") eqn:E2; [|exact Hc].
      intros H. injection H as <-. split; [apply strip_idem|].
      rewrite (strip_keeps_prefix _ "@moduledoc" eq_refl eq_refl E2).
      now rewrite orb_true_r.
  - destruct (String.eqb (ts_type prev) "comment"); [|discriminate].
    destruct (PyStr.startswith (_get_node_text prev) "#") eqn:E3; [|exact Hc].
    intros H. injection H as <-. split; [apply strip_idem|].
    rewrite (strip_keeps_prefix _ "#" eq_refl eq_refl E3).
    now rewrite orb_true_r.
Qed.

(** X7.  A docstring that [_get_docstring] returns has no white space
    around it and begins with [@doc], [@moduledoc] or [#]. *)
Theorem docstring_is_stripped_doc_or_comment node d :
  _get_docstring node = Some d -> PyStr.strip d = d /\ docstring_start d = true.
Proof.
  unfold _get_docstring.
  destruct (prev_sibling node) as [p|]; [apply docstring_from_shape|discriminate].
Qed.

Lemma docstring_is_stripped_doc_or_comment_witness :
  _get_docstring SampleTree.inner_node = Some "# greets"
  /\ PyStr.strip "# greets" = "# greets" /\ docstring_start "# greets" = true.
Proof.
  split; [reflexivity|].
  apply (docstring_is_stripped_doc_or_comment SampleTree.inner_node). reflexivity.
Defined.

End TreeHelpers.

(** ** The tables of captures *)

Section Captures.
Import Elixir.
Context (ts : TreeSitter).

Lemma map_ext_Forall {A B} (f g : A -> B) l :
  Forall (fun x => f x = g x) l -> map f l = map g l.
Proof. induction 1 as [|x l Hx _ IH]; simpl; [reflexivity|now rewrite Hx, IH]. Qed.

(** The second loop acts on every record on its own. *)
Lemma attach_pointwise {R} (node_of : R -> TSNode) update all_captures :
  (forall cn t r, node_of (update cn t r) = node_of r) ->
  forall d : list (nat * R),
    attach node_of update all_captures d
    = map (fun e => (fst e,
                     fold_left (fun r c => if within (fst c) (node_of r)
                                           then update (snd c) (_get_node_text (fst c)) r
                                           else r)
                               all_captures (snd e))) d.
Proof.
  intros Hn. unfold attach.
  induction all_captures as [|c cs IH]; intros d; cbn [fold_left].
  - rewrite <- (map_id d) at 1. apply map_ext. now intros [k r].
  - rewrite IH, map_map. apply map_ext. intros [k r]. cbn [fst snd].
    destruct (within (fst c) (node_of r)); reflexivity.
Qed.

Lemma dict_set_In {V} k (v : V) d e :
  In e (dict_set k v d) -> e = (k, v) \/ In e d.
Proof.
  induction d as [|[k' v'] d IH]; simpl.
  - intros [<-|[]]. now left.
  - destruct (Nat.eqb k' k); simpl.
    + intros [<-|H]; [now left|right; now right].
    + intros [<-|H]; [right; now left|]. destruct (IH H) as [->|H']; [now left|right; now right].
Qed.

Lemma seed_In {R} is_whole (init : TSNode -> string -> R) all_captures e :
  In e (seed is_whole init all_captures) ->
  exists c, In c all_captures /\ is_whole (snd c) = true /\ snd e = init (fst c) (snd c).
Proof.
  unfold seed.
  assert (G : forall d,
             (forall e, In e d -> exists c, In c all_captures /\ is_whole (snd c) = true
                                            /\ snd e = init (fst c) (snd c)) ->
             forall cs, incl cs all_captures ->
             In e (fold_left (fun d c => if is_whole (snd c)
                                         then dict_set (ts_id (fst c)) (init (fst c) (snd c)) d
                                         else d) cs d) ->
             exists c, In c all_captures /\ is_whole (snd c) = true
                       /\ snd e = init (fst c) (snd c)).
  { intros d Hd cs. revert d Hd. induction cs as [|c cs IH]; intros d Hd Hi; cbn [fold_left].
    - apply Hd.
    - apply IH; [|intros x Hx; apply Hi; now right].
      destruct (is_whole (snd c)) eqn:Ew; [|exact Hd].
      intros e' He'. apply dict_set_In in He' as [->|He']; [|now apply Hd].
      exists c. split; [apply Hi; now left|]. now split. }
  apply (G [] (fun e H => match H with end) all_captures). apply incl_refl.
Qed.

Lemma func_update_node cn t r : fd_node (func_update cn t r) = fd_node r.
Proof.
  unfold func_update.
  repeat match goal with |- context [if ?b then _ else _] => destruct b end; reflexivity.
Qed.

Lemma func_fields_fold n all_captures : forall a b c,
  fold_left (fun r cp => if within (fst cp) (fd_node r)
                         then func_update (snd cp) (_get_node_text (fst cp)) r
                         else r)
            all_captures (mk_func_data n a b c)
  = mk_func_data n
      (fold_left (fun acc cp => if String.eqb (snd cp) "func_name" && within (fst cp) n
                                then Some (ts_text (fst cp)) else acc) all_captures a)
      (fold_left (fun acc cp => if String.eqb (snd cp) "func_args" && within (fst cp) n
                                then Some (ts_text (fst cp)) else acc) all_captures b)
      (fold_left (fun acc cp => if String.eqb (snd cp) "def_type" && within (fst cp) n
                                then Some (ts_text (fst cp)) else acc) all_captures c).
Proof.
  induction all_captures as [|cp cs IH]; intros a b c; cbn [fold_left]; [reflexivity|].
  cbn [fd_node]. destruct (within (fst cp) n) eqn:Ew.
  - unfold func_update. cbn [fd_node fd_name fd_args fd_def_type].
    rewrite !andb_true_r.
    destruct (String.eqb (snd cp) "func_name") eqn:E1.
    { apply String.eqb_eq in E1. rewrite E1. cbn [String.eqb Ascii.eqb Bool.eqb]. 
      simpl. apply IH. }
    destruct (String.eqb (snd cp) "func_args") eqn:E2.
    { apply String.eqb_eq in E2. rewrite E2. simpl. apply IH. }
    destruct (String.eqb (snd cp) "def_type") eqn:E3; apply IH.
  - rewrite !andb_false_r. apply IH.
Qed.

(** X8.  [_find_functions] makes its entries from the table of function
    records, and in that table the name, the arguments and the kind of a
    record are the texts of the last captures of each kind that lie within
    the byte range of its node, whichever definition they were captured
    for. *)
Theorem function_record_keeps_last_captures frames index_source root_node :
  let all_captures := execute_query ts (ELIXIR_QUERIES "functions") root_node in
  _find_functions ts frames index_source root_node
  = PyFile.collect (fun e => func_entry frames index_source (snd e))
                   (functions_data ts root_node)
  /\ Forall (fun e =>
               let r := snd e in
               fd_name r = last_text "func_name" (fd_node r) all_captures
               /\ fd_args r = last_text "func_args" (fd_node r) all_captures
               /\ fd_def_type r = last_text "def_type" (fd_node r) all_captures)
            (functions_data ts root_node).
Proof.
  intros all_captures. split; [reflexivity|].
  unfold functions_data. fold all_captures.
  rewrite (attach_pointwise fd_node func_update all_captures func_update_node).
  apply Forall_map. apply Forall_forall. intros e He.
  apply seed_In in He as (c & _ & _ & ->). cbn [fst snd].
  rewrite func_fields_fold. cbn [fd_name fd_args fd_def_type fd_node].
  unfold last_text. auto.
Qed.

(** *** Nested modules *)

Lemma within_trans a b c : within a b = true -> within b c = true -> within a c = true.
Proof.
  unfold within. rewrite !andb_true_iff, !Z.leb_le. lia.
Qed.

Lemma set_first_within_unnamed c d : forall before,
  existsb (within c) before = false ->
  unnamed_if_nested before d -> unnamed_if_nested before (set_first_within c d).
Proof.
  induction d as [|[k r] d IH]; intros before Hc H; [exact H|].
  cbn [set_first_within]. destruct H as [Hr Hd]. cbn [snd] in Hr, Hd.
  destruct (within c (cd_node r)) eqn:Ew.
  - split; [|exact Hd]. cbn [snd cd_node cd_name]. intros Hb. exfalso.
    apply existsb_exists in Hb as (b & Hb & Hw).
    assert (existsb (within c) before = true); [|congruence].
    apply existsb_exists. exists b. split; [exact Hb|].
    now apply (within_trans _ (cd_node r)).
  - split; [exact Hr|]. cbn [snd]. apply IH; [|exact Hd].
    rewrite existsb_app. cbn [existsb]. now rewrite Hc, Ew.
Qed.

Lemma unnamed_initial d : forall before,
  Forall (fun e => cd_name (snd e) = None) d -> unnamed_if_nested before d.
Proof.
  induction d as [|e d IH]; intros before H; [exact I|].
  inversion H as [|? ? He Hd]; subst. split; [now intros _|now apply IH].
Qed.

Lemma unnamed_at d1 k r d2 : forall before,
  unnamed_if_nested before (d1 ++ (k, r) :: d2) ->
  existsb (within (cd_node r)) (before ++ map (fun e => cd_node (snd e)) d1) = true ->
  cd_name r = None.
Proof.
  induction d1 as [|e d1 IH]; intros before H Hb.
  - destruct H as [H _]. apply H. cbn [map] in Hb. now rewrite app_nil_r in Hb.
  - destruct H as [_ H]. apply (IH _ H). cbn [map] in Hb.
    now rewrite <- app_assoc.
Qed.

Lemma classes_data_unnamed root_node : unnamed_if_nested [] (classes_data ts root_node).
Proof.
  unfold classes_data.
  set (caps := execute_query ts (ELIXIR_QUERIES "classes") root_node).
  assert (H0 : unnamed_if_nested []
                 (seed (fun c => str_in c ["module_def"; "proto_def"])
                       (fun n c => mk_class_data n None c) caps)).
  { apply unnamed_initial. apply Forall_forall. intros e He.
    apply seed_In in He as (c & _ & _ & ->). reflexivity. }
  revert H0. generalize (seed (fun c => str_in c ["module_def"; "proto_def"])
                              (fun n c => mk_class_data n None c) caps).
  generalize caps. clear caps.
  induction caps as [|c cs IH]; intros d H; cbn [fold_left]; [exact H|].
  apply IH. destruct (str_in (snd c) _); [|exact H].
  now apply set_first_within_unnamed.
Qed.

(** X9.  In [_find_classes] a name goes to the first record whose node
    contains it: a module or protocol whose node lies within the node of a
    record that comes before it in the table never gets a name, and no entry
    is made for it. *)
Theorem nested_module_gets_no_entry index_source root_node d1 k r d2 :
  classes_data ts root_node = app d1 ((k, r) :: d2) ->
  existsb (fun e => within (cd_node r) (cd_node (snd e))) d1 = true ->
  cd_name r = None /\ class_entry index_source r = [].
Proof.
  intros E Hb.
  assert (Hn : cd_name r = None).
  { apply (unnamed_at d1 k r d2 []).
    - rewrite <- E. apply classes_data_unnamed.
    - cbn [app]. clear E. induction d1 as [|e d1 IH]; [discriminate|].
      cbn [existsb map] in Hb |- *.
      destruct (within (cd_node r) (cd_node (snd e))); [reflexivity|now apply IH]. }
  split; [exact Hn|]. unfold class_entry. now rewrite Hn.
Qed.

Lemma find_classes_from_data index_source root_node :
  _find_classes ts index_source root_node
  = flat_map (fun e => class_entry index_source (snd e)) (classes_data ts root_node).
Proof. reflexivity. Qed.

End Captures.

Lemma nested_module_gets_no_entry_witness :
  Elixir._find_classes SampleNested.tree_sitter false SampleNested.outer
  = Elixir.class_entry false
      (Elixir.mk_class_data SampleNested.outer (Some "B") "module_def")
  /\ Elixir.class_entry false
       (Elixir.mk_class_data SampleNested.inner None "module_def") = [].
Proof.
  split; [reflexivity|].
  apply (nested_module_gets_no_entry SampleNested.tree_sitter false SampleNested.outer
           [(1%nat, Elixir.mk_class_data SampleNested.outer (Some "B") "module_def")]
           3%nat (Elixir.mk_class_data SampleNested.inner None "module_def") []);
    reflexivity.
Defined.

(** ** The pre-scans *)

Section PreScan.
Import PyFile.
Context (ts : TreeSitter) (fs : file_system) (resolve_path : string -> string).

Lemma map_get_append name n p m :
  map_get name (map_append n p m)
  = if String.eqb n name then Some (app (listed_under name (m)) [p])
    else map_get name m.
Proof.
  unfold listed_under.
  induction m as [|[k v] m IH]; cbn [map_append map_get].
  - destruct (String.eqb n name); reflexivity.
  - destruct (String.eqb k n) eqn:Ekn; cbn [map_get].
    + apply String.eqb_eq in Ekn. subst k.
      destruct (String.eqb n name); reflexivity.
    + rewrite IH. destruct (String.eqb k name) eqn:Ek; [|reflexivity].
      apply String.eqb_eq in Ek. subst k. now rewrite String.eqb_sym, Ekn.
Qed.

Lemma map_append_keys n p m k :
  In k (map fst (map_append n p m)) <-> k = n \/ In k (map fst m).
Proof.
  induction m as [|[k' v] m IH]; cbn [map_append].
  - simpl. intuition.
  - destruct (String.eqb k' n) eqn:E; cbn [map fst In].
    + apply String.eqb_eq in E. subst k'. intuition.
    + rewrite IH. intuition.
Qed.

Lemma map_append_NoDup n p m :
  NoDup (map fst m) -> NoDup (map fst (map_append n p m)).
Proof.
  induction m as [|[k v] m IH]; cbn [map_append]; intros H.
  - simpl. constructor; [intros []|constructor].
  - inversion H as [|? ? Hk Hm]; subst.
    destruct (String.eqb k n) eqn:E; cbn [map fst].
    + now constructor.
    + constructor; [|now apply IH].
      rewrite map_append_keys. intros [->|Hin]; [|now apply Hk].
      now rewrite String.eqb_refl in E.
Qed.

Lemma map_append_filled n p m :
  Forall (fun e => snd e <> []) m -> Forall (fun e => snd e <> []) (map_append n p m).
Proof.
  induction m as [|[k v] m IH]; cbn [map_append]; intros H.
  - constructor; [discriminate|constructor].
  - inversion H as [|? ? Hv Hm]; subst.
    destruct (String.eqb k n); constructor; auto.
    cbn [snd]. intros E. now apply app_eq_nil in E as [_ E].
Qed.

Lemma map_get_filled name m :
  Forall (fun e => snd e <> []) m ->
  map_get name m = some_if_listed (listed_under name (m)).
Proof.
  unfold listed_under.
  induction 1 as [|[k v] m Hv _ IH]; cbn [map_get]; [reflexivity|].
  destruct (String.eqb k name); [|exact IH].
  cbn [snd] in *. now destruct v.
Qed.

Lemma scan_captures_listed cap rp name caps : forall m,
  listed_under name ((fold_left (fun m c => if String.eqb (snd c) cap
                                       then map_append (ts_text (fst c)) rp m else m)
                           caps m))
  = app (listed_under name (m))
        (map (fun _ => rp)
             (filter (fun c => String.eqb (snd c) cap && String.eqb (ts_text (fst c)) name)
                     caps)).
Proof.
  induction caps as [|c cs IH]; intros m; cbn [fold_left filter map].
  - now rewrite app_nil_r.
  - rewrite IH. destruct (String.eqb (snd c) cap); cbn [andb]; [|reflexivity].
    unfold listed_under at 1. rewrite map_get_append.
    destruct (String.eqb (ts_text (fst c)) name); [|reflexivity].
    cbn [map]. now rewrite <- app_assoc.
Qed.

Lemma scan_captures_ok cap rp caps : forall m,
  scan_ok m ->
  scan_ok (fold_left (fun m c => if String.eqb (snd c) cap
                                 then map_append (ts_text (fst c)) rp m else m)
                     caps m).
Proof.
  induction caps as [|c cs IH]; intros m H; cbn [fold_left]; [exact H|].
  apply IH. destruct (String.eqb (snd c) cap); [|exact H].
  destruct H as [H1 H2]. split; [now apply map_append_NoDup|now apply map_append_filled].
Qed.

Lemma pre_scan_file_listed query_str cap name m path :
  listed_under name ((pre_scan_file ts fs resolve_path query_str cap m path))
  = app (listed_under name (m))
        (map (fun _ => resolve_path path)
             (occurrences_in ts fs query_str cap name path)).
Proof.
  unfold pre_scan_file, occurrences_in.
  destruct (read_text fs Strict path) as [source|e].
  - apply scan_captures_listed.
  - now rewrite app_nil_r.
Qed.

Lemma pre_scan_file_ok query_str cap m path :
  scan_ok m -> scan_ok (pre_scan_file ts fs resolve_path query_str cap m path).
Proof.
  intros H. unfold pre_scan_file.
  destruct (read_text fs Strict path) as [source|e]; [|exact H].
  now apply scan_captures_ok.
Qed.

Lemma pre_scan_fold query_str cap name files : forall m,
  scan_ok m ->
  let m' := fold_left (pre_scan_file ts fs resolve_path query_str cap) files m in
  scan_ok m'
  /\ listed_under name (m')
     = app (listed_under name (m))
           (listed_paths ts fs resolve_path query_str cap name files).
Proof.
  unfold listed_paths.
  induction files as [|path files IH]; intros m H; cbn [fold_left flat_map].
  - split; [exact H|now rewrite app_nil_r].
  - destruct (IH _ (pre_scan_file_ok query_str cap m path H)) as [H1 H2].
    split; [exact H1|]. cbv zeta in H2. rewrite H2, pre_scan_file_listed.
    now rewrite <- app_assoc.
Qed.

Lemma pre_scan_lookup query_str cap name files :
  let m := fold_left (pre_scan_file ts fs resolve_path query_str cap) files [] in
  map_get name m
  = some_if_listed (listed_paths ts fs resolve_path query_str cap name files)
  /\ NoDup (map fst m).
Proof.
  assert (H0 : scan_ok []) by (split; constructor).
  destruct (pre_scan_fold query_str cap name files [] H0) as [[H1 H2] H3].
  cbv zeta. split; [|exact H1].
  rewrite (map_get_filled _ _ H2), H3. reflexivity.
Qed.

(** X10.  The map that [pre_scan_elixir] returns has every name once,
    and under a name the resolved path of a file once for every capture of
    that name in it, file after file, for the files that can be read as
    UTF-8; a name that no such file captures is not in the map. *)
Theorem pre_scan_elixir_lists_every_capture files name :
  map_get name (pre_scan_elixir ts fs resolve_path files)
  = some_if_listed (listed_paths ts fs resolve_path "pre_scan_elixir" "name" name files)
  /\ NoDup (map fst (pre_scan_elixir ts fs resolve_path files)).
Proof. apply pre_scan_lookup. Qed.

(** X11.  The map that [pre_scan_heex] returns has every component name
    once, and under a name the resolved path of a file once for every
    capture of that name in it, file after file, for the files that can be
    read as UTF-8; a name that no such file captures is not in the map. *)
Theorem pre_scan_heex_lists_every_capture files name :
  map_get name (pre_scan_heex ts fs resolve_path files)
  = some_if_listed (listed_paths ts fs resolve_path "pre_scan_heex" "comp_name" name files)
  /\ NoDup (map fst (pre_scan_heex ts fs resolve_path files)).
Proof. apply pre_scan_lookup. Qed.

(** X12.  A file whose bytes are not valid UTF-8 adds nothing to the map
    of either pre-scan, which open it without an error handler and go on
    with the next file; [parse] does read such a file, and the HEEx parser
    returns a record for it. *)
Theorem pre_scan_skips_file_that_parse_accepts files1 path files2 bs
    is_dependency index_source :
  has_null path = false ->
  fs path = Some bs ->
  utf8_decode Strict (map Byte.to_N bs) = None ->
  pre_scan_elixir ts fs resolve_path (app files1 (path :: files2))
  = pre_scan_elixir ts fs resolve_path (app files1 files2)
  /\ pre_scan_heex ts fs resolve_path (app files1 (path :: files2))
     = pre_scan_heex ts fs resolve_path (app files1 files2)
  /\ (exists source_code, read_source fs path = Ok source_code)
  /\ (exists r, Heex.parse ts fs path is_dependency index_source = Ok r).
Proof.
  intros Hn E Hd.
  assert (Hs : forall q c m, pre_scan_file ts fs resolve_path q c m path = m).
  { intros q c m. unfold pre_scan_file, read_text. now rewrite Hn, E, Hd. }
  unfold pre_scan_elixir, pre_scan_heex.
  rewrite !fold_left_app. cbn [fold_left]. rewrite !Hs.
  split; [reflexivity|]. split; [reflexivity|].
  destruct (read_text_handled fs path bs Hn E) as (marks & _ & Hr & _).
  split; [eexists; exact Hr|].
  unfold Heex.parse. rewrite Hr. eexists; reflexivity.
Qed.

End PreScan.

Lemma pre_scan_skips_file_that_parse_accepts_witness :
  pre_scan_elixir SampleScan.tree_sitter SampleScan.files (fun p => p)
                  ["lib/a.ex"; "lib/b.ex"]
  = [("Greeter", ["lib/b.ex"])]
  /\ exists r, Heex.parse SampleScan.tree_sitter SampleScan.files "lib/a.ex" false false
               = PyFile.Ok r.
Proof.
  destruct (pre_scan_skips_file_that_parse_accepts SampleScan.tree_sitter SampleScan.files
              (fun p => p) [] "lib/a.ex" ["lib/b.ex"] [Byte.x61; Byte.xff; Byte.x62]
              false false eq_refl eq_refl eq_refl) as (H1 & _ & _ & H2).
  split; [|exact H2]. cbn [app] in H1. rewrite H1. reflexivity.
Defined.

(** ** The HEEx parser *)

Section HeexImports.
Context (ts : TreeSitter).

Lemma rsplit_head_split sep s h :
  Heex.rsplit_head sep s = Some h ->
  exists rest, s = String.append h (String sep rest) /\ PyStr.mem sep rest = false.
Proof.
  revert h. induction s as [|c s IH]; intros h; cbn [Heex.rsplit_head]; [discriminate|].
  destruct (Heex.rsplit_head sep s) as [h'|] eqn:E.
  - intros H. injection H as <-. destruct (IH h' eq_refl) as (rest & -> & Hr).
    exists rest. split; [reflexivity|exact Hr].
  - destruct (Ascii.eqb c sep) eqn:Ec; [|discriminate].
    intros H. injection H as <-. apply Ascii.eqb_eq in Ec. subst c.
    exists s. split; [reflexivity|].
    clear IH. induction s as [|d s IHs]; [reflexivity|].
    cbn [Heex.rsplit_head] in E. cbn [PyStr.mem].
    destruct (Heex.rsplit_head sep s) as [h'|]; [discriminate|].
    destruct (Ascii.eqb d sep) eqn:Ed; [discriminate|].
    rewrite Ascii.eqb_sym, Ed. now apply IHs.
Qed.

Lemma import_step_ok st node : import_state_ok st -> import_state_ok (Heex.import_step st node).
Proof.
  destruct st as [seen imports]. intros (Hn & Hd & Hs). unfold Heex.import_step.
  destruct (PyStr.contains (Heex._get_node_text node) "."
            && negb (PyStr.startswith (Heex._get_node_text node) ".")) eqn:Ec;
    [|now split].
  apply andb_prop in Ec as [_ Hdot]. apply negb_true_iff in Hdot.
  destruct (Heex.rsplit_head "." (Heex._get_node_text node)) as [m|] eqn:Er; [|now split].
  destruct (str_in m seen) eqn:Ei; [now split|].
  destruct (rsplit_head_split _ _ _ Er) as (rest & Et & Hr).
  cbn [fst snd] in *. unfold import_state_ok. cbn [fst snd]. split; [|split].
  - rewrite map_app, Hn. cbn [rev map]. now rewrite map_app.
  - constructor; [|exact Hd]. intros Hin. apply str_in_In in Hin. congruence.
  - apply Forall_app. split; [exact Hs|]. constructor; [|constructor].
    exists m, rest. split; [reflexivity|]. split; [|split; [|exact Hr]].
    + cbn [get_item assoc String.eqb Ascii.eqb Bool.eqb]. now rewrite Et.
    + destruct m; [|reflexivity]. rewrite Et, append_nil_l in Hdot.
      unfold PyStr.startswith in Hdot. simpl in Hdot. now destruct rest.
Qed.

Lemma NoDup_map_injective {A B} (f : A -> B) l :
  (forall x y, f x = f y -> x = y) -> NoDup l -> NoDup (map f l).
Proof.
  intros Hf. induction 1 as [|x l Hx _ IH]; simpl; constructor; [|exact IH].
  intros Hin. apply in_map_iff in Hin as (y & E & Hy). apply Hf in E. now subst.
Qed.

(** X13.  The imports that the HEEx [_find_imports] returns name every
    module once; the name of each is not empty, and is what stands before
    the last dot of the component that is recorded as its full name. *)
Theorem heex_imports_name_each_module_once root_node :
  NoDup (map (get_item "name") (Heex._find_imports ts root_node))
  /\ Forall import_shape (Heex._find_imports ts root_node).
Proof.
  unfold Heex._find_imports.
  assert (H : import_state_ok
                (fold_left Heex.import_step
                           (Heex.captured ts "component_names" "comp_name" root_node)
                           ([], []))).
  { assert (H0 : import_state_ok (@nil string, @nil pyval))
      by (split; [reflexivity|split; constructor]).
    revert H0. generalize (@nil string, @nil pyval).
    induction (Heex.captured ts "component_names" "comp_name" root_node) as [|n l IH];
      intros st H0; cbn [fold_left]; [exact H0|].
    apply IH. now apply import_step_ok. }
  destruct H as (Hn & Hd & Hs). split; [|exact Hs].
  rewrite Hn. apply NoDup_map_injective.
  - intros x y E. now injection E.
  - apply NoDup_rev. exact Hd.
Qed.

End HeexImports.

Section HeexParentContext.
Import HeexContext.

Lemma heex_context_from_unfold types curr :
  context_from types curr
  = match context_at types curr with
    | Some r => Some r
    | None => match parent curr with
              | Some p => context_from types p
              | None => None
              end
    end.
Proof. destruct curr as [i ty tx sb eb sr er cs [p|] ps]; reflexivity. Qed.

Lemma heex_context_from_sound types curr name ty line :
  context_from types curr = Some (name, ty, line) ->
  exists a, In a (self_and_ancestors curr) /\ ty = ts_type a /\ In ty types
            /\ line = start_row a + 1.
Proof.
  induction curr as [curr IH] using parent_chain_ind.
  rewrite heex_context_from_unfold, self_and_ancestors_unfold.
  destruct (context_at types curr) as [[[nm t] ln]|] eqn:Ea.
  - intros H. injection H as -> -> ->. exists curr.
    unfold context_at in Ea.
    destruct (str_in (ts_type curr) types) eqn:Ei; [|discriminate].
    destruct (first_name (children curr)); [|discriminate].
    injection Ea as _ <- <-. apply str_in_In in Ei. simpl. auto.
  - destruct (parent curr) as [p|]; [|discriminate].
    intros H. destruct (IH H) as (a & Ha & H1 & H2 & H3).
    exists a. simpl. auto.
Qed.

(** X14.  When the HEEx [_get_parent_context] finds a context, its type
    is one of [types] and is the type of a node that encloses the node, and
    its line is the first line of that node. *)
Theorem heex_parent_context_from_ancestor node types name ty line :
  _get_parent_context node types = Some (name, ty, line) ->
  exists a, In a (ancestors node) /\ ty = ts_type a /\ In ty types
            /\ line = start_row a + 1.
Proof.
  unfold _get_parent_context, ancestors.
  destruct (parent node) as [p|]; [apply heex_context_from_sound|discriminate].
Qed.

Lemma heex_parent_context_from_ancestor_witness :
  _get_parent_context SampleTemplate.paragraph default_types
  = Some (".card", "component", 4)
  /\ exists a, In a (ancestors SampleTemplate.paragraph) /\ "component" = ts_type a
               /\ In "component" default_types /\ 4 = start_row a + 1.
Proof.
  split; [reflexivity|].
  apply (heex_parent_context_from_ancestor SampleTemplate.paragraph default_types ".card").
  reflexivity.
Defined.

End HeexParentContext.

(** ** Labels, names and configuration *)

Section Labels.
Import Scip Reingest.

Lemma definition_label_is_target_label symbol_map sym :
  definition_label symbol_map sym = target_label symbol_map sym.
Proof.
  unfold definition_label, target_label.
  set (k := match symbol_map !! sym with Some i => kind i | None => 0 end).
  pose proof (infer_label_symbol sym) as Hi.
  destruct (KIND_TO_LABEL k) as [l|] eqn:E; cbn [default from_option id].
  - apply KIND_TO_LABEL_symbol in E. simpl in E.
    repeat (destruct E as [<-|E]; [cbn; try reflexivity|]); try destruct E.
    destruct (negb (_infer_label_from_symbol sym =? "Symbol")%string); cbn; [|reflexivity].
    simpl in Hi.
    repeat (destruct Hi as [<-|Hi]; [reflexivity|]). destruct Hi.
  - cbn. destruct (negb (_infer_label_from_symbol sym =? "Symbol")%string); cbn; [|reflexivity].
    simpl in Hi.
    repeat (destruct Hi as [<-|Hi]; [reflexivity|]). destruct Hi.
Qed.

(** X15.  The label that [_process_document] gives to the node of a
    definition and the label under which it merges the target of a reference
    to the same symbol are the same, and are one of the eight labels of
    [KIND_TO_LABEL]. *)
Theorem definition_and_target_labels_agree symbol_map sym :
  definition_label symbol_map sym = target_label symbol_map sym
  /\ In (definition_label symbol_map sym) symbol_labels.
Proof.
  split; [apply definition_label_is_target_label|apply definition_label_symbol].
Qed.

End Labels.

Section SymbolTable.
Import Scip.

Lemma add_symbols_lookup l : forall m sym,
  add_symbols m l !! sym
  = match last_info sym l with
    | Some i => Some i
    | None => m !! sym
    end.
Proof.
  unfold add_symbols, last_info.
  induction l as [|s l IH] using rev_ind; intros m sym; [reflexivity|].
  rewrite fold_left_app, rev_app_distr. cbn [fold_left rev app find].
  destruct (String.eqb_spec (info_symbol s) sym) as [<-|Hne].
  - apply lookup_insert_eq.
  - rewrite lookup_insert_ne by exact Hne. apply IH.
Qed.

Lemma last_info_app sym l1 l2 :
  last_info sym (app l1 l2)
  = match last_info sym l2 with
    | Some i => Some i
    | None => last_info sym l1
    end.
Proof.
  unfold last_info. rewrite rev_app_distr.
  induction (rev l2) as [|i r IH]; [reflexivity|].
  cbn [app find]. now destruct (String.eqb (info_symbol i) sym).
Qed.

Lemma fold_add_symbols_lookup docs : forall m sym,
  fold_left (fun m doc => add_symbols m (symbols doc)) docs m !! sym
  = match last_info sym (flat_map symbols docs) with
    | Some i => Some i
    | None => m !! sym
    end.
Proof.
  induction docs as [|doc docs IH]; intros m sym; cbn [fold_left flat_map]; [reflexivity|].
  rewrite IH, last_info_app, add_symbols_lookup.
  destruct (last_info sym (flat_map symbols docs)); reflexivity.
Qed.

(** X16.  The symbol table of [ingest_index] holds for every symbol its
    last description in the index, the external symbols first and then the
    symbols of the documents in their order: a description in a document
    overrides an external one. *)
Theorem symbol_table_keeps_last_description index sym :
  symbol_info_map index !! sym = last_info sym (all_symbols index).
Proof.
  unfold symbol_info_map, all_symbols.
  rewrite fold_add_symbols_lookup, last_info_app, add_symbols_lookup.
  rewrite lookup_empty.
  destruct (last_info sym (flat_map symbols (documents index))); [reflexivity|].
  now destruct (last_info sym (external_symbols index)).
Qed.

End SymbolTable.

Section ExtractName.
Import Scip.

Lemma mem_append x a b :
  PyStr.mem x (String.append a b) = PyStr.mem x a || PyStr.mem x b.
Proof.
  induction a as [|c a IH]; [reflexivity|].
  rewrite append_cons. cbn [PyStr.mem]. now rewrite IH, orb_assoc.
Qed.

Lemma mem_replace_from x old new s : forall skip,
  PyStr.mem x (PyStr.replace_from old new s skip) = true ->
  PyStr.mem x s = true \/ PyStr.mem x new = true.
Proof.
  induction s as [|c s IH]; intros skip; cbn [PyStr.replace_from]; [discriminate|].
  cbn [PyStr.mem]. destruct skip as [|k].
  - destruct (String.prefix old (String c s)).
    + rewrite mem_append. intros H. apply orb_prop in H as [H|H]; [now right|].
      apply IH in H as [H|H]; [left; now rewrite H, orb_true_r|now right].
    + cbn [PyStr.mem]. intros H. apply orb_prop in H as [H|H]; [left; now rewrite H|].
      apply IH in H as [H|H]; [left; now rewrite H, orb_true_r|now right].
  - intros H. apply IH in H as [H|H]; [left; now rewrite H, orb_true_r|now right].
Qed.

Lemma mem_replace x old new s :
  PyStr.truthy old = true ->
  PyStr.mem x (PyStr.replace old new s) = true ->
  PyStr.mem x s = true \/ PyStr.mem x new = true.
Proof.
  unfold PyStr.replace. destruct old; [discriminate|]. intros _. apply mem_replace_from.
Qed.

Lemma replace_from_char o new c s :
  PyStr.replace_from (String o EmptyString) new (String c s) O
  = if Ascii.eqb o c
    then String.append new (PyStr.replace_from (String o EmptyString) new s O)
    else String c (PyStr.replace_from (String o EmptyString) new s O).
Proof.
  cbn [PyStr.replace_from]. unfold String.prefix at 1. fold String.prefix.
  destruct (Ascii.ascii_dec o c) as [E|E].
  - subst c. rewrite Ascii.eqb_refl. now destruct s.
  - apply Ascii.eqb_neq in E. now rewrite E.
Qed.

(** Replacing a character leaves none of it, when the replacement has
    none. *)
Lemma mem_replace_char o new s :
  PyStr.mem o new = false ->
  PyStr.mem o (PyStr.replace (String o EmptyString) new s) = false.
Proof.
  intros Hn. unfold PyStr.replace.
  induction s as [|c s IH]; [reflexivity|].
  rewrite replace_from_char. destruct (Ascii.eqb o c) eqn:E.
  - now rewrite mem_append, Hn, IH.
  - cbn [PyStr.mem]. now rewrite E, IH.
Qed.

Lemma split_char_pieces sep s piece :
  In piece (PyStr.split_char sep s) ->
  PyStr.mem sep piece = false
  /\ forall x, PyStr.mem x piece = true -> PyStr.mem x s = true.
Proof.
  revert piece. induction s as [|c s IH]; intros piece; cbn [PyStr.split_char].
  - intros [<-|[]]. now split.
  - destruct (PyStr.split_char sep s) as [|p ps]; [intros [<-|[]]; now split|].
    destruct (Ascii.eqb c sep) eqn:Ec.
    + intros [<-|H]; [split; [reflexivity|discriminate]|].
      destruct (IH piece H) as [H1 H2]. split; [exact H1|].
      intros x Hx. cbn [PyStr.mem]. now rewrite (H2 x Hx), orb_true_r.
    + intros [<-|H].
      * destruct (IH p (or_introl eq_refl)) as [H1 H2]. split.
        -- cbn [PyStr.mem]. rewrite H1, orb_false_r. now rewrite Ascii.eqb_sym.
        -- intros x. cbn [PyStr.mem]. intros Hx. apply orb_prop in Hx as [Hx|Hx].
           ++ now rewrite Hx.
           ++ now rewrite (H2 x Hx), orb_true_r.
      * destruct (IH piece (or_intror H)) as [H1 H2]. split; [exact H1|].
        intros x Hx. cbn [PyStr.mem]. now rewrite (H2 x Hx), orb_true_r.
Qed.

Lemma last_In {A} (l : list A) d : l <> [] -> In (List.last l d) l.
Proof.
  induction l as [|x l IH]; [congruence|]. intros _.
  destruct l as [|y l]; [now left|]. right. apply IH. discriminate.
Qed.

Lemma not_mem_after x old new s :
  PyStr.truthy old = true -> PyStr.mem x s = false -> PyStr.mem x new = false ->
  PyStr.mem x (PyStr.replace old new s) = false.
Proof.
  intros Ho Hs Hn. destruct (PyStr.mem x (PyStr.replace old new s)) eqn:E; [|reflexivity].
  apply mem_replace in E as [E|E]; [congruence|congruence|exact Ho].
Qed.

Lemma symbol_tail_name sym :
  let clean_symbol :=
    PyStr.replace "()" "" (PyStr.replace "#" "/" (PyStr.replace "." "/" sym)) in
  let parts := filter PyStr.truthy (PyStr.split_char "/" clean_symbol) in
  let name := match parts with [] => sym | _ => List.last parts EmptyString end in
  (PyStr.truthy sym = true -> PyStr.truthy name = true)
  /\ (name = sym \/ separator_free name).
Proof.
  intros clean_symbol parts name.
  assert (Hdot : PyStr.mem "." clean_symbol = false).
  { apply not_mem_after; [reflexivity| |reflexivity].
    apply not_mem_after; [reflexivity| |reflexivity].
    now apply mem_replace_char. }
  assert (Hhash : PyStr.mem "#" clean_symbol = false).
  { apply not_mem_after; [reflexivity| |reflexivity]. now apply mem_replace_char. }
  subst name. destruct parts as [|p ps] eqn:Ep; [split; [auto|now left]|].
  assert (Hin : In (List.last (p :: ps) EmptyString) parts)
    by (rewrite Ep; apply last_In; discriminate).
  apply filter_In in Hin as [Hin Ht].
  split; [intros _; exact Ht|]. right.
  destruct (split_char_pieces _ _ _ Hin) as [H1 H2].
  split; [exact H1|]. split.
  - destruct (PyStr.mem "." (List.last (p :: ps) EmptyString)) eqn:E; [|reflexivity].
    apply H2 in E. congruence.
  - destruct (PyStr.mem "#" (List.last (p :: ps) EmptyString)) eqn:E; [|reflexivity].
    apply H2 in E. congruence.
Qed.

(** X17.  [_extract_name] returns the display name when there is one.
    Without it the name is not empty when the symbol is not, and it is the
    whole symbol or holds none of the separators [/], [.] and [#]. *)
Theorem extract_name_is_display_name_or_last_component sym sym_info :
  let name := _extract_name sym sym_info in
  match sym_info with
  | Some i => PyStr.truthy (display_name i) = true -> name = display_name i
  | None => True
  end
  /\ (match sym_info with
      | Some i => display_name i = EmptyString
      | None => True
      end ->
      (PyStr.truthy sym = true -> PyStr.truthy name = true)
      /\ (name = sym \/ separator_free name)).
Proof.
  unfold _extract_name. destruct sym_info as [i|].
  - split; [now intros ->|]. intros ->. cbn [PyStr.truthy]. apply symbol_tail_name.
  - split; [exact I|]. intros _. apply symbol_tail_name.
Qed.

Lemma extract_name_is_display_name_or_last_component_witness :
  _extract_name "pkg/mod/Greeter#hello()." None = "hello"
  /\ separator_free "hello".
Proof.
  split; [reflexivity|].
  destruct (extract_name_is_display_name_or_last_component "pkg/mod/Greeter#hello()." None)
    as [_ H].
  destruct (H I) as [_ [E|Hs]]; [discriminate E|exact Hs].
Defined.

End ExtractName.

Section Configuration.
Import ScipConfig.

(** X18.  [should_use_scip] holds for a language exactly when the
    configured method is [auto] or [scip] and the language is one of the
    entries of the configured list, split at commas and stripped; with
    nothing configured the method is [tree-sitter] and it holds for no
    language. *)
Theorem scip_is_used_only_when_configured get_config_value lang :
  should_use_scip (__init__ get_config_value) lang = true <->
  (get_config_value "INDEXING_METHOD" = Some "auto"
   \/ get_config_value "INDEXING_METHOD" = Some "scip")
  /\ exists entry,
       In entry (PyStr.split_char ","
                   (value_or (get_config_value "SCIP_ENABLED_LANGUAGES") "python"))
       /\ PyStr.strip entry = lang.
Proof.
  unfold should_use_scip, __init__. cbn [method enabled_langs].
  set (entries := PyStr.split_char ","
                    (value_or (get_config_value "SCIP_ENABLED_LANGUAGES") "python")).
  assert (Hl : str_in lang (map PyStr.strip entries) = true
               <-> exists entry, In entry entries /\ PyStr.strip entry = lang).
  { rewrite str_in_In, in_map_iff. split; intros (x & H1 & H2); exists x; now split. }
  rewrite <- Hl. clear Hl.
  destruct (get_config_value "INDEXING_METHOD") as [m|]; cbn [value_or].
  - destruct m as [|c m]; cbn [PyStr.truthy].
    + simpl. split; [discriminate|]. intros [[H|H] _]; discriminate H.
    + destruct (String.eqb_spec (String c m) "auto") as [->|Ha].
      * split; [intros H; split; [now left|exact H]|now intros [_ H]].
      * destruct (String.eqb_spec (String c m) "scip") as [->|Hs].
        -- split; [intros H; split; [now right|exact H]|now intros [_ H]].
        -- split; [discriminate|]. intros [[H|H] _]; congruence.
  - simpl. split; [discriminate|]. intros [[H|H] _]; discriminate H.
Qed.

End Configuration.

(** ** What a run writes *)

Section AppendOnly.
Import Graph GraphNotions Scip Reingest Writes.

Lemma ids_grow g g' x : nodes_grow g g' -> In x (ids g) -> In x (ids g').
Proof.
  intros [extra E] H. unfold ids in *.
  assert (Hm : forall h, map fst (nodes h) = map (fun t => fst (fst t)) (map identity (nodes h))).
  { intros h. rewrite map_map. reflexivity. }
  rewrite Hm in H |- *. rewrite E, map_app. apply in_or_app. now left.
Qed.

Lemma step_ok_refl g : step_ok g g.
Proof.
  split; [exists []; now rewrite app_nil_r|].
  split; [exists []; now rewrite app_nil_r|].
  split; [|auto].
  apply Forall_forall. intros e He. left. exists e. auto.
Qed.

Lemma verified_fixed e : scip_verified e = Some true -> verified e = e.
Proof. destruct e as [s t d v]. unfold verified. simpl. now intros ->. Qed.

Lemma written_trans g1 g2 g3 : written g1 g2 -> written g2 g3 -> written g1 g3.
Proof.
  unfold written. rewrite !Forall_forall. intros H12 H23 e3 H3.
  destruct (H23 e3 H3) as [(e2 & H2 & Hc)|Hf]; [|now right].
  destruct (H12 e2 H2) as [(e1 & H1 & Hc1)|Hf2].
  - left. exists e1. split; [exact H1|].
    destruct Hc as [->|[Hr ->]]; [exact Hc1|].
    destruct Hc1 as [->|[Hr1 ->]]; [right; now split|]. right. split; [exact Hr1|reflexivity].
  - destruct Hc as [->|[Hr ->]]; [now right|].
    destruct Hf2 as [[Ht _]|[Ht Hv]]; [congruence|].
    right. rewrite (verified_fixed _ Hv). right. now split.
Qed.

Lemma step_ok_trans g1 g2 g3 : step_ok g1 g2 -> step_ok g2 g3 -> step_ok g1 g3.
Proof.
  intros ([x1 N1] & [y1 E1] & W1 & F1) ([x2 N2] & [y2 E2] & W2 & F2).
  split; [exists (app x1 x2); now rewrite N2, N1, app_assoc|].
  split; [exists (app y1 y2); now rewrite E2, E1, app_assoc|].
  split; [now apply (written_trans g1 g2)|auto].
Qed.

Lemma written_same_edges g g' : edges g' = edges g -> written g g'.
Proof.
  intros E. unfold written. rewrite E. apply Forall_forall.
  intros e He. left. exists e. auto.
Qed.

Lemma well_formed_same_edges g g' :
  edges g' = edges g -> (forall x, In x (ids g) -> In x (ids g')) ->
  well_formed g -> well_formed g'.
Proof.
  intros E Hi. unfold well_formed. rewrite E.
  apply Forall_impl. intros e [H1 H2]. auto.
Qed.

Lemma step_ok_merge_node p init g : step_ok g (merge_node p init g).
Proof.
  unfold merge_node. destruct (existsb _ _); [apply step_ok_refl|].
  assert (Hn : nodes_grow g (add_node init g)).
  { exists [identity (fresh_id g, init)]. unfold add_node. cbn [nodes]. now rewrite map_app. }
  split; [exact Hn|]. split; [exists []; now rewrite app_nil_r|].
  split; [now apply written_same_edges|].
  apply well_formed_same_edges; [reflexivity|]. intros x. now apply ids_grow.
Qed.

Lemma step_ok_set_nodes p f g :
  (forall n, labels (f n) = labels n /\ scip_symbol (f n) = scip_symbol n) ->
  step_ok g (set_nodes p f g).
Proof.
  intros Hf.
  assert (Hn : map identity (nodes (set_nodes p f g)) = map identity (nodes g)).
  { unfold set_nodes. cbn [nodes]. rewrite map_map. apply map_ext. intros [i n].
    unfold identity. cbn [fst snd]. destruct (p n); [|reflexivity].
    destruct (Hf n) as [-> ->]. reflexivity. }
  split; [exists []; now rewrite app_nil_r|].
  split; [exists []; now rewrite app_nil_r|].
  split; [now apply written_same_edges|].
  apply well_formed_same_edges; [reflexivity|]. intros x.
  apply ids_grow. exists []. now rewrite app_nil_r.
Qed.

Lemma edges_grow_merge_edges t rs : forall g, edges_grow g (merge_edges t rs g).
Proof.
  unfold merge_edges. induction rs as [|r rs IH]; intros g; cbn [fold_left].
  - exists []. now rewrite app_nil_r.
  - destruct (IH (merge_edge t r g)) as [extra E].
    unfold merge_edge in *. destruct (existsb _ _); [now exists extra|].
    cbn [edges] in E. rewrite map_app in E.
    eexists. rewrite E, <- app_assoc. reflexivity.
Qed.

Lemma well_formed_merge_edges t rs g :
  Forall (fun r => In (fst r) (ids g) /\ In (snd r) (ids g)) rs ->
  well_formed g -> well_formed (merge_edges t rs g).
Proof.
  intros Hrs Hg. unfold well_formed. apply Forall_forall. intros e He.
  unfold ids. rewrite nodes_merge_edges. fold (ids g).
  apply In_edges_merge_edges in He as [He|(r & Hr & ->)].
  - exact (proj1 (Forall_forall _ _) Hg e He).
  - exact (proj1 (Forall_forall _ _) Hrs r Hr).
Qed.

Lemma step_ok_merge_contains rs g :
  Forall (fun r => In (fst r) (ids g) /\ In (snd r) (ids g)) rs ->
  step_ok g (merge_edges "CONTAINS" rs g).
Proof.
  intros Hrs.
  split; [exists []; now rewrite nodes_merge_edges, app_nil_r|].
  split; [apply edges_grow_merge_edges|].
  split; [|now apply well_formed_merge_edges].
  apply Forall_forall. intros e He.
  apply In_edges_merge_edges in He as [He|(r & Hr & ->)].
  - left. exists e. auto.
  - right. left. now split.
Qed.

Lemma match_ids_ids q g x : In x (match_ids q g) -> In x (ids g).
Proof.
  unfold match_ids, ids. intros H. apply in_map_iff in H as (e & <- & He).
  apply filter_In in He as [He _]. now apply in_map.
Qed.

Lemma rows_in_ids xs ys g :
  (forall x, In x xs -> In x (ids g)) -> (forall y, In y ys -> In y (ids g)) ->
  Forall (fun r => In (fst r) (ids g) /\ In (snd r) (ids g)) (rows xs ys).
Proof.
  intros Hx Hy. apply Forall_forall. intros [x y] H. apply In_rows in H as [H1 H2].
  split; [now apply Hx|now apply Hy].
Qed.

Lemma step_ok_file_query p rel nm g : step_ok g (file_query p rel nm g).
Proof.
  unfold file_query.
  eapply step_ok_trans; [apply step_ok_merge_node|].
  apply step_ok_set_nodes. intros n. now split.
Qed.

Lemma step_ok_directory_query pl pp cur part g :
  step_ok g (directory_query pl pp cur part g).
Proof.
  unfold directory_query.
  destruct (match_ids (is_labelled_at pl pp) g) as [|c cs] eqn:E; [apply step_ok_refl|].
  set (g1 := merge_node _ _ g).
  set (g2 := set_nodes _ _ g1).
  assert (H1 : step_ok g g1) by apply step_ok_merge_node.
  assert (H2 : step_ok g1 g2) by (apply step_ok_set_nodes; intros n; now split).
  apply (step_ok_trans g g1); [exact H1|].
  apply (step_ok_trans g1 g2); [exact H2|].
  apply step_ok_merge_contains. apply rows_in_ids.
  - intros x Hx. apply (ids_grow g1 g2); [apply H2|].
    apply (ids_grow g g1); [apply H1|]. apply (match_ids_ids (is_labelled_at pl pp)).
    now rewrite E.
  - intros y Hy. apply (ids_grow g1 g2); [apply H2|]. now apply match_ids_ids in Hy.
Qed.

Lemma step_ok_link_file_query pl pp fp g : step_ok g (link_file_query pl pp fp g).
Proof.
  unfold link_file_query. apply step_ok_merge_contains.
  apply rows_in_ids; intros x; apply match_ids_ids.
Qed.

Lemma step_ok_link_hierarchy parts : forall pp pl fp g,
  step_ok g (link_hierarchy parts pp pl fp g).
Proof.
  induction parts as [|part parts IH]; intros pp pl fp g; cbn [link_hierarchy].
  - apply step_ok_link_file_query.
  - eapply step_ok_trans; [apply step_ok_directory_query|apply IH].
Qed.

Lemma step_ok_definition_query l p s nm ln g : step_ok g (definition_query l p s nm ln g).
Proof.
  unfold definition_query.
  destruct (match_ids (is_file p) g) as [|c cs] eqn:E; [apply step_ok_refl|].
  set (g1 := merge_node _ _ g).
  set (g2 := set_nodes _ _ g1).
  assert (H1 : step_ok g g1) by apply step_ok_merge_node.
  assert (H2 : step_ok g1 g2) by (apply step_ok_set_nodes; intros n; now split).
  apply (step_ok_trans g g1); [exact H1|].
  apply (step_ok_trans g1 g2); [exact H2|].
  apply step_ok_merge_contains. apply rows_in_ids.
  - intros x Hx. apply (ids_grow g1 g2); [apply H2|].
    apply (ids_grow g g1); [apply H1|]. apply (match_ids_ids (is_file p)).
    now rewrite E.
  - intros y Hy. apply (ids_grow g1 g2); [apply H2|]. now apply match_ids_ids in Hy.
Qed.

Lemma edge_key_verify_edges t rs g :
  map edge_key (edges (verify_edges t rs g)) = map edge_key (edges g).
Proof.
  unfold verify_edges. cbn [edges]. rewrite map_map. apply map_ext.
  intros e. now destruct (edge_in t rs e).
Qed.

Lemma step_ok_calls_query caller tl ts tn g :
  step_ok g (snd (calls_query caller tl ts tn g)).
Proof.
  pose proof (calls_query_edges caller tl ts tn g) as Hedges.
  unfold calls_query in *.
  destruct (match_ids caller g) as [|c cs] eqn:E; [apply step_ok_refl|].
  cbn [snd] in *.
  set (g1 := merge_node (has_symbol tl ts) (mk_node [tl] None None (Some tn) (Some ts) None) g) in *.
  set (rs := rows (c :: cs) (match_ids (has_symbol tl ts) g1)) in *.
  assert (H1 : step_ok g g1) by apply step_ok_merge_node.
  assert (Hrs : Forall (fun r => In (fst r) (ids g1) /\ In (snd r) (ids g1)) rs).
  { apply rows_in_ids.
    - intros x Hx. apply (ids_grow g g1); [apply H1|].
      apply (match_ids_ids caller). now rewrite E.
    - intros y. apply match_ids_ids. }
  split; [|split; [|split]].
  - destruct H1 as [[extra N] _]. exists extra.
    now rewrite nodes_verify_edges, nodes_merge_edges.
  - destruct (edges_grow_merge_edges "CALLS" rs g1) as [extra Eg].
    exists extra. rewrite edge_key_verify_edges, Eg.
    unfold g1. now rewrite edges_merge_node.
  - apply Forall_forall. intros e He. destruct (Hedges e He) as [H|H].
    + left. exists e. auto.
    + right. now right.
  - intros Hg. assert (Hg1 : well_formed g1) by now apply H1.
    pose proof (well_formed_merge_edges "CALLS" rs g1 Hrs Hg1) as Hg2.
    unfold well_formed in *. unfold ids in *.
    rewrite nodes_verify_edges. unfold verify_edges. cbn [edges].
    apply Forall_map. eapply Forall_impl; [|exact Hg2].
    intros e He. now destruct (edge_in "CALLS" rs e).
Qed.

Lemma step_ok_run_ref_step fp g r : step_ok g (run_ref_step fp g r).
Proof.
  unfold run_ref_step.
  pose proof (step_ok_calls_query (caller_by_name fp (func_name (rf_caller r)))
                (rf_label r) (rf_symbol r) (rf_name r) g) as H1.
  destruct (calls_query (caller_by_name fp (func_name (rf_caller r)))
              (rf_label r) (rf_symbol r) (rf_name r) g) as [created g1].
  cbn [snd] in H1. destruct (created =? 0); [|exact H1].
  eapply step_ok_trans; [exact H1|apply step_ok_calls_query].
Qed.

Lemma step_ok_fold {A} (step : graph -> A -> graph) l :
  (forall g x, step_ok g (step g x)) -> forall g, step_ok g (fold_left step l g).
Proof.
  intros H. induction l as [|x l IH]; intros g; cbn [fold_left]; [apply step_ok_refl|].
  eapply step_ok_trans; [apply H|apply IH].
Qed.

Lemma step_ok_process_document env m doc g : step_ok g (_process_document env m doc g).
Proof.
  unfold _process_document.
  destruct (PyStr.startswith (doc_relative_path doc) ".."); [apply step_ok_refl|].
  cbv zeta. rewrite fold_process_definition, link_references_fold.
  set (fp := resolve env (doc_relative_path doc)).
  set (parts := removelast (PyPath.parts (doc_relative_path doc))).
  set (g1 := file_query fp (doc_relative_path doc) (PyPath.basename fp) g).
  set (g2 := link_hierarchy parts (repo_path_str env) "Repository" fp g1).
  set (g3 := link_hierarchy parts (repo_path_str env) "Repository" fp g2).
  set (g4 := fold_left (run_def_step fp) (def_steps m (definitions_of doc)) g3).
  apply (step_ok_trans g g1); [apply step_ok_file_query|].
  apply (step_ok_trans g1 g2); [apply step_ok_link_hierarchy|].
  apply (step_ok_trans g2 g3); [apply step_ok_link_hierarchy|].
  apply (step_ok_trans g3 g4); apply step_ok_fold; intros g0 x.
  - apply step_ok_definition_query.
  - apply step_ok_run_ref_step.
Qed.

(** X19.  [_process_document] only appends: the nodes and the
    relationships of the graph stay in their places, each node with its
    identifier, labels and symbol, each relationship with its type and end
    points; what is new comes after them. *)
Theorem process_document_only_appends env symbol_map doc g :
  nodes_grow g (_process_document env symbol_map doc g)
  /\ edges_grow g (_process_document env symbol_map doc g).
Proof.
  destruct (step_ok_process_document env symbol_map doc g) as (H1 & H2 & _).
  now split.
Qed.

(** X20.  Every relationship of the graph after [_process_document] is
    one of the graph before, possibly a [CALLS] that is now verified, or a
    new [CONTAINS], or a new [CALLS] that is verified: no other type is
    written, and no [CALLS] is written without the mark. *)
Theorem process_document_writes_contains_and_verified_calls env symbol_map doc g :
  written g (_process_document env symbol_map doc g).
Proof. apply step_ok_process_document. Qed.

Lemma well_formed_detach_delete p g : well_formed g -> well_formed (detach_delete p g).
Proof.
  unfold well_formed, detach_delete, ids. cbn [nodes edges].
  intros H. apply Forall_forall. intros e He.
  apply filter_In in He as [He Hk]. apply andb_prop in Hk as [Hs Hd].
  destruct (proj1 (Forall_forall _ _) H e He) as [H1 H2].
  assert (K : forall x, In x (map fst (nodes g)) ->
                        existsb (Nat.eqb x) (match_ids p g) = false ->
                        In x (map fst (filter (fun e => negb (p (snd e))) (nodes g)))).
  { intros x Hx Hn. apply in_map_iff in Hx as ([i n] & <- & Hin). cbn [fst] in *.
    apply in_map_iff. exists (i, n). split; [reflexivity|].
    apply filter_In. split; [exact Hin|]. cbn [snd].
    destruct (p n) eqn:Ep; [|reflexivity]. exfalso.
    assert (Ht : existsb (Nat.eqb i) (match_ids p g) = true); [|congruence].
    apply existsb_exists. exists i. split; [|apply Nat.eqb_refl].
    unfold match_ids. apply in_map_iff. exists (i, n). split; [reflexivity|].
    apply filter_In. now split. }
  split; apply K; auto; now apply negb_true_iff.
Qed.

(** X21.  [ingest_index] keeps the graph well formed: when every
    relationship joins two nodes of the graph before the run, so does every
    relationship after it, the cleanup of the local symbols included. *)
Theorem ingest_index_keeps_relationships_attached env index g :
  well_formed g -> well_formed (ingest_index env index g).
Proof.
  intros Hg. unfold ingest_index, cleanup_query. apply well_formed_detach_delete.
  unfold process_documents.
  assert (H : step_ok g (fold_left (fun g doc => _process_document env (symbol_info_map index) doc g)
                                   (documents index) g)).
  { apply step_ok_fold. intros g0 doc. apply step_ok_process_document. }
  now apply H.
Qed.

Lemma ingest_index_keeps_relationships_attached_witness :
  well_formed SampleIndex.repository
  /\ well_formed (ingest_index SampleIndex.env SampleIndex.index SampleIndex.repository).
Proof.
  assert (H : well_formed SampleIndex.repository) by constructor.
  split; [exact H|].
  exact (ingest_index_keeps_relationships_attached SampleIndex.env SampleIndex.index
           SampleIndex.repository H).
Defined.

End AppendOnly.

(** ** What a run leaves in the graph *)

Section Recorded.
Import Graph GraphNotions Scip Reingest Writes.

Lemma match_ids_label_none l p g :
  match_ids (has_label l) g = [] -> match_ids (is_labelled_at l p) g = [].
Proof.
  unfold match_ids, is_labelled_at.
  induction (nodes g) as [|[i n] ns IH]; cbn [filter map snd]; [reflexivity|].
  destruct (has_label l n); [discriminate|exact IH].
Qed.

Lemma link_hierarchy_without_parent parts : forall pp pl fp g,
  match_ids (is_labelled_at pl pp) g = [] ->
  match_ids (has_label "Directory") g = [] ->
  link_hierarchy parts pp pl fp g = g.
Proof.
  induction parts as [|part parts IH]; intros pp pl fp g Hp Hd; cbn [link_hierarchy].
  - unfold link_file_query. now rewrite Hp.
  - unfold directory_query. rewrite Hp. apply IH; [|exact Hd].
    now apply match_ids_label_none.
Qed.

(** X22.  Without a [Repository] node at the path of the repository, and
    without any [Directory] node, the two passes that link a file to the
    hierarchy write nothing: no directory is created and the file is not
    linked. *)
Theorem hierarchy_needs_repository_node dir_parts repo file_path_str g :
  match_ids (is_labelled_at "Repository" repo) g = [] ->
  match_ids (has_label "Directory") g = [] ->
  link_hierarchy dir_parts repo "Repository" file_path_str g = g.
Proof. apply link_hierarchy_without_parent. Qed.

Lemma hierarchy_needs_repository_node_witness :
  link_hierarchy ["pkg"; "sub"] "/repo" "Repository" "/repo/pkg/sub/m.py"
    (file_query "/repo/pkg/sub/m.py" "pkg/sub/m.py" "m.py" empty)
  = file_query "/repo/pkg/sub/m.py" "pkg/sub/m.py" "m.py" empty.
Proof.
  apply (hierarchy_needs_repository_node ["pkg"; "sub"] "/repo" "/repo/pkg/sub/m.py");
    reflexivity.
Defined.

(** *** A reference to a symbol that is defined *)

Lemma existsb_set_nodes q p f g :
  (forall n, q (f n) = q n) ->
  existsb (fun e => q (snd e)) (nodes (set_nodes p f g))
  = existsb (fun e => q (snd e)) (nodes g).
Proof.
  intros Hq. unfold set_nodes. cbn [nodes].
  induction (nodes g) as [|[i n] ns IH]; cbn [map existsb fst snd]; [reflexivity|].
  rewrite IH. destruct (p n); [now rewrite Hq|reflexivity].
Qed.

Lemma definition_query_symbol l p s nm ln g :
  match_ids (is_file p) g <> [] ->
  existsb (fun e => has_symbol l s (snd e)) (nodes (definition_query l p s nm ln g)) = true.
Proof.
  intros Hf. unfold definition_query.
  destruct (match_ids (is_file p) g) as [|c cs]; [congruence|].
  rewrite nodes_merge_edges, existsb_set_nodes by reflexivity.
  apply merge_node_exists. apply has_symbol_new.
Qed.

Lemma calls_query_nodes caller tl ts tn g :
  existsb (fun e => has_symbol tl ts (snd e)) (nodes g) = true ->
  nodes (snd (calls_query caller tl ts tn g)) = nodes g.
Proof.
  intros H. unfold calls_query.
  destruct (match_ids caller g) as [|c cs]; [reflexivity|]. cbn [snd].
  now rewrite nodes_verify_edges, nodes_merge_edges, merge_node_done.
Qed.

(** X23.  A reference to a symbol whose definition was processed
    creates no node: the target of the [CALLS] relationship is the node of
    the definition. *)
Theorem call_to_defined_symbol_reuses_its_node symbol_map file_path_str caller g occ :
  is_local (symbol occ) = false ->
  match_ids (is_file file_path_str) g <> [] ->
  let g1 := process_definition symbol_map file_path_str g occ in
  nodes (upsert_call symbol_map file_path_str caller (symbol occ) g1) = nodes g1.
Proof.
  intros Hl Hf g1.
  assert (H1 : existsb (fun e => has_symbol (target_label symbol_map (symbol occ))
                                            (symbol occ) (snd e)) (nodes g1) = true).
  { subst g1. unfold process_definition. rewrite Hl.
    rewrite <- definition_label_is_target_label. now apply definition_query_symbol. }
  unfold upsert_call.
  pose proof (calls_query_nodes (caller_by_name file_path_str (func_name caller))
                (target_label symbol_map (symbol occ)) (symbol occ)
                (_extract_name (symbol occ) (symbol_map !! symbol occ)) g1 H1) as Hn.
  destruct (calls_query (caller_by_name file_path_str (func_name caller)) _ _ _ g1)
    as [created g2].
  cbn [snd] in Hn. destruct (created =? 0); [|exact Hn].
  rewrite calls_query_nodes; [exact Hn|]. now rewrite Hn.
Qed.

Lemma call_to_defined_symbol_reuses_its_node_witness :
  nodes (upsert_call ∅ "/repo/pkg/m.py" SampleIndex.outer "pkg/outer()."
           (process_definition ∅ "/repo/pkg/m.py"
              (file_query "/repo/pkg/m.py" "pkg/m.py" "m.py" SampleIndex.repository)
              (mk_occ 0 4 [9] "pkg/outer()." 1)))
  = nodes (process_definition ∅ "/repo/pkg/m.py"
             (file_query "/repo/pkg/m.py" "pkg/m.py" "m.py" SampleIndex.repository)
             (mk_occ 0 4 [9] "pkg/outer()." 1)).
Proof.
  assert (Hf : match_ids (is_file "/repo/pkg/m.py")
                 (file_query "/repo/pkg/m.py" "pkg/m.py" "m.py" SampleIndex.repository)
               <> []) by (vm_compute; discriminate).
  exact (call_to_defined_symbol_reuses_its_node ∅ "/repo/pkg/m.py" SampleIndex.outer
           (file_query "/repo/pkg/m.py" "pkg/m.py" "m.py" SampleIndex.repository)
           (mk_occ 0 4 [9] "pkg/outer()." 1) eq_refl Hf).
Defined.

(** *** What a processed document leaves in the graph *)

(** X24.  After [_process_document], for a document inside the root and
    a graph whose structural nodes carry no other label, the graph has a
    [File] node at the resolved path of the document, and every such node
    has the relative path of the document and the base name of the path as
    its name. *)
Theorem processed_document_has_its_file_node env symbol_map doc g :
  structural_apart g ->
  PyStr.startswith (doc_relative_path doc) ".." = false ->
  let g' := _process_document env symbol_map doc g in
  let file_path_str := resolve env (doc_relative_path doc) in
  bound (is_file file_path_str) g' <> []
  /\ Forall (fun e => relative_path (snd e) = Some (doc_relative_path doc)
                      /\ name (snd e) = Some (PyPath.basename file_path_str))
            (bound (is_file file_path_str) g').
Proof.
  intros Hg Hrel g' fp.
  destruct (process_document_done env symbol_map doc g Hrel Hg) as ([H1 H2] & _).
  split; [|exact H2]. now apply match_ids_nonempty_bound.
Qed.

Lemma processed_document_has_its_file_node_witness :
  let g' := _process_document SampleIndex.env ∅ SampleIndex.doc SampleIndex.repository in
  let file_path_str := resolve SampleIndex.env (doc_relative_path SampleIndex.doc) in
  bound (is_file file_path_str) g' <> []
  /\ Forall (fun e => relative_path (snd e) = Some (doc_relative_path SampleIndex.doc)
                      /\ name (snd e) = Some (PyPath.basename file_path_str))
            (bound (is_file file_path_str) g').
Proof.
  exact (processed_document_has_its_file_node SampleIndex.env ∅ SampleIndex.doc
           SampleIndex.repository repository_apart eq_refl).
Defined.

(** X25.  After [_process_document], for a document inside the root and
    a graph whose structural nodes carry no other label, every definition of
    the document that is not local has a node with its label and symbol, and
    a [CONTAINS] relationship joins every [File] node of the document to
    every such node. *)
Theorem processed_document_has_its_definitions env symbol_map doc g occ :
  structural_apart g ->
  PyStr.startswith (doc_relative_path doc) ".." = false ->
  In occ (occurrences doc) ->
  is_definition occ = true ->
  is_local (symbol occ) = false ->
  let g' := _process_document env symbol_map doc g in
  let file_path_str := resolve env (doc_relative_path doc) in
  let defined := has_symbol (definition_label symbol_map (symbol occ)) (symbol occ) in
  match_ids defined g' <> []
  /\ Forall (fun r => has_edge "CONTAINS" g' r = true)
            (rows (match_ids (is_file file_path_str) g') (match_ids defined g')).
Proof.
  intros Hg Hrel Hin Hd Hl g' fp defined.
  destruct (process_document_done env symbol_map doc g Hrel Hg) as (_ & _ & [He _] & _).
  assert (Hs : In (def_step_of symbol_map occ) (def_steps symbol_map (definitions_of doc))).
  { unfold def_steps. apply in_map. apply filter_In. split; [|now rewrite Hl].
    unfold definitions_of. apply In_stable_sort. apply filter_In. now split. }
  exact (proj1 (Forall_forall _ _) He _ Hs).
Qed.

Lemma processed_document_has_its_definitions_witness :
  let g' := _process_document SampleIndex.env ∅ SampleIndex.doc SampleIndex.repository in
  match_ids (has_symbol (definition_label ∅ "pkg/inner().") "pkg/inner().") g' <> []
  /\ Forall (fun r => has_edge "CONTAINS" g' r = true)
            (rows (match_ids (is_file (resolve SampleIndex.env "pkg/m.py")) g')
                  (match_ids (has_symbol (definition_label ∅ "pkg/inner().")
                                         "pkg/inner().") g')).
Proof.
  assert (Hin : In (mk_occ 4 8 [13] "pkg/inner()." 1) (occurrences SampleIndex.doc))
    by (right; now left).
  exact (processed_document_has_its_definitions SampleIndex.env ∅ SampleIndex.doc
           SampleIndex.repository (mk_occ 4 8 [13] "pkg/inner()." 1) repository_apart
           eq_refl Hin eq_refl eq_refl).
Defined.

End Recorded.
